(** * Avatar generator: image delivery layer and remote-call wrappers

    A shallow embedding of
    - [src/lib/client/imageUtils.ts] (URL validation, normalisation,
      temporary-URL classification, image loading with retry),
    - the [AvatarImage] component (hook state, effects and handlers),
    - the two tRPC procedures [generateAvatarDescription] and
      [generateAvatarImage],
    together with the properties the specification states about them.

    JavaScript strings are modelled by [string]; a value that may be
    [null] or [undefined] by [option]; JavaScript numbers that only ever
    hold integers (counters, HTTP statuses, timer durations) by [Z]; the
    delay of [loadImageWithRetry], which is doubled without bound, by an
    integer or an infinity. *)

From Stdlib Require Import String Ascii List ZArith Bool Lia DecimalString.
From Equations Require Import Equations.
Import ListNotations.

Local Open Scope string_scope.
Local Open Scope Z_scope.

(* ===================================================================== *)
(** * JavaScript values and string primitives *)
(* ===================================================================== *)

Module JS.

(** [s.includes(sub)]: [sub] occurs in [s] as a contiguous substring. *)
Fixpoint includes (s sub : string) : bool :=
  String.prefix sub s ||
  match s with
  | EmptyString => false
  | String _ s' => includes s' sub
  end.

(** Code of a character; characters above 127 stand for the code units
    128..255. *)
Definition code (c : ascii) : nat := nat_of_ascii c.

Definition in_range (lo hi : nat) (c : ascii) : bool :=
  (Nat.leb lo (code c) && Nat.leb (code c) hi)%bool.

(** White space removed by [String.prototype.trim], within the modelled
    character range: TAB, LF, VT, FF, CR, SPACE and NBSP. *)
Definition is_white_space (c : ascii) : bool :=
  (in_range 9 13 c || Nat.eqb (code c) 32 || Nat.eqb (code c) 160)%bool.

Fixpoint trim_start (s : string) : string :=
  match s with
  | EmptyString => EmptyString
  | String c s' => if is_white_space c then trim_start s' else s
  end.

Fixpoint rev_string (s acc : string) : string :=
  match s with
  | EmptyString => acc
  | String c s' => rev_string s' (String c acc)
  end.

Definition trim_end (s : string) : string :=
  rev_string (trim_start (rev_string s "")) "".

Definition trim (s : string) : string := trim_end (trim_start s).

(** The JavaScript values that cross the two remote boundaries. *)
#[local] Set Warnings "-register-all".
Inductive value : Type :=
| Undefined
| Null
| Bool (b : bool)
| Number (n : Z)
| Str (s : string)
| Arr (items : list value)
| Obj (fields : list (string * value)).

#[local] Set Warnings "register-all".

(** [Boolean(v)] for the modelled values. *)
Definition truthy (v : value) : bool :=
  match v with
  | Undefined | Null => false
  | Bool b => b
  | Number n => negb (n =? 0)
  | Str s => negb (s =? "")%string
  | Arr _ | Obj _ => true
  end.

(** [Array.isArray(v) && v.length > 0]. *)
Definition is_nonempty_array (v : value) : bool :=
  match v with
  | Arr (_ :: _) => true
  | _ => false
  end.

(** Decimal rendering of an integer, as in a template string. *)
Definition decimal (n : Z) : string :=
  NilZero.string_of_int (Z.to_int n).

End JS.

(* ===================================================================== *)
(** * The platform's [URL] class

    [imageUtils.ts] relies on the platform's [URL] class (WHATWG URL
    Standard).  The URL record, its serializer, the [protocol] and
    [hostname] getters and the [protocol] setter are written out below
    following the Standard.  The parser ([new URL(s)], without a base) is
    a parameter of every function that parses: results about the
    repository's code hold for every parser.  A reference parser for an
    ASCII fragment of the Standard is given afterwards, to run the code
    on concrete strings. *)
(* ===================================================================== *)

Module Url.

Import JS.

(** A URL's path is either opaque (a single string) or a list of
    segments. *)
Inductive url_path : Type :=
| OpaquePath (s : string)
| ListPath (segments : list string).

(** The URL record.  [host] holds the serialized host: [None] is the null
    host and [Some ""] the empty host. *)
Record URL : Type := mkURL {
  scheme : string;
  username : string;
  password : string;
  host : option string;
  port : option Z;
  path : url_path;
  query : option string;
  fragment : option string
}.

Definition is_special (s : string) : bool :=
  ((s =? "ftp") || (s =? "file") || (s =? "http") || (s =? "https")
   || (s =? "ws") || (s =? "wss"))%string.

Definition default_port (s : string) : option Z :=
  if (s =? "ftp")%string then Some 21
  else if ((s =? "http") || (s =? "ws"))%string then Some 80
  else if ((s =? "https") || (s =? "wss"))%string then Some 443
  else None.

Definition includes_credentials (u : URL) : bool :=
  (negb (username u =? "") || negb (password u =? ""))%string.

Definition port_eqb (a b : option Z) : bool :=
  match a, b with
  | None, None => true
  | Some x, Some y => x =? y
  | _, _ => false
  end.

(** ** Serializer ([url.toString()], [url.href]) *)

Fixpoint serialize_segments (segs : list string) : string :=
  match segs with
  | [] => ""
  | seg :: rest => "/" ++ seg ++ serialize_segments rest
  end.

Definition serialize_path (p : url_path) : string :=
  match p with
  | OpaquePath s => s
  | ListPath segs => serialize_segments segs
  end.

Definition serialize_authority (u : URL) (h : string) : string :=
  "//"
  ++ (if includes_credentials u
      then username u
           ++ (if (password u =? "")%string then "" else ":" ++ password u)
           ++ "@"
      else "")
  ++ h
  ++ match port u with
     | Some p => ":" ++ decimal p
     | None => ""
     end.

Definition toString (u : URL) : string :=
  scheme u ++ ":"
  ++ match host u with
     | Some h => serialize_authority u h
     | None =>
         match path u with
         | ListPath ((EmptyString :: _ :: _)) => "/."
         | _ => ""
         end
     end
  ++ serialize_path (path u)
  ++ match query u with Some q => "?" ++ q | None => "" end
  ++ match fragment u with Some f => "#" ++ f | None => "" end.

(** ** Getters *)

Definition protocol (u : URL) : string := scheme u ++ ":".

Definition hostname (u : URL) : string :=
  match host u with
  | Some h => h
  | None => ""
  end.

(** ** Scheme scanning (scheme start state and scheme state) *)

Definition is_alpha (c : ascii) : bool :=
  (in_range 65 90 c || in_range 97 122 c)%bool.

Definition is_digit (c : ascii) : bool := in_range 48 57 c.

Definition to_lower (c : ascii) : ascii :=
  if in_range 65 90 c then ascii_of_nat (code c + 32) else c.

Definition is_scheme_char (c : ascii) : bool :=
  (is_alpha c || is_digit c
   || Ascii.eqb c "+" || Ascii.eqb c "-" || Ascii.eqb c ".")%bool.

Fixpoint scheme_state (input buffer : string) : option (string * string) :=
  match input with
  | EmptyString => None
  | String c rest =>
      if is_scheme_char c
      then scheme_state rest (buffer ++ String (to_lower c) "")
      else if Ascii.eqb c ":" then Some (buffer, rest)
      else None
  end.

(** Returns the lower-cased scheme and what follows its colon. *)
Definition scheme_start_state (input : string) : option (string * string) :=
  match input with
  | String c rest =>
      if is_alpha c then scheme_state rest (String (to_lower c) "") else None
  | EmptyString => None
  end.

(** ** The [protocol] setter ([url.protocol = value])

    The Standard runs the parser on [value] followed by a colon, in the
    scheme start state with the URL as state override: the scheme is
    replaced unless the change crosses the special / non-special divide,
    would give a [file] URL credentials or a port, or the URL is a [file]
    URL with an empty host.  A port equal to the new scheme's default is
    dropped. *)
Definition set_protocol (u : URL) (value : string) : URL :=
  match scheme_start_state (value ++ ":") with
  | None => u
  | Some (buffer, _) =>
      if xorb (is_special (scheme u)) (is_special buffer) then u
      else if ((includes_credentials u
                || match port u with Some _ => true | None => false end)
               && (buffer =? "file")%string)%bool then u
      else if ((scheme u =? "file")%string
               && match host u with
                  | Some h => (h =? "")%string
                  | None => false
                  end)%bool then u
      else
        mkURL buffer (username u) (password u) (host u)
              (if port_eqb (port u) (default_port buffer)
               then None else port u)
              (path u) (query u) (fragment u)
  end.

End Url.

(* ===================================================================== *)
(** * A reference parser for an ASCII fragment of the URL Standard

    [parseURL] follows the basic URL parser without a base URL on input
    made of ASCII characters: special schemes other than [file] with a
    domain host, and non-special schemes with an opaque host, a path or
    an opaque path.  It answers [None] where the Standard reports
    failure, and also on the input it does not cover: non-ASCII
    characters, [file] URLs, IP-address hosts, percent-escapes and
    punycode labels in a domain, and a space in front of the query or
    fragment of an opaque path.  It serves to run the code on concrete
    strings; the general results below do not depend on it. *)
(* ===================================================================== *)

Module RefParser.

Import JS Url.

Definition hex_digit (n : nat) : ascii :=
  if Nat.ltb n 10 then ascii_of_nat (48 + n) else ascii_of_nat (55 + n).

Definition percent_encode_char (c : ascii) : string :=
  String "%" (String (hex_digit (code c / 16))
                     (String (hex_digit (code c mod 16)) "")).

Definition char_in (c : ascii) (set : string) : bool :=
  includes set (String c "").

Definition in_c0_control_set (c : ascii) : bool :=
  (Nat.ltb (code c) 32 || Nat.ltb 126 (code c))%bool.

Definition in_fragment_set (c : ascii) : bool :=
  (in_c0_control_set c || Nat.eqb (code c) 32 || Nat.eqb (code c) 34
   || char_in c "<>`")%bool.

Definition in_query_set (c : ascii) : bool :=
  (in_c0_control_set c || Nat.eqb (code c) 32 || Nat.eqb (code c) 34
   || char_in c "#<>")%bool.

Definition in_special_query_set (c : ascii) : bool :=
  (in_query_set c || Ascii.eqb c "'")%bool.

Definition in_path_set (c : ascii) : bool :=
  (in_query_set c || char_in c "?^`{}")%bool.

Definition in_userinfo_set (c : ascii) : bool :=
  (in_path_set c || char_in c "/:;=@[\]|")%bool.

Fixpoint percent_encode (set : ascii -> bool) (s : string) : string :=
  match s with
  | EmptyString => ""
  | String c s' =>
      (if set c then percent_encode_char c else String c "")
      ++ percent_encode set s'
  end.

Fixpoint string_forallb (p : ascii -> bool) (s : string) : bool :=
  match s with
  | EmptyString => true
  | String c s' => (p c && string_forallb p s')%bool
  end.

Fixpoint string_map (f : ascii -> ascii) (s : string) : string :=
  match s with
  | EmptyString => ""
  | String c s' => String (f c) (string_map f s')
  end.

Fixpoint string_filter (p : ascii -> bool) (s : string) : string :=
  match s with
  | EmptyString => ""
  | String c s' => if p c then String c (string_filter p s')
                   else string_filter p s'
  end.

(** Splits [s] in front of the first character satisfying [stop]. *)
Fixpoint span_until (stop : ascii -> bool) (s : string) : string * string :=
  match s with
  | EmptyString => ("", "")
  | String c s' =>
      if stop c then ("", s)
      else let (a, b) := span_until stop s' in (String c a, b)
  end.

(** Splits [s] around the last occurrence of [sep], if any. *)
Fixpoint split_last (sep : ascii) (s : string) : option (string * string) :=
  match s with
  | EmptyString => None
  | String c s' =>
      match split_last sep s' with
      | Some (a, b) => Some (String c a, b)
      | None => if Ascii.eqb c sep then Some ("", s') else None
      end
  end.

(** Leading and trailing C0 controls and spaces are removed, then every
    TAB, LF and CR. *)
Definition is_c0_or_space (c : ascii) : bool := Nat.leb (code c) 32.

Fixpoint strip_start (s : string) : string :=
  match s with
  | EmptyString => ""
  | String c s' => if is_c0_or_space c then strip_start s' else s
  end.

Definition preprocess (s : string) : string :=
  let s1 := strip_start s in
  let s2 := rev_string (strip_start (rev_string s1 "")) "" in
  string_filter
    (fun c => negb (Nat.eqb (code c) 9 || Nat.eqb (code c) 10
                    || Nat.eqb (code c) 13)%bool) s2.

(** ** Hosts *)

Definition forbidden_host_code_point (c : ascii) : bool :=
  (Nat.eqb (code c) 0 || Nat.eqb (code c) 9 || Nat.eqb (code c) 10
   || Nat.eqb (code c) 13 || Nat.eqb (code c) 32
   || char_in c "#/:<>?@[\]^|")%bool.

Definition forbidden_domain_code_point (c : ascii) : bool :=
  (forbidden_host_code_point c || Nat.leb (code c) 31
   || Ascii.eqb c "%" || Nat.eqb (code c) 127)%bool.

(** The labels of a domain, in order. *)
Fixpoint labels (s current : string) : list string :=
  match s with
  | EmptyString => [current]
  | String c s' =>
      if Ascii.eqb c "." then current :: labels s' ""
      else labels s' (current ++ String c "")
  end.

Definition is_hex_digit (c : ascii) : bool :=
  (is_digit c || in_range 65 70 c || in_range 97 102 c)%bool.

Definition is_ipv4_number (l : string) : bool :=
  match l with
  | EmptyString => false
  | String "0" (String x rest) =>
      if (Ascii.eqb x "x" || Ascii.eqb x "X")%bool
      then string_forallb is_hex_digit rest
      else string_forallb is_digit l
  | _ => string_forallb is_digit l
  end.

(** The "ends in a number" check of the host parser. *)
Definition ends_in_a_number (s : string) : bool :=
  match rev (labels s "") with
  | EmptyString :: l :: _ => is_ipv4_number l
  | l :: _ => is_ipv4_number l
  | [] => false
  end.

Definition parse_domain (buffer : string) : option string :=
  let d := string_map to_lower buffer in
  if (d =? "")%string then None
  else if negb (string_forallb (fun c => negb (forbidden_domain_code_point c)) d)
  then None
  else if existsb (fun l => String.prefix "xn--" l) (labels d "") then None
  else if ends_in_a_number d then None
  else Some d.

Definition parse_opaque_host (buffer : string) : option string :=
  if string_forallb (fun c => negb (forbidden_host_code_point c)) buffer
  then Some (percent_encode in_c0_control_set buffer)
  else None.

Definition parse_host (special : bool) (buffer : string) : option string :=
  match buffer with
  | String "[" _ => None
  | _ => if special then parse_domain buffer else parse_opaque_host buffer
  end.

(** ** Port *)

Fixpoint decimal_value (s : string) (acc : Z) : Z :=
  match s with
  | EmptyString => acc
  | String c s' => decimal_value s' (10 * acc + Z.of_nat (code c - 48))
  end.

Definition parse_port (sch buffer : string) : option (option Z) :=
  if negb (string_forallb is_digit buffer) then None
  else if (buffer =? "")%string then Some None
  else
    let p := decimal_value buffer 0 in
    if 65535 <? p then None
    else if port_eqb (Some p) (default_port sch) then Some None
    else Some (Some p).

(** ** Path, query and fragment *)

Definition is_single_dot (s : string) : bool :=
  let l := string_map to_lower s in
  ((l =? ".") || (l =? "%2e"))%string.

Definition is_double_dot (s : string) : bool :=
  let l := string_map to_lower s in
  ((l =? "..") || (l =? ".%2e") || (l =? "%2e.") || (l =? "%2e%2e"))%string.

Definition shorten (segs : list string) : list string := removelast segs.

(** What the path state does with [buffer] when it meets a separator
    ([slash]) or the end of the path. *)
Definition close_segment (slash : bool) (buffer : string)
                         (segs : list string) : list string :=
  if is_double_dot buffer then
    if slash then shorten segs else shorten segs ++ [""]
  else if is_single_dot buffer then
    if slash then segs else segs ++ [""]
  else segs ++ [buffer].

Fixpoint path_state (special : bool) (input buffer : string)
                    (segs : list string) : list string * string :=
  match input with
  | EmptyString => (close_segment false buffer segs, "")
  | String c rest =>
      if (Ascii.eqb c "/" || (special && Ascii.eqb c "\"))%bool
      then path_state special rest "" (close_segment true buffer segs)
      else if (Ascii.eqb c "?" || Ascii.eqb c "#")%bool
      then (close_segment false buffer segs, input)
      else path_state special rest
             (buffer ++ (if in_path_set c then percent_encode_char c
                         else String c "")) segs
  end.

(** Query and fragment of what follows the path: [input] is empty or
    starts with [?] or [#]. *)
Definition query_and_fragment (special : bool) (input : string)
  : option string * option string :=
  let fragment_of (s : string) :=
    match s with
    | String "#" f => Some (percent_encode in_fragment_set f)
    | _ => None
    end in
  match input with
  | String "?" rest =>
      let (q, after) := span_until (fun c => Ascii.eqb c "#") rest in
      (Some (percent_encode
               (if special then in_special_query_set else in_query_set) q),
       fragment_of after)
  | _ => (None, fragment_of input)
  end.

(** Path start state and what follows it. *)
Definition path_start_state (special : bool) (input : string)
  : url_path * option string * option string :=
  match input with
  | EmptyString =>
      (ListPath (if special then [""] else []), None, None)
  | String c rest =>
      if (Ascii.eqb c "/" || (special && Ascii.eqb c "\"))%bool then
        let (segs, after) := path_state special rest "" [] in
        let (q, f) := query_and_fragment special after in
        (ListPath segs, q, f)
      else if (negb special && (Ascii.eqb c "?" || Ascii.eqb c "#"))%bool then
        let (q, f) := query_and_fragment special input in
        (ListPath [], q, f)
      else
        let (segs, after) := path_state special input "" [] in
        let (q, f) := query_and_fragment special after in
        (ListPath segs, q, f)
  end.

(** ** Authority, host and port states *)

Definition authority_state (sch : string) (special : bool) (input : string)
  : option URL :=
  let stop c :=
    (Ascii.eqb c "/" || Ascii.eqb c "?" || Ascii.eqb c "#"
     || (special && Ascii.eqb c "\"))%bool in
  let (authority, rest) := span_until stop input in
  let '(userinfo, hostport) :=
    match split_last "@" authority with
    | Some (u, h) => (Some u, h)
    | None => (None, authority)
    end in
  let '(user, pass) :=
    match userinfo with
    | None => ("", "")
    | Some u =>
        let (a, b) := span_until (fun c => Ascii.eqb c ":") u in
        (percent_encode in_userinfo_set a,
         match b with
         | String _ p => percent_encode in_userinfo_set p
         | EmptyString => ""
         end)
    end in
  let (hostname_text, port_text) :=
    span_until (fun c => Ascii.eqb c ":") hostport in
  match userinfo, hostport with
  | Some _, EmptyString => None
  | _, _ =>
      if ((hostname_text =? "")%string
          && (special || negb (port_text =? "")%string))%bool then None
      else
        match parse_host special hostname_text with
        | None => None
        | Some h =>
            match parse_port sch
                    match port_text with
                    | String _ p => p
                    | EmptyString => ""
                    end with
            | None => None
            | Some prt =>
                let '(p, q, f) := path_start_state special rest in
                Some (mkURL sch user pass (Some h) prt p q f)
            end
        end
  end.

Fixpoint skip_slashes (s : string) : string :=
  match s with
  | String c s' =>
      if (Ascii.eqb c "/" || Ascii.eqb c "\")%bool then skip_slashes s' else s
  | EmptyString => ""
  end.

(** ** Opaque path state *)

Fixpoint space_before_query (s : string) : bool :=
  match s with
  | String " " (String c _ as s') =>
      (Ascii.eqb c "?" || Ascii.eqb c "#" || space_before_query s')%bool
  | String _ s' => space_before_query s'
  | EmptyString => false
  end.

Definition opaque_path_state (sch input : string) : option URL :=
  if space_before_query input then None
  else
    let (p, after) :=
      span_until (fun c => Ascii.eqb c "?" || Ascii.eqb c "#")%bool input in
    let (q, f) := query_and_fragment false after in
    Some (mkURL sch "" "" None None
                (OpaquePath (percent_encode in_c0_control_set p)) q f).

(** ** The parser *)

Definition parseURL (input : string) : option URL :=
  let s := preprocess input in
  if negb (string_forallb (fun c => Nat.ltb (code c) 128) s) then None
  else
    match scheme_start_state s with
    | None => None
    | Some (sch, rest) =>
        if (sch =? "file")%string then None
        else if is_special sch then authority_state sch true (skip_slashes rest)
        else
          match rest with
          | String "/" (String "/" rest') => authority_state sch false rest'
          | String "/" rest' =>
              let (segs, after) := path_state false rest' "" [] in
              let (q, f) := query_and_fragment false after in
              Some (mkURL sch "" "" None None (ListPath segs) q f)
          | _ => opaque_path_state sch rest
          end
    end.

End RefParser.

(* ===================================================================== *)
(** * [src/lib/client/imageUtils.ts] *)
(* ===================================================================== *)

Module ImageUtils.

Import JS Url.

(** [if (parsedUrl.protocol !== 'https:') { parsedUrl.protocol = 'https:' }],
    the statement in the middle of [normalizeImageUrl]. *)
Definition ensure_https (parsedUrl : URL) : URL :=
  if negb (protocol parsedUrl =? "https:")%string
  then set_protocol parsedUrl "https:"
  else parsedUrl.

Section WithParser.

(** [new URL(s)]: [None] when the constructor throws. *)
Variable URL_parse : string -> option URL.

(** The argument is [string | null | undefined]; [None] stands for both
    [null] and [undefined].  [!url] holds for these and for the empty
    string. *)
Definition validateImageUrl (url : option string) : bool :=
  match url with
  | None => false
  | Some s =>
      if (s =? "")%string then false
      else
        match URL_parse s with
        | Some parsedUrl =>
            if negb (protocol parsedUrl =? "https:")%string then false
            else if negb (includes (hostname parsedUrl) "replicate.delivery")
            then true
            else true
        | None => false
        end
  end.

(** Returns [string | null]; [None] is [null]. *)
Definition normalizeImageUrl (url : option string) : option string :=
  match url with
  | None => None
  | Some s =>
      if (s =? "")%string then None
      else
        match URL_parse s with
        | Some parsedUrl => Some (toString (ensure_https parsedUrl))
        | None => Some s
        end
  end.

Definition isLikelyTemporaryUrl (url : option string) : bool :=
  match url with
  | None => false
  | Some s =>
      if (s =? "")%string then false
      else
        match URL_parse s with
        | Some parsedUrl =>
            if includes (hostname parsedUrl) "replicate.delivery" then true
            else false
        | None => false
        end
  end.

Record error_details : Type := mkDetails {
  message : string;
  type : string
}.

(** The argument is [event.target.src]. *)
Definition getImageErrorDetails (src : string) : error_details :=
  if (src =? "")%string
  then mkDetails "No image source provided" "missing_src"
  else
    let default :=
      mkDetails "Failed to load image. Please try again." "unknown_error" in
    match URL_parse src with
    | Some url =>
        if includes (hostname url) "replicate.delivery" then
          mkDetails "Failed to load Replicate image. The image might still be processing or is no longer available."
                    "replicate_delivery_error"
        else if (negb (protocol url =? "https:")%string
                 && negb (protocol url =? "http:")%string)%bool then
          mkDetails "Invalid image URL protocol" "invalid_protocol"
        else default
    | None => mkDetails "Invalid image URL format" "invalid_url_format"
    end.

End WithParser.

(** ** [loadImageWithRetry]

    Each call of [attemptLoad] creates one [Image]; what that image does
    is given by the environment: it fires [onload], fires [onerror], or
    fires neither. *)
Inductive image_event : Type := OnLoad | OnError | NoEvent.

(** State of the returned promise. *)
Inductive promise_state : Type :=
| Resolved
| Rejected (reason : string)
| Pending.

(** The closure variable [delay] is a double.  It starts at
    [initialDelay], an integer here; [delay *= 2] is exact on it as long
    as the product stays below [2 ^ 1024] in magnitude and gives an
    infinity from there on, which doubling leaves as it is. *)
Inductive number : Type :=
| Finite (ms : Z)
| Infinity (negative : bool).

(** [2 ^ 1024], the magnitude at which a double overflows. *)
Definition double_limit : Z := Z.shiftl 1 1024.

(** [delay *= 2] *)
Definition times2 (delay : number) : number :=
  match delay with
  | Finite ms =>
      if Z.abs (ms * 2) <? double_limit then Finite (ms * 2)
      else Infinity (ms <? 0)
  | Infinity negative => Infinity negative
  end.

(** What a run of the loader did: the number of images created, the
    delays passed to [setTimeout] in order, and the promise's final
    state. *)
Record load_run : Type := mkRun {
  attempts : nat;
  delays : list number;
  outcome : promise_state
}.

Definition after_retry (delay : number) (r : load_run) : load_run :=
  mkRun (S (attempts r)) (delay :: delays r) (outcome r).

(** [attemptLoad], with the closure variables [retries] and [delay] as
    arguments; [n] counts the images created so far. *)
Equations? attemptLoad (img : nat -> image_event) (maxRetries : Z)
                       (n : nat) (retries : Z) (delay : number) : load_run
  by wf (Z.to_nat (maxRetries - retries)) lt :=
  attemptLoad img maxRetries n retries delay with img n => {
    | OnLoad => mkRun 1 [] Resolved;
    | NoEvent => mkRun 1 [] Pending;
    | OnError with Z_lt_dec retries maxRetries => {
        | left _ =>
            after_retry delay
              (attemptLoad img maxRetries (S n) (retries + 1) (times2 delay));
        | right _ =>
            mkRun 1 []
              (Rejected ("Failed to load image after " ++ decimal maxRetries
                         ++ " retries")) } }.
Proof. lia. Qed.

Definition loadImageWithRetry (img : nat -> image_event)
                              (maxRetries initialDelay : Z) : load_run :=
  attemptLoad img maxRetries 0 0 (Finite initialDelay).

End ImageUtils.

(* ===================================================================== *)
(** * The [AvatarImage] component

    The component's hook state, its two refs, its three effects and its
    event handlers.  React calls the component function ([Render]), which
    fixes the values the effects and handlers of that render see; state
    setters act on the current state.  The calls of the parent's
    [onError] callback are recorded in [onErrorCalls]. *)
(* ===================================================================== *)

Module AvatarImage.

Import JS Url ImageUtils.

(** [onError] is optional; a present callback is identified by a number,
    so that a re-created callback can be told from the previous one. *)
Record Props : Type := mkProps {
  imageUrl : string;
  isLoading : bool;
  onError : option nat
}.

(** The eight [useState] cells. *)
Record Hooks : Type := mkHooks {
  isImageLoaded : bool;
  hasError : bool;
  errorType : option string;
  errorMessage : option string;
  retryCount : Z;
  loadingTimeout : bool;
  normalizedUrl : option string;
  useFallbackImg : bool
}.

Definition maxRetries : Z := 2.

(** A timer created by the validation effect: its duration and what its
    callback closes over ([isImageLoaded], [hasError] and the [onError]
    behind [reportError]); [live] until it fires. *)
Record Timer : Type := mkTimer {
  duration : Z;
  sawLoaded : bool;
  sawError : bool;
  sawOnError : option nat;
  live : bool
}.

(** A [preloadImage] call in flight: the URL it loads and the wait in
    front of its first attempt. *)
Record Preload : Type := mkPreload {
  preloadUrl : string;
  initialWait : Z
}.

Record Component : Type := mkComponent {
  hooks : Hooks;
  timeoutRef : option Timer;
  errorReportedRef : bool;
  lastRender : option (Props * Hooks);
  cleanupDue : bool;
  preloads : list Preload;
  onErrorCalls : list (nat * string * string)
}.

Definition initialHooks : Hooks :=
  mkHooks false false None None 0 false None false.

Definition initial : Component :=
  mkComponent initialHooks None false None false [] [].

(** ** State setters *)

Definition setIsImageLoaded (v : bool) (h : Hooks) : Hooks :=
  mkHooks v (hasError h) (errorType h) (errorMessage h) (retryCount h)
          (loadingTimeout h) (normalizedUrl h) (useFallbackImg h).

Definition setHasError (v : bool) (h : Hooks) : Hooks :=
  mkHooks (isImageLoaded h) v (errorType h) (errorMessage h) (retryCount h)
          (loadingTimeout h) (normalizedUrl h) (useFallbackImg h).

Definition setErrorType (v : option string) (h : Hooks) : Hooks :=
  mkHooks (isImageLoaded h) (hasError h) v (errorMessage h) (retryCount h)
          (loadingTimeout h) (normalizedUrl h) (useFallbackImg h).

Definition setErrorMessage (v : option string) (h : Hooks) : Hooks :=
  mkHooks (isImageLoaded h) (hasError h) (errorType h) v (retryCount h)
          (loadingTimeout h) (normalizedUrl h) (useFallbackImg h).

Definition setRetryCount (f : Z -> Z) (h : Hooks) : Hooks :=
  mkHooks (isImageLoaded h) (hasError h) (errorType h) (errorMessage h)
          (f (retryCount h)) (loadingTimeout h) (normalizedUrl h)
          (useFallbackImg h).

Definition setLoadingTimeout (v : bool) (h : Hooks) : Hooks :=
  mkHooks (isImageLoaded h) (hasError h) (errorType h) (errorMessage h)
          (retryCount h) v (normalizedUrl h) (useFallbackImg h).

Definition setNormalizedUrl (v : option string) (h : Hooks) : Hooks :=
  mkHooks (isImageLoaded h) (hasError h) (errorType h) (errorMessage h)
          (retryCount h) (loadingTimeout h) v (useFallbackImg h).

Definition setUseFallbackImg (v : bool) (h : Hooks) : Hooks :=
  mkHooks (isImageLoaded h) (hasError h) (errorType h) (errorMessage h)
          (retryCount h) (loadingTimeout h) (normalizedUrl h) v.

Definition update (f : Hooks -> Hooks) (c : Component) : Component :=
  mkComponent (f (hooks c)) (timeoutRef c) (errorReportedRef c)
              (lastRender c) (cleanupDue c) (preloads c) (onErrorCalls c).

Definition setTimeoutRef (t : option Timer) (c : Component) : Component :=
  mkComponent (hooks c) t (errorReportedRef c) (lastRender c)
              (cleanupDue c) (preloads c) (onErrorCalls c).

Definition setErrorReportedRef (b : bool) (c : Component) : Component :=
  mkComponent (hooks c) (timeoutRef c) b (lastRender c) (cleanupDue c)
              (preloads c) (onErrorCalls c).

Definition setLastRender (r : option (Props * Hooks)) (c : Component)
  : Component :=
  mkComponent (hooks c) (timeoutRef c) (errorReportedRef c) r
              (cleanupDue c) (preloads c) (onErrorCalls c).

Definition setCleanupDue (b : bool) (c : Component) : Component :=
  mkComponent (hooks c) (timeoutRef c) (errorReportedRef c) (lastRender c)
              b (preloads c) (onErrorCalls c).

Definition setPreloads (l : list Preload) (c : Component) : Component :=
  mkComponent (hooks c) (timeoutRef c) (errorReportedRef c) (lastRender c)
              (cleanupDue c) l (onErrorCalls c).

Definition callOnError (f : nat) (type message : string) (c : Component)
  : Component :=
  mkComponent (hooks c) (timeoutRef c) (errorReportedRef c) (lastRender c)
              (cleanupDue c) (preloads c)
              (onErrorCalls c ++ [(f, type, message)]).

(** ** [reportError]

    [onError] is the callback of the render that created this
    [reportError]. *)
Definition reportError (onError : option nat) (type message : string)
                       (c : Component) : Component :=
  match onError with
  | Some f =>
      if negb (errorReportedRef c)
      then setErrorReportedRef true (callOnError f type message c)
      else c
  | None => c
  end.

(** [if (timeoutRef.current) { clearTimeout(...); timeoutRef.current = null }] *)
Definition clearTimeoutRef (c : Component) : Component :=
  match timeoutRef c with
  | Some _ => setTimeoutRef None c
  | None => c
  end.

Definition option_string_eqb (a b : option string) : bool :=
  match a, b with
  | None, None => true
  | Some x, Some y => (x =? y)%string
  | _, _ => false
  end.

Definition option_nat_eqb (a b : option nat) : bool :=
  match a, b with
  | None, None => true
  | Some x, Some y => Nat.eqb x y
  | _, _ => false
  end.

Section WithParser.

Variable URL_parse : string -> option URL.

(** ** Effects

    An effect reads the props [p] and the state [h] of its render; its
    setters and ref assignments act on the component [c]. *)

(** First effect, dependencies [[imageUrl]]. *)
Definition resetReportedEffect (c : Component) : Component :=
  setErrorReportedRef false c.

Definition timeoutDuration (normalized : option string) : Z :=
  if isLikelyTemporaryUrl URL_parse normalized then 20000 else 15000.

(** Second effect, dependencies [[imageUrl, isLoading, normalizedUrl,
    isImageLoaded, hasError, reportError]].  It returns its cleanup only
    when it runs to its end. *)
Definition validateEffect (p : Props) (h : Hooks) (c : Component)
  : Component :=
  if ((imageUrl p =? "")%string || (trim (imageUrl p) =? "")%string
      || isLoading p)%bool
  then setCleanupDue false (update (setNormalizedUrl None) c)
  else if negb (validateImageUrl URL_parse (Some (imageUrl p))) then
    setCleanupDue false
      (reportError (onError p) "invalid_url" "Invalid image URL format"
         (update (fun s => setErrorMessage (Some "Invalid image URL format")
                             (setErrorType (Some "invalid_url")
                                (setHasError true s))) c))
  else
    let normalized := normalizeImageUrl URL_parse (Some (imageUrl p)) in
    let c :=
      if negb (option_string_eqb normalized (normalizedUrl h)) then
        update (fun s =>
                  setUseFallbackImg false
                    (setLoadingTimeout false
                       (setRetryCount (fun _ => 0)
                          (setErrorMessage None
                             (setErrorType None
                                (setHasError false
                                   (setIsImageLoaded false
                                      (setNormalizedUrl normalized s)))))))) c
      else c in
    let c := clearTimeoutRef c in
    let c :=
      match normalized with
      | Some n =>
          if (n =? "")%string then c
          else
            setTimeoutRef
              (Some (mkTimer (timeoutDuration normalized) (isImageLoaded h)
                             (hasError h) (onError p) true)) c
      | None => c
      end in
    setCleanupDue true c.

(** Third effect, dependencies [[normalizedUrl, isImageLoaded, hasError,
    retryCount]]: starts [preloadImage] unless the guard returns. *)
Definition preloadEffect (h : Hooks) (c : Component) : Component :=
  match normalizedUrl h with
  | Some n =>
      if ((n =? "")%string || isImageLoaded h || hasError h
          || (maxRetries <=? retryCount h))%bool then c
      else
        setPreloads
          (preloads c
           ++ [mkPreload n
                 (if (isLikelyTemporaryUrl URL_parse (Some n)
                      && (retryCount h =? 0))%bool then 2000 else 0)]) c
  | None => c
  end.

(** ** Handlers *)

Definition handleImageLoad (c : Component) : Component :=
  clearTimeoutRef
    (update (fun s =>
               setLoadingTimeout false
                 (setErrorMessage None
                    (setErrorType None
                       (setHasError false (setIsImageLoaded true s))))) c).

(** [p] and [h] are the props and state of the render that created the
    handler; [src] is [event.target.src]. *)
Definition handleImageError (p : Props) (h : Hooks) (src : string)
                            (c : Component) : Component :=
  let errorDetails := getImageErrorDetails URL_parse src in
  if retryCount h <? maxRetries then
    let c := update (setRetryCount (fun prev => prev + 1)) c in
    if retryCount h =? 0 then update (setUseFallbackImg true) c else c
  else
    clearTimeoutRef
      (reportError (onError p) (type errorDetails) (message errorDetails)
         (update (fun s =>
                    setErrorMessage (Some (message errorDetails))
                      (setErrorType (Some (type errorDetails))
                         (setHasError true s))) c)).

(** The callback passed to [setTimeout] by the validation effect. *)
Definition timeoutCallback (t : Timer) (c : Component) : Component :=
  if (negb (sawLoaded t) && negb (sawError t))%bool then
    update (setUseFallbackImg true)
      (reportError (sawOnError t) "timeout"
         "Image is taking too long to load. It might still be processing."
         (update (setLoadingTimeout true) c))
  else c.

(** The [catch] of [preloadImage]. *)
Definition preloadFailed (c : Component) : Component :=
  update (setRetryCount (fun prev => prev + 1)) c.

(** ** What a render shows *)

Inductive View : Type :=
| LoadingSpinner
| TimeoutPanel
| ErrorPanel
| FallbackImg (src : string)
| NextImage (src : option string).

Definition render (p : Props) (h : Hooks) : View :=
  if isLoading p then LoadingSpinner
  else if (loadingTimeout h && negb (isImageLoaded h)
           && negb (hasError h))%bool then TimeoutPanel
  else if hasError h then ErrorPanel
  else
    match normalizedUrl h with
    | Some n =>
        if (useFallbackImg h && negb (n =? "")%string)%bool
        then FallbackImg n
        else NextImage (if (n =? "")%string then None else Some n)
    | None => NextImage None
    end.

(** The image element of a view, the only source of load and error
    events. *)
Definition imageShown (v : View) : bool :=
  match v with
  | FallbackImg _ | NextImage (Some _) => true
  | _ => false
  end.

(** ** Renders and events *)

Definition hooksDeps2Changed (p0 p : Props) (h0 h : Hooks) : bool :=
  negb ((imageUrl p0 =? imageUrl p)%string
        && Bool.eqb (isLoading p0) (isLoading p)
        && option_string_eqb (normalizedUrl h0) (normalizedUrl h)
        && Bool.eqb (isImageLoaded h0) (isImageLoaded h)
        && Bool.eqb (hasError h0) (hasError h)
        && option_nat_eqb (onError p0) (onError p))%bool.

Definition hooksDeps3Changed (h0 h : Hooks) : bool :=
  negb (option_string_eqb (normalizedUrl h0) (normalizedUrl h)
        && Bool.eqb (isImageLoaded h0) (isImageLoaded h)
        && Bool.eqb (hasError h0) (hasError h)
        && (retryCount h0 =? retryCount h))%bool.

(** A render with props [p] followed by its commit: the cleanup of the
    validation effect if that effect is due, then the due effects in
    the order of their declaration. *)
Definition renderAndCommit (p : Props) (c : Component) : Component :=
  let h := hooks c in
  let '(due1, due2, due3) :=
    match lastRender c with
    | None => (true, true, true)
    | Some (p0, h0) =>
        (negb (imageUrl p0 =? imageUrl p)%string,
         hooksDeps2Changed p0 p h0 h,
         hooksDeps3Changed h0 h)
    end in
  let c := if (due2 && cleanupDue c)%bool then clearTimeoutRef c else c in
  let c := if due1 then resetReportedEffect c else c in
  let c := if due2 then validateEffect p h c else c in
  let c := if due3 then preloadEffect h c else c in
  setLastRender (Some (p, h)) c.

Inductive Event : Type :=
| Render (p : Props)
| ImageLoads
| ImageErrors (src : string)
| TimeoutFires
| PreloadSettles (i : nat) (img : nat -> image_event).

Fixpoint remove_nth {A} (i : nat) (l : list A) : list A :=
  match i, l with
  | _, [] => []
  | O, _ :: l' => l'
  | S i', x :: l' => x :: remove_nth i' l'
  end.

Definition step (c : Component) (e : Event) : Component :=
  match e with
  | Render p => renderAndCommit p c
  | ImageLoads =>
      match lastRender c with
      | Some (p, h) =>
          if imageShown (render p h) then handleImageLoad c else c
      | None => c
      end
  | ImageErrors src =>
      match lastRender c with
      | Some (p, h) =>
          if imageShown (render p h) then handleImageError p h src c else c
      | None => c
      end
  | TimeoutFires =>
      match timeoutRef c with
      | Some t =>
          if live t then
            timeoutCallback t
              (setTimeoutRef
                 (Some (mkTimer (duration t) (sawLoaded t) (sawError t)
                                (sawOnError t) false)) c)
          else c
      | None => c
      end
  | PreloadSettles i img =>
      match nth_error (preloads c) i with
      | Some _ =>
          match outcome (loadImageWithRetry img 1 2000) with
          | Resolved => setPreloads (remove_nth i (preloads c)) c
          | Rejected _ =>
              preloadFailed (setPreloads (remove_nth i (preloads c)) c)
          | Pending => c
          end
      | None => c
      end
  end.

Definition run (c : Component) (events : list Event) : Component :=
  fold_left step events c.

End WithParser.

End AvatarImage.

(* ===================================================================== *)
(** * The tRPC procedures [generateAvatarDescription] and
      [generateAvatarImage] *)
(* ===================================================================== *)

Module Server.

Import JS Url.

Inductive TRPC_code : Type :=
| BAD_REQUEST
| UNAUTHORIZED
| FORBIDDEN
| TIMEOUT
| TOO_MANY_REQUESTS
| INTERNAL_SERVER_ERROR.

Definition code_name (c : TRPC_code) : string :=
  match c with
  | BAD_REQUEST => "BAD_REQUEST"
  | UNAUTHORIZED => "UNAUTHORIZED"
  | FORBIDDEN => "FORBIDDEN"
  | TIMEOUT => "TIMEOUT"
  | TOO_MANY_REQUESTS => "TOO_MANY_REQUESTS"
  | INTERNAL_SERVER_ERROR => "INTERNAL_SERVER_ERROR"
  end.

Record TRPCError : Type := mkTRPCError {
  code : TRPC_code;
  message : string
}.

(** A thrown value other than a [TRPCError]: an object of which the
    [catch] clauses read [message], [code] and [response.status], and
    test [instanceof Error]. *)
Record js_error : Type := mkJsError {
  instanceofError : bool;
  errMessage : option string;
  errCode : option string;
  responseStatus : option Z
}.

Inductive thrown : Type :=
| ThrowTRPC (e : TRPCError)
| ThrowOther (e : js_error).

Definition new_Error (msg : string) : js_error :=
  mkJsError true (Some msg) None None.

Definition thrown_message (t : thrown) : option string :=
  match t with
  | ThrowTRPC e => Some (message e)
  | ThrowOther e => errMessage e
  end.

Definition thrown_code (t : thrown) : option string :=
  match t with
  | ThrowTRPC e => Some (code_name (code e))
  | ThrowOther e => errCode e
  end.

(** [error.message && error.message.includes("timed out")] *)
Definition says_timed_out (t : thrown) : bool :=
  match thrown_message t with
  | Some m => (negb (m =? "")%string && includes m "timed out")%bool
  | None => false
  end.

(** [error.code === 'ECONNREFUSED' || error.code === 'ENOTFOUND' ||
    error.message?.includes('network')] *)
Definition is_network_error (t : thrown) : bool :=
  (match thrown_code t with
   | Some c => ((c =? "ECONNREFUSED") || (c =? "ENOTFOUND"))%string
   | None => false
   end
   || match thrown_message t with
      | Some m => includes m "network"
      | None => false
      end)%bool.

(** ** Asynchronous calls raced against a timer

    A remote call settles at some time (in milliseconds after it was
    made) or never.  [Promise.race] of the call and a timer that rejects
    after [ms] takes whichever settles first; a call settling at the very
    instant the timer fires is taken to lose. *)
Inductive settlement (A : Type) : Type :=
| Fulfills (at_ms : Z) (v : A)
| Rejects (at_ms : Z) (e : js_error)
| NeverSettles.

Arguments Fulfills {A}.
Arguments Rejects {A}.
Arguments NeverSettles {A}.

Definition race_with_timer {A} (call : settlement A) (ms : Z)
                           (timeoutMessage : string) : thrown + A :=
  match call with
  | Fulfills t v =>
      if t <? ms then inr v else inl (ThrowOther (new_Error timeoutMessage))
  | Rejects t e =>
      if t <? ms then inl (ThrowOther e)
      else inl (ThrowOther (new_Error timeoutMessage))
  | NeverSettles => inl (ThrowOther (new_Error timeoutMessage))
  end.

(** ** Input boundary *)

Fixpoint field (name : string) (fields : list (string * value)) : value :=
  match fields with
  | [] => Undefined
  | (k, v) :: rest => if (k =? name)%string then v else field name rest
  end.

(** [z.string()] *)
Definition z_string (v : value) : string + string :=
  match v with
  | Str s => inr s
  | Undefined => inl "Required"
  | _ => inl "Expected string"
  end.

(** [.min(n, message)] on a string schema. *)
Definition z_min (n : nat) (msg : string) (r : string + string)
  : string + string :=
  match r with
  | inr s => if Nat.leb n (String.length s) then inr s else inl msg
  | inl e => inl e
  end.

(** What a procedure call did: the remote requests it made, in order,
    and its result. *)
Record call_result (Req A : Type) : Type := mkCall {
  requests : list Req;
  result : TRPCError + A
}.

Arguments mkCall {Req A}.
Arguments requests {Req A}.
Arguments result {Req A}.

(** Modelled from the spec: [procedure] of [@/server/api/trpc] is not
    among the sources.  Its input boundary runs the schema on the raw
    input and, when the schema rejects, fails with a validation error
    ([BAD_REQUEST]) without running the mutation. *)
Definition procedure {I Req A} (schema : value -> string + I)
                     (mutation : I -> call_result Req A) (raw : value)
  : call_result Req A :=
  match schema raw with
  | inl issue => mkCall [] (inl (mkTRPCError BAD_REQUEST issue))
  | inr input => mutation input
  end.

(** ** [generateAvatarImage] *)

Record image_input : Type := mkImageInput { prompt : string }.

(** [z.object({ prompt: z.string() })] *)
Definition image_schema (raw : value) : string + image_input :=
  match raw with
  | Obj fields =>
      match z_string (field "prompt" fields) with
      | inr s => inr (mkImageInput s)
      | inl e => inl e
      end
  | _ => inl "Expected object"
  end.

Section WithParser.

Variable URL_parse : string -> option URL.

(** The shape check on the value [replicate.run] resolved with. *)
Definition check_output (output : value) : thrown + string :=
  match output with
  | Arr (imageUrl :: _) =>
      match imageUrl with
      | Str s =>
          if (s =? "")%string then
            inl (ThrowTRPC (mkTRPCError INTERNAL_SERVER_ERROR
                   "Received invalid image URL from generation service"))
          else
            match URL_parse s with
            | Some _ => inr s
            | None =>
                inl (ThrowTRPC (mkTRPCError INTERNAL_SERVER_ERROR
                       "Generated image URL is not properly formatted"))
            end
      | _ =>
          inl (ThrowTRPC (mkTRPCError INTERNAL_SERVER_ERROR
                 "Received invalid image URL from generation service"))
      end
  | _ =>
      inl (ThrowTRPC (mkTRPCError INTERNAL_SERVER_ERROR
             "Image generation succeeded but no output was returned"))
  end.

(** The [catch] clause of [generateAvatarImage]. *)
Definition image_catch (t : thrown) : TRPCError :=
  match t with
  | ThrowTRPC e => e
  | ThrowOther e =>
      if says_timed_out t then
        mkTRPCError TIMEOUT
          "Image generation timed out. Please try again later."
      else if is_network_error t then
        mkTRPCError INTERNAL_SERVER_ERROR
          "Could not connect to image generation service. Please check your internet connection and try again."
      else
        let fallback :=
          mkTRPCError INTERNAL_SERVER_ERROR
            (if instanceofError e
             then "Error during image generation: "
                  ++ match errMessage e with
                     | Some m => m
                     | None => "undefined"
                     end
             else "Unknown error occurred during image generation") in
        match responseStatus e with
        | Some status =>
            if status =? 0 then fallback
            else if status =? 401 then
              mkTRPCError UNAUTHORIZED
                "Failed to authenticate with image generation service. Please check your API credentials."
            else if status =? 402 then
              mkTRPCError FORBIDDEN
                "Image generation service requires payment. Please check your account status."
            else if status =? 429 then
              mkTRPCError TOO_MANY_REQUESTS
                "Image generation rate limit exceeded. Please try again in a few minutes."
            else if 500 <=? status then
              mkTRPCError INTERNAL_SERVER_ERROR
                "Image generation service is currently experiencing issues. Please try again later."
            else fallback
        | None => fallback
        end
  end.

(** The mutation: [token] is [env.REPLICATE_API_TOKEN] and [run] what
    [replicate.run] does with a prompt.  The requests recorded are the
    prompts passed to [replicate.run]. *)
Definition generateAvatarImage_mutation
    (token : option string) (run : string -> settlement value)
    (input : image_input) : call_result string string :=
  let configured :=
    match token with
    | Some t => negb (t =? "")%string
    | None => false
    end in
  if negb configured then
    mkCall []
      (inl (image_catch
              (ThrowTRPC (mkTRPCError INTERNAL_SERVER_ERROR
                 "Image generation service is not properly configured"))))
  else
    mkCall [prompt input]
      match race_with_timer (run (prompt input)) 60000
              "Replicate API call timed out after 60 seconds" with
      | inl t => inl (image_catch t)
      | inr output =>
          match check_output output with
          | inl t => inl (image_catch t)
          | inr imageUrl => inr imageUrl
          end
      end.

Definition generateAvatarImage
    (token : option string) (run : string -> settlement value)
  : value -> call_result string string :=
  procedure image_schema (generateAvatarImage_mutation token run).

End WithParser.

(** ** [generateAvatarDescription] *)

Record description_input : Type := mkDescriptionInput {
  description : string;
  gameStyle : string
}.

(** [z.object({ description: z.string().min(1, ...),
                gameStyle: z.string().min(1, ...) })] *)
Definition description_schema (raw : value) : string + description_input :=
  match raw with
  | Obj fields =>
      match z_min 1 "Description is required"
                  (z_string (field "description" fields)) with
      | inl e => inl e
      | inr d =>
          match z_min 1 "Game style is required"
                      (z_string (field "gameStyle" fields)) with
          | inl e => inl e
          | inr g => inr (mkDescriptionInput d g)
          end
      end
  | _ => inl "Expected object"
  end.

(** A [fetch] response: [text] is what [response.text()] settles with
    and [json] what [response.json()] settles with, [inl] when the read
    rejects.  Both reads settle: the timer guards the request alone, so
    a response whose body read never settled would leave the call
    pending, and such a response is not among these. *)
Record Response : Type := mkResponse {
  status : Z;
  text : js_error + string;
  json : js_error + value
}.

Definition ok (r : Response) : bool :=
  ((200 <=? status r) && (status r <=? 299))%bool.

Definition newline : string := String (ascii_of_nat 10) "".
Definition dquote : string := String (ascii_of_nat 34) "".

Definition description_prompt (input : description_input) : string :=
  newline
  ++ "Create a prompt for generating an avatar in the style of "
  ++ gameStyle input ++ " based on this user description: "
  ++ description input
  ++ ". Just return the final prompt itself with no other text."
  ++ newline ++ newline
  ++ "Template: " ++ dquote ++ "Create a detailed " ++ gameStyle input
  ++ "-style avatar based on this description: " ++ description input
  ++ ". The character should have [specific features based on the description]. The art style should match "
  ++ gameStyle input
  ++ " with [appropriate style-specific guidance]. Include details about clothing, accessories, pose, expression, and background elements that would be appropriate for this game world."
  ++ dquote ++ newline ++ newline
  ++ "Make sure the prompt is specific, detailed, and tailored to the game style while incorporating elements from the user's personal description. Focus on visual elements that can be represented in an image.".

(** Property and index access; [None] is the [TypeError] of reading a
    property of [undefined] or [null]. *)
Definition get_prop (v : value) (name : string) : option value :=
  match v with
  | Undefined | Null => None
  | Obj fields => Some (field name fields)
  | _ => Some Undefined
  end.

Definition get_index0 (v : value) : option value :=
  match v with
  | Undefined | Null => None
  | Arr (x :: _) => Some x
  | Str (String c _) => Some (Str (String c ""))
  | Obj fields => Some (field "0" fields)
  | _ => Some Undefined
  end.

(** Optional chaining: [v?.name] and [v?.[0]]. *)
Definition get_prop_opt (v : value) (name : string) : value :=
  match get_prop v name with
  | Some x => x
  | None => Undefined
  end.

Definition get_index0_opt (v : value) : value :=
  match get_index0 v with
  | Some x => x
  | None => Undefined
  end.

(** The part of the [try] block that follows the race.  On a response
    that is not [ok] the body is read first ([await response.text()],
    for the log); a read that rejects throws before the status is
    looked at. *)
Definition handle_response (response : Response) : thrown + value :=
  if negb (ok response) then
    match text response with
    | inl e => inl (ThrowOther e)
    | inr errorText =>
        if status response =? 401 then
          inl (ThrowTRPC (mkTRPCError UNAUTHORIZED
                 "Authentication failed with the AI service"))
        else if status response =? 402 then
          inl (ThrowTRPC (mkTRPCError FORBIDDEN
                 "AI service requires payment. Please check your account status."))
        else if status response =? 429 then
          inl (ThrowTRPC (mkTRPCError TOO_MANY_REQUESTS
                 "Rate limit exceeded for the AI service. Please try again later."))
        else if 500 <=? status response then
          inl (ThrowTRPC (mkTRPCError INTERNAL_SERVER_ERROR
                 "The AI service is currently experiencing issues. Please try again later."))
        else
          inl (ThrowTRPC (mkTRPCError INTERNAL_SERVER_ERROR
                 ("AI service error: " ++ decimal (status response))))
    end
  else
    match json response with
    | inl e => inl (ThrowOther e)
    | inr result =>
        match get_prop result "content" with
        | None =>
            inl (ThrowOther
                   (new_Error
                      ("Cannot read properties of "
                       ++ match result with
                          | Null => "null"
                          | _ => "undefined"
                          end
                       ++ " (reading 'content')")))
        | Some content =>
            let text := get_prop_opt (get_index0_opt content) "text" in
            if negb (truthy text) then
              inl (ThrowTRPC (mkTRPCError INTERNAL_SERVER_ERROR
                     "Invalid response from AI service"))
            else inr text
        end
    end.

(** The [catch] clause of [generateAvatarDescription].  A [TRPCError]
    built without a message takes its code as message. *)
Definition description_catch (t : thrown) : TRPCError :=
  if says_timed_out t then
    mkTRPCError TIMEOUT
      "AI service request timed out. Please try again later."
  else if is_network_error t then
    mkTRPCError INTERNAL_SERVER_ERROR
      "Could not connect to AI service. Please check your internet connection and try again."
  else
    match t with
    | ThrowTRPC e => e
    | ThrowOther e =>
        mkTRPCError INTERNAL_SERVER_ERROR
          (if instanceofError e
           then match errMessage e with
                | Some m => m
                | None => code_name INTERNAL_SERVER_ERROR
                end
           else "Unknown error occurred")
    end.

(** The mutation: [fetch] is what the request with a given prompt does.
    The requests recorded are the prompts sent. *)
Definition generateAvatarDescription_mutation
    (fetch : string -> settlement Response) (input : description_input)
  : call_result string value :=
  let prompt := description_prompt input in
  mkCall [prompt]
    match race_with_timer (fetch prompt) 30000
            "Anthropic API call timed out after 30 seconds" with
    | inl t => inl (description_catch t)
    | inr response =>
        match handle_response response with
        | inl t => inl (description_catch t)
        | inr text => inr text
        end
    end.

Definition generateAvatarDescription (fetch : string -> settlement Response)
  : value -> call_result string value :=
  procedure description_schema (generateAvatarDescription_mutation fetch).

End Server.

(* ===================================================================== *)
(** * Notions used to state the properties *)
(* ===================================================================== *)

Module Notions.

Import JS Url ImageUtils AvatarImage Server.

(** The parser reads back what the serializer wrote for [u]. *)
Definition reads_back (URL_parse : string -> option URL) (u : URL) : Prop :=
  URL_parse (toString u) = Some u.

(** [s] ends with [suffix]. *)
Fixpoint ends_with (s suffix : string) : bool :=
  (s =? suffix)%string
  || match s with
     | EmptyString => false
     | String _ s' => ends_with s' suffix
     end.

(** Written from the specification's words, "the host matches the known
    expiring-delivery domain": the host is [replicate.delivery] or one
    of its subdomains. *)
Definition in_delivery_domain (host : string) : bool :=
  ((host =? "replicate.delivery")%string
   || ends_with host ".replicate.delivery")%bool.

(** The URL of the last render, if the component is mounted. *)
Definition renderedUrl (c : Component) : option string :=
  match lastRender c with
  | Some (p, _) => Some (imageUrl p)
  | None => None
  end.

(** The event leaves the [imageUrl] prop at [u]. *)
Definition keepsUrl (u : string) (e : Event) : bool :=
  match e with
  | Render p => (imageUrl p =? u)%string
  | _ => true
  end.

(** From [c] to [c'] the parent's callback was called at most once, and
    only through the guard of [reportError]: either nothing was reported
    and the flag is as it was, or the flag went from unset to set and
    one call was recorded. *)
Definition reportedAtMostOnce (c c' : Component) : Prop :=
  (errorReportedRef c' = errorReportedRef c
   /\ onErrorCalls c' = onErrorCalls c)
  \/ (errorReportedRef c = false /\ errorReportedRef c' = true
      /\ exists call, onErrorCalls c' = (onErrorCalls c ++ [call])%list).

(** The delay passed to [setTimeout] in front of retry number [i + 1]:
    [initialDelay] itself for the first retry, then what [i] doublings
    in double arithmetic make of it, the product or an infinity once its
    magnitude reaches [2 ^ 1024]. *)
Definition doubled (initialDelay : Z) (i : nat) : number :=
  match i with
  | O => Finite initialDelay
  | S _ =>
      if Z.abs (initialDelay * 2 ^ Z.of_nat i) <? double_limit
      then Finite (initialDelay * 2 ^ Z.of_nat i)
      else Infinity (initialDelay <? 0)
  end.

(** [env.REPLICATE_API_TOKEN] is set. *)
Definition configured (token : option string) : bool :=
  match token with
  | Some t => negb (t =? "")%string
  | None => false
  end.

(** The call settles before [ms] milliseconds have passed. *)
Definition settles_before {A} (call : settlement A) (ms : Z) : bool :=
  match call with
  | Fulfills t _ | Rejects t _ => t <? ms
  | NeverSettles => false
  end.

(** The errors of the taxonomy, as the two wrappers build them. *)
Definition image_no_output : TRPCError :=
  mkTRPCError INTERNAL_SERVER_ERROR
    "Image generation succeeded but no output was returned".

Definition image_unauthorized : TRPCError :=
  mkTRPCError UNAUTHORIZED
    "Failed to authenticate with image generation service. Please check your API credentials.".

Definition image_payment_required : TRPCError :=
  mkTRPCError FORBIDDEN
    "Image generation service requires payment. Please check your account status.".

Definition image_rate_limited : TRPCError :=
  mkTRPCError TOO_MANY_REQUESTS
    "Image generation rate limit exceeded. Please try again in a few minutes.".

Definition image_unavailable : TRPCError :=
  mkTRPCError INTERNAL_SERVER_ERROR
    "Image generation service is currently experiencing issues. Please try again later.".

Definition image_timeout : TRPCError :=
  mkTRPCError TIMEOUT "Image generation timed out. Please try again later.".

Definition description_unauthorized : TRPCError :=
  mkTRPCError UNAUTHORIZED "Authentication failed with the AI service".

Definition description_payment_required : TRPCError :=
  mkTRPCError FORBIDDEN
    "AI service requires payment. Please check your account status.".

Definition description_rate_limited : TRPCError :=
  mkTRPCError TOO_MANY_REQUESTS
    "Rate limit exceeded for the AI service. Please try again later.".

Definition description_unavailable : TRPCError :=
  mkTRPCError INTERNAL_SERVER_ERROR
    "The AI service is currently experiencing issues. Please try again later.".

Definition description_timeout : TRPCError :=
  mkTRPCError TIMEOUT "AI service request timed out. Please try again later.".

Definition image_network_error : TRPCError :=
  mkTRPCError INTERNAL_SERVER_ERROR
    "Could not connect to image generation service. Please check your internet connection and try again.".

Definition description_network_error : TRPCError :=
  mkTRPCError INTERNAL_SERVER_ERROR
    "Could not connect to AI service. Please check your internet connection and try again.".

(** The status-dependent result of either wrapper, given its four
    errors; [None] where the taxonomy names no kind. *)
Definition by_status (unauthorized payment limited unavailable : TRPCError)
                     (status : Z) : option TRPCError :=
  if status =? 401 then Some unauthorized
  else if status =? 402 then Some payment
  else if status =? 429 then Some limited
  else if 500 <=? status then Some unavailable
  else None.

End Notions.

(* ===================================================================== *)
(** * Concrete inputs for the scenarios *)
(* ===================================================================== *)

Module Scenario.

Import JS Url ImageUtils AvatarImage Server.

Definition replicate_url : string := "https://fake.replicate.delivery/abc.png".

Definition plain_http_url : string := "http://Example.COM:443/a/../b.png?size=1 2".

Definition props : Props := mkProps replicate_url false (Some 0%nat).

(** A URL that fails validation: its scheme is not [https]. *)
Definition insecure_props : Props :=
  mkProps "http://images.example.com/a.png" false (Some 0%nat).

(** The image of the scenario fails twice, with the re-render that
    follows each change of state. *)
Definition two_failures : list Event :=
  [Render props; Render props;
   ImageErrors replicate_url; Render props;
   ImageErrors replicate_url; Render props].

Definition always_fails : nat -> image_event := fun _ => OnError.

Definition loads_on_second_attempt : nat -> image_event :=
  fun n => if Nat.eqb n 1 then OnLoad else OnError.

(** A broken image: the component mounts and re-renders, the [Image]
    fails, the fallback [img] fails, then the preload started at mount
    gives up. *)
Definition broken_image_trace : list Event :=
  [Render props; Render props;
   ImageErrors replicate_url; Render props;
   ImageErrors replicate_url; Render props;
   PreloadSettles 0 always_fails].

Definition token : option string := Some "r8_token".

Definition knight : value := Obj [("prompt", Str "a pixel-art knight")].

Definition empty_prompt : value := Obj [("prompt", Str "")].

Definition describe_me : value :=
  Obj [("description", Str "I am a calm, creative problem solver who loves nature");
       ("gameStyle", Str "Pixel Art style from Minecraft")].

Definition run_returns (output : value) : string -> settlement value :=
  fun _ => Fulfills 4200 output.

Definition run_rejects (e : js_error) : string -> settlement value :=
  fun _ => Rejects 800 e.

(** The error [replicate.run] rejects with when the API answers with
    HTTP [status] and body [body]. *)
Definition api_error (status : Z) (body : string) : js_error :=
  mkJsError true
    (Some ("Request to https://api.replicate.com/v1/models/black-forest-labs/flux-schnell/predictions failed with status "
           ++ decimal status ++ ": " ++ body))
    None (Some status).

Definition fetch_returns (status : Z) : string -> settlement Response :=
  fun _ => Fulfills 650 (mkResponse status (inr "{}") (inr (Obj []))).

(** A response whose body cannot be read: the stream fails with
    [message]. *)
Definition unreadable (status : Z) (message : string) : Response :=
  mkResponse status (inl (new_Error message)) (inl (new_Error message)).

End Scenario.

(* ===================================================================== *)
(** * [isImageAccessible] ([src/lib/client/imageUtils.ts]) *)
(* ===================================================================== *)

Module ImageAccess.

Import JS.

(** What the function reads of the response to its [HEAD] request. *)
Record HeadResponse : Type := mkHead {
  headStatus : Z;
  contentType : option string
}.

(** What a call did: the URLs it requested and its answer. *)
Record access : Type := mkAccess {
  requested : list string;
  accessible : bool
}.

(** [fetch] is what the [HEAD] request to a URL does: [None] when it
    throws or rejects.  [contentType] is
    [response.headers.get('content-type')]. *)
Definition isImageAccessible (fetch : string -> option HeadResponse)
                             (url : option string) : access :=
  match url with
  | None => mkAccess [] false
  | Some s =>
      if (s =? "")%string then mkAccess [] false
      else
        mkAccess [s]
          match fetch s with
          | Some response =>
              if negb ((200 <=? headStatus response)
                       && (headStatus response <=? 299))%bool then false
              else
                match contentType response with
                | Some ct =>
                    if (negb (ct =? "")%string
                        && negb (String.prefix "image/" ct))%bool
                    then false else true
                | None => true
                end
          | None => false
          end
  end.

End ImageAccess.

(* ===================================================================== *)
(** * The [AvatarResultDisplay] component *)
(* ===================================================================== *)

Module ResultDisplay.

Import JS Url ImageUtils.

Record DisplayProps : Type := mkDisplayProps {
  imageUrl : option string;
  isLoading : bool;
  error : option string;
  gameStyle : option string
}.

(** The five [useState] cells, the pending timer of
    [handleRetryImageLoad] (with the [imageUrl] its callback closes
    over) and the toasts shown. *)
Record Display : Type := mkDisplay {
  validatedImageUrl : option string;
  imageValidationError : option string;
  isTemporaryUrl : bool;
  imageLoadError : option (string * string);
  retryCounter : Z;
  retryTimers : list (option string);
  toasts : list string
}.

Definition initialDisplay : Display :=
  mkDisplay None None false None 0 [] [].

Definition truthy_string (s : option string) : bool :=
  match s with
  | Some x => negb (x =? "")%string
  | None => false
  end.

Section WithParser.

Variable URL_parse : string -> option URL.

(** The effect with dependencies [[imageUrl, isLoading]]. *)
Definition validationEffect (p : DisplayProps) (d : Display) : Display :=
  let reset :=
    mkDisplay None None false None (retryCounter d) (retryTimers d)
              (toasts d) in
  if (negb (truthy_string (imageUrl p)) || isLoading p)%bool then reset
  else if negb (validateImageUrl URL_parse (imageUrl p)) then
    mkDisplay None (Some "The generated image URL is not properly formatted")
              false None (retryCounter d) (retryTimers d) (toasts d)
  else
    let normalized := normalizeImageUrl URL_parse (imageUrl p) in
    mkDisplay normalized None
              (truthy_string normalized
               && isLikelyTemporaryUrl URL_parse normalized)%bool
              None (retryCounter d) (retryTimers d) (toasts d).

(** [handleImageLoadError], the [onError] passed to [AvatarImage]. *)
Definition handleImageLoadError (errorType errorMessage : string)
                                (d : Display) : Display :=
  mkDisplay (validatedImageUrl d) (imageValidationError d)
            (isTemporaryUrl d) (Some (errorType, errorMessage))
            (retryCounter d) (retryTimers d)
            (toasts d
             ++ [if (errorType =? "replicate_delivery_error")%string
                 then "The image is no longer available. Please regenerate it."
                 else "Failed to load image. Please try again."]).

(** [handleRetryImageLoad], created by a render with props [p]. *)
Definition handleRetryImageLoad (p : DisplayProps) (d : Display) : Display :=
  mkDisplay None (imageValidationError d) (isTemporaryUrl d) None
            (retryCounter d + 1) (retryTimers d ++ [imageUrl p]) (toasts d).

(** The callback of the 100 ms timer set by [handleRetryImageLoad]. *)
Definition retryTimerFires (d : Display) : Display :=
  match retryTimers d with
  | [] => d
  | url :: rest =>
      mkDisplay (if truthy_string url then normalizeImageUrl URL_parse url
                 else validatedImageUrl d)
                (imageValidationError d) (isTemporaryUrl d)
                (imageLoadError d) (retryCounter d) rest (toasts d)
  end.

End WithParser.

(** The props handed to [AvatarImage]; its [key] is [retryCounter]. *)
Definition childProps (p : DisplayProps) (d : Display) : AvatarImage.Props :=
  AvatarImage.mkProps
    (match validatedImageUrl d with
     | Some s => s
     | None => ""
     end)
    (isLoading p) (Some 0%nat).

(** The note on temporary images is shown. *)
Definition temporaryNoteShown (p : DisplayProps) (d : Display) : bool :=
  (isTemporaryUrl d && truthy_string (validatedImageUrl d)
   && negb (isLoading p)
   && match imageLoadError d with Some _ => false | None => true end)%bool.

End ResultDisplay.

(* ===================================================================== *)
(** * [useAvatarDescription] ([src/lib/client/avatarClient.ts]) *)
(* ===================================================================== *)

Module Client.

Import JS Server.

(** [generateDescription]: [mutateAsync] is what the tRPC mutation does
    with the two strings, resolving with a value or rejecting with an
    error.  The result is the returned description or the error
    thrown. *)
Definition generateDescription
    (mutateAsync : string -> string -> js_error + value)
    (userDescription gameStyle : string) : js_error + value :=
  let wrap (e : js_error) : js_error :=
    new_Error ("Failed to generate avatar description: "
               ++ if instanceofError e
                  then match errMessage e with
                       | Some m => m
                       | None => "undefined"
                       end
                  else "Unknown error") in
  match mutateAsync userDescription gameStyle with
  | inl e => inl (wrap e)
  | inr result =>
      match get_prop result "description" with
      | None =>
          inl (wrap (new_Error
                       ("Cannot read properties of "
                        ++ match result with
                           | Null => "null"
                           | _ => "undefined"
                           end
                        ++ " (reading 'description')")))
      | Some description =>
          if negb (truthy description)
          then inl (wrap (new_Error
                            "Received invalid response structure from API"))
          else inr description
      end
  end.

End Client.

(* ===================================================================== *)
(** * The [AvatarPromptForm] component *)
(* ===================================================================== *)

Module Form.

Import JS Server.

Definition ART_STYLES : list (string * string) :=
  [("pixel-art", "Pixel Art"); ("realistic", "Realistic");
   ("cartoonish", "Cartoonish"); ("anime", "Anime")].

Record FormValues : Type := mkFormValues {
  description : string;
  artStyle : string;
  gameName : string
}.

(** [formSchema]: the issues it raises, as field and message; the form
    submits when there are none. *)
Definition formSchema (v : FormValues) : list (string * string) :=
  ((if Nat.ltb (String.length (description v)) 20
    then [("description", "Description should be at least 20 characters")]
    else [])
   ++ (if Nat.ltb 500 (String.length (description v))
       then [("description", "Description should not exceed 500 characters")]
       else [])
   ++ (if Nat.ltb (String.length (artStyle v)) 1
       then [("artStyle", "Please select an art style")] else [])
   ++ (if Nat.ltb (String.length (gameName v)) 1
       then [("gameName", "Game name is required")] else []))%list.

Definition getCharCountColorClass (characterCount : nat) : string :=
  if Nat.leb 400 characterCount then "text-orange-500"
  else if Nat.leb 450 characterCount then "text-red-500"
  else "text-gray-500".

Fixpoint find_style (value : string) (styles : list (string * string))
  : option string :=
  match styles with
  | [] => None
  | (v, label) :: rest =>
      if (v =? value)%string then Some label else find_style value rest
  end.

(** [ART_STYLES.find(style => style.value === data.artStyle)?.label
     || data.artStyle] *)
Definition finalArtStyle (data : FormValues) : string :=
  match find_style (artStyle data) ART_STYLES with
  | Some label => if (label =? "")%string then artStyle data else label
  | None => artStyle data
  end.

Definition styleContext (data : FormValues) : string :=
  finalArtStyle data ++ " style from " ++ gameName data.

Definition imagePrompt (avatarDescription : string) (data : FormValues)
  : string :=
  avatarDescription ++ newline ++ newline
  ++ "Style Guidelines:" ++ newline
  ++ "- Use a " ++ finalArtStyle data ++ " art style inspired by "
  ++ gameName data ++ newline
  ++ "- Use colors and design elements appropriate for the art style"
  ++ newline
  ++ "- Include subtle shading and highlights" ++ newline
  ++ "- Keep the design cohesive and recognizable".

Definition displayStyle (data : FormValues) : string :=
  finalArtStyle data ++ " (" ++ gameName data ++ ")".

(** What a submission leaves behind: the two state cells, the calls of
    [onStartImageGeneration], the requests for a description, and the
    toasts (success or error, with their text). *)
Record submission : Type := mkSubmission {
  errorMessage : option string;
  isGenerating : bool;
  started : list (string * string);
  described : list (string * string);
  toasts : list (bool * string)
}.

(** [onSubmit]: [generateDescription] is the function of
    [useAvatarDescription], which resolves with a string or throws. *)
Definition onSubmit (generateDescription : string -> string -> js_error + string)
                    (data : FormValues) : submission :=
  let request := (description data, styleContext data) in
  match generateDescription (description data) (styleContext data) with
  | inr avatarDescription =>
      mkSubmission None false
        [(imagePrompt avatarDescription data, displayStyle data)]
        [request]
        [(true, "Creating your " ++ finalArtStyle data ++ " avatar...")]
  | inl claudeError =>
      let errorMsg :=
        "Claude API error: "
        ++ (if instanceofError claudeError
            then match errMessage claudeError with
                 | Some m => m
                 | None => "undefined"
                 end
            else "Unknown error") in
      mkSubmission (Some errorMsg) false [] [request]
        [(false, "Failed to generate avatar: " ++ errorMsg)]
  end.

(** [handleSubmit(onSubmit)]: the resolver runs [formSchema] and
    [onSubmit] is called only when it raises no issue. *)
Definition handleSubmit (generateDescription : string -> string -> js_error + string)
                        (data : FormValues) : option submission :=
  match formSchema data with
  | [] => Some (onSubmit generateDescription data)
  | _ :: _ => None
  end.

End Form.

(* ===================================================================== *)
(** * The [Home] page ([src/app/page.tsx]) *)
(* ===================================================================== *)

Module Home.

(** The five [useState] cells and the prompts passed to
    [generateAvatarImageMutation.mutate], in order. *)
Record Page : Type := mkPage {
  internalPrompt : option string;
  gameStyle : option string;
  imageUrl : option string;
  imageError : option string;
  showResultSection : bool;
  mutations : list string
}.

Definition initialPage : Page := mkPage None None None None false [].

Definition handleStartImageGeneration (prompt style : string) (h : Page)
  : Page :=
  mkPage (Some prompt) (Some style) (imageUrl h) None true
         (mutations h ++ [prompt]).

Definition handleRegenerateImage (h : Page) : Page :=
  match internalPrompt h with
  | Some prompt =>
      if (prompt =? "")%string then h
      else mkPage (internalPrompt h) (gameStyle h) (imageUrl h) None
                  (showResultSection h) (mutations h ++ [prompt])
  | None => h
  end.

Definition handleReset (h : Page) : Page :=
  mkPage None None None None false (mutations h).

(** The mutation's [onSuccess] and [onError] callbacks. *)
Definition onSuccess (url : string) (h : Page) : Page :=
  mkPage (internalPrompt h) (gameStyle h) (Some url) (imageError h)
         (showResultSection h) (mutations h).

Definition onError (message : string) (h : Page) : Page :=
  mkPage (internalPrompt h) (gameStyle h) (imageUrl h) (Some message)
         (showResultSection h) (mutations h).

Inductive PageEvent : Type :=
| Start (prompt style : string)
| Regenerate
| Reset
| Succeeds (url : string)
| Fails (message : string).

Definition pageStep (h : Page) (e : PageEvent) : Page :=
  match e with
  | Start prompt style => handleStartImageGeneration prompt style h
  | Regenerate => handleRegenerateImage h
  | Reset => handleReset h
  | Succeeds url => onSuccess url h
  | Fails message => onError message h
  end.

Definition pageRun (h : Page) (events : list PageEvent) : Page :=
  fold_left pageStep events h.

(** The prompts handed over by the form in a list of events. *)
Fixpoint startedPrompts (events : list PageEvent) : list string :=
  match events with
  | [] => []
  | Start prompt _ :: rest => prompt :: startedPrompts rest
  | _ :: rest => startedPrompts rest
  end.

End Home.

(* ===================================================================== *)
(** * Further notions used to state the properties *)
(* ===================================================================== *)

Module MoreNotions.

Import JS Url ImageUtils AvatarImage Server.

(** The timer in [timeoutRef] is pending and its callback would act:
    its render saw the image neither loaded nor failed. *)
Definition timerArmed (c : Component) : bool :=
  match timeoutRef c with
  | Some t => (live t && negb (sawLoaded t) && negb (sawError t))%bool
  | None => false
  end.

(** A timer is pending. *)
Definition live_timer_pending (c : Component) : bool :=
  match timeoutRef c with
  | Some t => live t
  | None => false
  end.

(** Whenever the pending timer would act, the image is neither loaded
    nor failed, and the validation effect owes its cleanup. *)
Definition timerSafe (c : Component) : Prop :=
  timerArmed c = true ->
  isImageLoaded (hooks c) = false /\ hasError (hooks c) = false
  /\ cleanupDue c = true.

(** The timeout panel is on screen and the state calls for it: the last
    render, with props [p], returned the panel, and a render with the
    same props now would return it again. *)
Definition panelShown (p : Props) (c : Component) : Prop :=
  exists h,
    lastRender c = Some (p, h)
    /\ render p h = TimeoutPanel
    /\ render p (hooks c) = TimeoutPanel.

(** What the validation effect has established in the state [s] for the
    props [p]: no normalized URL while the URL is blank or loading, an
    error (which only a load, marking the image loaded, takes back) for
    a URL that fails validation, and the normalization of the URL
    otherwise. *)
Definition settledFor (URL_parse : string -> option URL) (p : Props)
                      (s : Hooks) : Prop :=
  if ((imageUrl p =? "")%string || (trim (imageUrl p) =? "")%string
      || isLoading p)%bool
  then normalizedUrl s = None
  else if negb (validateImageUrl URL_parse (Some (imageUrl p)))
  then hasError s = true \/ isImageLoaded s = true
  else normalizedUrl s = normalizeImageUrl URL_parse (Some (imageUrl p)).

(** The state is settled for the props of the last render. *)
Definition validated (URL_parse : string -> option URL) (c : Component)
  : Prop :=
  match lastRender c with
  | Some (p, _) => settledFor URL_parse p (hooks c)
  | None => True
  end.

(** The event is a render with props [p], or no render at all. *)
Definition keepsProps (p : Props) (e : Event) : Prop :=
  match e with
  | Render q => q = p
  | _ => True
  end.

End MoreNotions.

(* ===================================================================== *)
(** * More concrete inputs *)
(* ===================================================================== *)

Module MoreScenario.

Import JS Server.

(** The error of a refused connection. *)
Definition refused : js_error :=
  mkJsError true (Some "connect ECONNREFUSED 127.0.0.1:443")
            (Some "ECONNREFUSED") None.

(** The form of the specification's scenario. *)
Definition form_data : Form.FormValues :=
  Form.mkFormValues "I am a calm, creative problem solver who loves nature"
                    "pixel-art" "Minecraft".

Definition describes : string -> string -> js_error + string :=
  fun _ _ => inr "A calm explorer in a blocky forest".

(** The image of the scenario while its generation is in progress. *)
Definition loading_props : AvatarImage.Props :=
  AvatarImage.mkProps Scenario.replicate_url true (Some 0%nat).

Definition display_props : ResultDisplay.DisplayProps :=
  ResultDisplay.mkDisplayProps (Some Scenario.replicate_url) false None
                               (Some "Pixel Art (Minecraft)").

End MoreScenario.

(* ===================================================================== *)
(** * Properties *)
(* ===================================================================== *)

Import JS Url ImageUtils AvatarImage Server Notions.

(** ** Facts about the URL class *)

Lemma append_colon_nonempty (a b : string) :
  ((a ++ String ":" b) =? "")%string = false.
Proof. destruct a; reflexivity. Qed.

Lemma toString_nonempty (u : URL) : (toString u =? "")%string = false.
Proof. unfold toString. apply append_colon_nonempty. Qed.

Lemma append_colon_inj (a b : string) :
  (a ++ ":" = b ++ ":")%string -> a = b.
Proof.
  revert b. induction a as [|x a IH]; intros [|y b] H; simpl in H.
  - reflexivity.
  - injection H as _ H. destruct b; discriminate.
  - injection H as _ H. destruct a; discriminate.
  - injection H as -> H. f_equal. apply IH. exact H.
Qed.

Lemma protocol_https (u : URL) :
  (protocol u =? "https:")%string = true <-> scheme u = "https".
Proof.
  unfold protocol. rewrite String.eqb_eq. split.
  - intros H. apply append_colon_inj. exact H.
  - intros ->. reflexivity.
Qed.

(** Assigning ['https:'] either leaves the URL as it is or gives it the
    scheme [https]. *)
Lemma set_protocol_https_cases (u : URL) :
  set_protocol u "https:" = u \/ scheme (set_protocol u "https:") = "https".
Proof.
  unfold set_protocol.
  change (scheme_start_state ("https:" ++ ":")) with (Some ("https", ":")).
  cbv iota beta.
  destruct (xorb _ _); [now left|].
  destruct (andb _ ("https" =? "file")%string); [now left|].
  destruct (andb _ _); [now left|].
  right. reflexivity.
Qed.

(** The assignment takes effect on special schemes, except a [file] URL
    with an empty host, and is ignored on the others. *)
Lemma set_protocol_https_special (u : URL) :
  is_special (scheme u) = true ->
  ((scheme u =? "file")%string
   && match host u with Some h => (h =? "")%string | None => false end)%bool
  = false ->
  scheme (set_protocol u "https:") = "https".
Proof.
  intros Hs Hf. unfold set_protocol.
  change (scheme_start_state ("https:" ++ ":")) with (Some ("https", ":")).
  cbv iota beta. rewrite Hs.
  change (is_special "https") with true. cbn [xorb].
  change ("https" =? "file")%string with false.
  rewrite Bool.andb_false_r, Hf. reflexivity.
Qed.

Lemma set_protocol_https_non_special (u : URL) :
  is_special (scheme u) = false -> set_protocol u "https:" = u.
Proof.
  intros Hs. unfold set_protocol.
  change (scheme_start_state ("https:" ++ ":")) with (Some ("https", ":")).
  cbv iota beta. rewrite Hs. reflexivity.
Qed.

Lemma ensure_https_idempotent (u : URL) :
  ensure_https (ensure_https u) = ensure_https u.
Proof.
  unfold ensure_https at 2 3.
  destruct (protocol u =? "https:")%string eqn:E; cbn [negb].
  - unfold ensure_https. rewrite E. reflexivity.
  - destruct (set_protocol_https_cases u) as [H | H].
    + rewrite H. unfold ensure_https. rewrite E. cbn [negb]. exact H.
    + unfold ensure_https.
      apply protocol_https in H. rewrite H. reflexivity.
Qed.

(** ** [validateImageUrl] *)

(** C8.  [validateImageUrl] answers [true] exactly on a non-empty string
    that parses as a URL whose protocol is ['https:']: it answers [false]
    on [null], [undefined], the empty string, an unparsable string and a
    URL of another scheme, and [true] on every HTTPS URL, whatever its
    host. *)
Theorem validateImageUrl_spec
    (URL_parse : string -> option URL) (url : option string) :
  validateImageUrl URL_parse url = true
  <-> exists s parsedUrl,
        url = Some s /\ s <> "" /\ URL_parse s = Some parsedUrl
        /\ protocol parsedUrl = "https:".
Proof.
  unfold validateImageUrl. split.
  - destruct url as [s|]; [|discriminate].
    destruct (s =? "")%string eqn:Es; [discriminate|].
    destruct (URL_parse s) as [x|] eqn:Ex; [|discriminate].
    destruct (protocol x =? "https:")%string eqn:Ep; cbn [negb];
      [|discriminate].
    intros _. exists s, x. repeat split; auto.
    + apply String.eqb_neq. exact Es.
    + apply String.eqb_eq. exact Ep.
  - intros (s & x & -> & Hs & Hx & Hp).
    apply String.eqb_neq in Hs. rewrite Hs, Hx, Hp.
    destruct (includes _ _); reflexivity.
Qed.

(** On the reference parser: an HTTPS URL of any host validates, other
    schemes and strings that do not parse do not. *)
Example validateImageUrl_examples :
  validateImageUrl RefParser.parseURL (Some "https://images.example.com/a.png")
  = true
  /\ validateImageUrl RefParser.parseURL (Some Scenario.plain_http_url) = false
  /\ validateImageUrl RefParser.parseURL (Some "not a url") = false
  /\ validateImageUrl RefParser.parseURL (Some "") = false
  /\ validateImageUrl RefParser.parseURL None = false.
Proof. repeat split. Qed.

(** ** [normalizeImageUrl] *)





(** The assignment is ignored as well on a [file] URL with an empty
    host. *)
Example ensure_https_file :
  let u := mkURL "file" "" "" (Some "") None (ListPath ["etc"; "passwd"])
                 None None in
  toString u = "file:///etc/passwd" /\ ensure_https u = u.
Proof. split; reflexivity. Qed.

(** C7.  [normalizeImageUrl] is idempotent at every argument for which
    the parser reads back the URL that [normalizeImageUrl] serialized. *)
Theorem normalizeImageUrl_idempotent
    (URL_parse : string -> option URL) (url : option string)
    (Hparser : forall s parsedUrl,
        url = Some s -> URL_parse s = Some parsedUrl ->
        reads_back URL_parse (ensure_https parsedUrl)) :
  normalizeImageUrl URL_parse (normalizeImageUrl URL_parse url)
  = normalizeImageUrl URL_parse url.
Proof.
  destruct url as [s|]; [|reflexivity].
  unfold normalizeImageUrl at 2 3.
  destruct (s =? "")%string eqn:Es; [reflexivity|].
  destruct (URL_parse s) as [x|] eqn:Ex.
  - specialize (Hparser s x eq_refl Ex). unfold reads_back in Hparser.
    unfold normalizeImageUrl.
    rewrite toString_nonempty, Hparser, ensure_https_idempotent.
    reflexivity.
  - unfold normalizeImageUrl. rewrite Es, Ex. reflexivity.
Qed.

(** C7, witness: an [http] URL with upper-case host, a port, dot
    segments and a space in its query. *)
Lemma normalizeImageUrl_idempotent_witness :
  normalizeImageUrl RefParser.parseURL
    (normalizeImageUrl RefParser.parseURL (Some Scenario.plain_http_url))
  = normalizeImageUrl RefParser.parseURL (Some Scenario.plain_http_url)
  /\ normalizeImageUrl RefParser.parseURL (Some Scenario.plain_http_url)
     = Some "https://example.com/b.png?size=1%202".
Proof.
  split; [|reflexivity].
  apply (normalizeImageUrl_idempotent RefParser.parseURL
           (Some Scenario.plain_http_url)).
  intros s x Hs Hx. injection Hs as <-.
  vm_compute in Hx. injection Hx as <-.
  vm_compute. reflexivity.
Defined.

(** ** [loadImageWithRetry] *)

Lemma double_limit_pos : 0 < double_limit.
Proof. reflexivity. Qed.

(** One [delay *= 2] after the other gives the closed form [doubled]. *)
Lemma iter_times2 (initialDelay : Z) (i : nat) :
  Nat.iter i times2 (Finite initialDelay) = doubled initialDelay i.
Proof.
  pose proof double_limit_pos as Hpos.
  induction i as [|i IH]; [reflexivity|].
  rewrite Nat.iter_succ, IH. clear IH.
  destruct i as [|i].
  - unfold doubled, times2. change (Z.of_nat 1) with 1.
    rewrite Z.pow_1_r. reflexivity.
  - unfold doubled.
    rewrite (Nat2Z.inj_succ (S i)), Z.pow_succ_r by lia.
    set (x := initialDelay * 2 ^ Z.of_nat (S i)).
    replace (initialDelay * (2 * 2 ^ Z.of_nat (S i))) with (x * 2)
      by (unfold x; lia).
    assert (Hpow : 0 < 2 ^ Z.of_nat (S i)) by (apply Z.pow_pos_nonneg; lia).
    assert (Hsign : (x <? 0) = (initialDelay <? 0)).
    { unfold x. destruct (initialDelay <? 0) eqn:E.
      - apply Z.ltb_lt in E. apply Z.ltb_lt. nia.
      - apply Z.ltb_ge in E. apply Z.ltb_ge. nia. }
    destruct (Z.abs x <? double_limit) eqn:E1; cbn [times2].
    + rewrite Hsign. reflexivity.
    + apply Z.ltb_ge in E1.
      replace (Z.abs (x * 2) <? double_limit) with false
        by (symmetry; apply Z.ltb_ge; lia).
      reflexivity.
Qed.

(** What a run of [attemptLoad] did, in terms of the images it created:
    all but the last fired [onerror], and the last one decides the
    promise; [retries] can grow by [maxRetries - retries] still, or not
    at all when it is at [maxRetries] or beyond. *)
Lemma attemptLoad_trace (img : nat -> image_event) (maxRetries : Z)
                        (n : nat) (retries : Z) (delay : number) :
  let r := attemptLoad img maxRetries n retries delay in
  let allowed := Z.max (maxRetries - retries) 0 in
  (1 <= attempts r)%nat
  /\ Z.of_nat (attempts r) <= allowed + 1
  /\ (forall j, (j < attempts r - 1)%nat -> img (n + j)%nat = OnError)
  /\ match outcome r with
     | Resolved => img (n + (attempts r - 1))%nat = OnLoad
     | Pending => img (n + (attempts r - 1))%nat = NoEvent
     | Rejected _ =>
         img (n + (attempts r - 1))%nat = OnError
         /\ Z.of_nat (attempts r) = allowed + 1
     end
  /\ delays r
     = map (fun i => Nat.iter i times2 delay) (seq 0 (attempts r - 1)).
Proof.
  funelim (attemptLoad img maxRetries n retries delay); cbn zeta.
  - cbn. rewrite Nat.add_0_r. repeat split; auto; try lia; intros; lia.
  - cbn. rewrite Nat.add_0_r. repeat split; auto; try lia; intros; lia.
  - match goal with
    | IH : _ /\ _ |- _ => destruct IH as (H1 & H2 & H3 & H4 & H5)
    end.
    set (r := attemptLoad img maxRetries0 (S n) (retries + 1) (times2 delay))
      in *.
    unfold after_retry. cbn [attempts delays outcome].
    replace (S (attempts r) - 1)%nat with (S (attempts r - 1)) by lia.
    repeat split.
    + lia.
    + lia.
    + intros [|j] Hj.
      * rewrite Nat.add_0_r. assumption.
      * replace (n + S j)%nat with (S n + j)%nat by lia. apply H3. lia.
    + replace (n + S (attempts r - 1))%nat
        with (S n + (attempts r - 1))%nat by lia.
      destruct (outcome r); [assumption | | assumption].
      destruct H4 as [H4 H4']. split; [assumption | lia].
    + rewrite H5. cbn [seq map]. f_equal.
      rewrite <- seq_shift, map_map. apply map_ext. intros i.
      symmetry. apply Nat.iter_succ_r.
  - cbn. rewrite Nat.add_0_r. repeat split; auto; try lia; intros; lia.
Qed.

(** The same while retries are left. *)
Lemma attemptLoad_run (img : nat -> image_event) (maxRetries : Z)
                      (n : nat) (retries : Z) (delay : number) :
  retries <= maxRetries ->
  let r := attemptLoad img maxRetries n retries delay in
  (1 <= attempts r)%nat
  /\ Z.of_nat (attempts r) <= maxRetries - retries + 1
  /\ (forall j, (j < attempts r - 1)%nat -> img (n + j)%nat = OnError)
  /\ match outcome r with
     | Resolved => img (n + (attempts r - 1))%nat = OnLoad
     | Pending => img (n + (attempts r - 1))%nat = NoEvent
     | Rejected _ =>
         img (n + (attempts r - 1))%nat = OnError
         /\ Z.of_nat (attempts r) = maxRetries - retries + 1
     end
  /\ delays r
     = map (fun i => Nat.iter i times2 delay) (seq 0 (attempts r - 1)).
Proof.
  intros Hle.
  pose proof (attemptLoad_trace img maxRetries n retries delay) as H.
  cbn zeta in *. rewrite Z.max_l in H by lia. exact H.
Qed.

(** C6, as amended.  For every retry count and every initial delay: the
    promise resolves as soon as an image loads, within the first
    [max maxRetries 0 + 1] attempts; it rejects only after exactly
    [max maxRetries 0 + 1] images were created and all of them fired
    [onerror], and it does reject in that case; the delay passed to
    [setTimeout] in front of the first retry is [initialDelay], and each
    later one is twice the one before as [delay *= 2] computes it:
    [initialDelay * 2 ^ i] in front of retry number [i + 1], or an
    infinity once that product reaches [2 ^ 1024] in magnitude. *)
Theorem loadImageWithRetry_spec
    (img : nat -> image_event) (maxRetries initialDelay : Z) :
  let r := loadImageWithRetry img maxRetries initialDelay in
  let allowed := Z.max maxRetries 0 in
  (forall k, (forall j, (j < k)%nat -> img j = OnError) ->
             img k = OnLoad -> Z.of_nat k <= allowed ->
             outcome r = Resolved /\ attempts r = S k)
  /\ (outcome r = Resolved -> img (attempts r - 1)%nat = OnLoad)
  /\ (forall reason, outcome r = Rejected reason ->
        Z.of_nat (attempts r) = allowed + 1
        /\ forall j, (j < attempts r)%nat -> img j = OnError)
  /\ ((forall j, Z.of_nat j <= allowed -> img j = OnError) ->
      exists reason, outcome r = Rejected reason)
  /\ delays r = map (doubled initialDelay) (seq 0 (attempts r - 1))
  /\ (forall i, (S i < attempts r - 1)%nat ->
        nth (S i) (delays r) (Finite 0) = times2 (nth i (delays r) (Finite 0))).
Proof.
  unfold loadImageWithRetry.
  pose proof (attemptLoad_trace img maxRetries 0 0 (Finite initialDelay))
    as H.
  cbn zeta in H. rewrite Z.sub_0_r in H.
  destruct H as (H1 & H2 & H3 & H4 & H5).
  set (r := attemptLoad img maxRetries 0 0 (Finite initialDelay)) in *.
  cbn zeta. cbn [Nat.add] in H3, H4.
  set (allowed := Z.max maxRetries 0) in *.
  assert (Hk : forall k, (forall j, (j < k)%nat -> img j = OnError) ->
                         img k = OnLoad -> Z.of_nat k <= allowed ->
                         (attempts r - 1)%nat = k).
  { intros k Hpre Hk Hle.
    destruct (Nat.lt_trichotomy (attempts r - 1) k) as [Hlt | [Heq | Hgt]].
    - specialize (Hpre _ Hlt). destruct (outcome r); try congruence.
      destruct H4 as [_ H4]. lia.
    - exact Heq.
    - specialize (H3 k Hgt). congruence. }
  assert (Hd : delays r
               = map (doubled initialDelay) (seq 0 (attempts r - 1))).
  { rewrite H5. apply map_ext. intros i. apply iter_times2. }
  split; [|split; [|split; [|split; [|split]]]].
  - intros k Hpre Hload Hle. specialize (Hk k Hpre Hload Hle).
    split; [|lia].
    rewrite Hk in H4. destruct (outcome r); try congruence.
    destruct H4 as [H4 _]. congruence.
  - intros Hr. rewrite Hr in H4. exact H4.
  - intros reason Hr. rewrite Hr in H4. destruct H4 as [H4 H4'].
    split; [lia|].
    intros j Hj.
    destruct (Nat.eq_dec j (attempts r - 1)) as [-> | Hne];
      [exact H4 | apply H3; lia].
  - intros Hall.
    assert (He : img (attempts r - 1)%nat = OnError) by (apply Hall; lia).
    rewrite He in H4. destruct (outcome r); try discriminate.
    eexists. reflexivity.
  - exact Hd.
  - intros i Hi. rewrite H5.
    rewrite (nth_indep _ (Finite 0) (Nat.iter 0 times2 (Finite initialDelay)))
      by (rewrite length_map, length_seq; lia).
    rewrite (nth_indep _ (Finite 0) (Nat.iter 0 times2 (Finite initialDelay)))
      by (rewrite length_map, length_seq; lia).
    rewrite !(map_nth (fun i => Nat.iter i times2 (Finite initialDelay))).
    rewrite !seq_nth by lia. reflexivity.
Qed.

(** An image that loads at the second attempt: one delay, resolved. *)
Example loadImageWithRetry_second_attempt :
  loadImageWithRetry Scenario.loads_on_second_attempt 3 1000
  = mkRun 2 [Finite 1000] Resolved.
Proof. reflexivity. Qed.

(** The doubling leaves the integers at [2 ^ 1024]. *)
Example loadImageWithRetry_overflow :
  delays (loadImageWithRetry Scenario.always_fails 2 (2 ^ 1023))
  = [Finite (2 ^ 1023); Infinity false].
Proof. vm_compute. reflexivity. Qed.

(** C6, witness: three retries from one second, every image failing. *)
Lemma loadImageWithRetry_spec_witness :
  let r := loadImageWithRetry Scenario.always_fails 3 1000 in
  Z.of_nat (attempts r) = 3 + 1
  /\ delays r = [Finite 1000; Finite 2000; Finite 4000]
  /\ exists reason, outcome r = Rejected reason.
Proof.
  pose proof (loadImageWithRetry_spec Scenario.always_fails 3 1000) as H.
  cbn zeta in H. destruct H as (_ & _ & H3 & H4 & _ & _).
  destruct (H4 (fun _ _ => eq_refl)) as [reason Hr].
  cbn zeta. split; [|split].
  - exact (proj1 (H3 reason Hr)).
  - vm_compute. reflexivity.
  - exists reason. exact Hr.
Defined.

(** C6, as stated, fails for a negative retry count: with [maxRetries]
    at [-1] the loader rejects after one failed attempt, and
    [maxRetries + 1] is zero. *)
Lemma loadImageWithRetry_negative_maxRetries :
  let r := loadImageWithRetry Scenario.always_fails (-1) 1000 in
  (exists reason, outcome r = Rejected reason)
  /\ attempts r = 1%nat
  /\ Z.of_nat (attempts r) <> -1 + 1.
Proof.
  vm_compute. split; [eexists; reflexivity|]. split; [reflexivity|].
  discriminate.
Qed.

(** ** The temporary-URL classifier and the load timeout *)

Lemma validateImageUrl_true
    (URL_parse : string -> option URL) (s : string) :
  validateImageUrl URL_parse (Some s) = true ->
  (s =? "")%string = false
  /\ exists parsedUrl,
       URL_parse s = Some parsedUrl
       /\ (protocol parsedUrl =? "https:")%string = true.
Proof.
  unfold validateImageUrl.
  destruct (s =? "")%string; [discriminate|].
  destruct (URL_parse s) as [x|]; [|discriminate].
  destruct (protocol x =? "https:")%string eqn:Ep; [|discriminate].
  intros _. split; [reflexivity|]. exists x. split; [reflexivity | exact Ep].
Qed.

Lemma timeoutRef_preloadEffect
    (URL_parse : string -> option URL) (h : Hooks) (c : Component) :
  timeoutRef (preloadEffect URL_parse h c) = timeoutRef c.
Proof.
  unfold preloadEffect. destruct (normalizedUrl h); [|reflexivity].
  destruct (orb _ _); reflexivity.
Qed.

Lemma timeoutRef_clearTimeoutRef (c : Component) :
  timeoutRef (clearTimeoutRef c) = None.
Proof. unfold clearTimeoutRef. destruct (timeoutRef c) eqn:E; auto. Qed.

(** The timer set by a run of the validation effect that gets past the
    validation. *)
Lemma validateEffect_timer
    (URL_parse : string -> option URL) (p : Props) (h : Hooks)
    (c : Component) :
  isLoading p = false ->
  trim (imageUrl p) <> "" ->
  validateImageUrl URL_parse (Some (imageUrl p)) = true ->
  timeoutRef (validateEffect URL_parse p h c)
  = Some (mkTimer
            (timeoutDuration URL_parse
               (normalizeImageUrl URL_parse (Some (imageUrl p))))
            (isImageLoaded h) (hasError h) (onError p) true).
Proof.
  intros Hload Htrim Hvalid.
  destruct (validateImageUrl_true _ _ Hvalid) as (Hne & x & Hx & Hp).
  unfold validateEffect.
  apply String.eqb_neq in Htrim. rewrite Hne, Htrim, Hload, Hvalid.
  cbn [orb negb]. cbv zeta.
  remember (normalizeImageUrl URL_parse (Some (imageUrl p))) as normalized
    eqn:Hn.
  assert (Hsome : exists n, normalized = Some n /\ (n =? "")%string = false).
  { exists (toString (ensure_https x)). split; [|apply toString_nonempty].
    rewrite Hn. unfold normalizeImageUrl. rewrite Hne, Hx. reflexivity. }
  destruct Hsome as (n & -> & Hn').
  rewrite Hn'. reflexivity.
Qed.

Lemma prefix_refl (s : string) : String.prefix s s = true.
Proof.
  induction s as [|c s IH]; [reflexivity|].
  cbn [String.prefix]. destruct (ascii_dec c c); [exact IH | congruence].
Qed.

Lemma includes_tail (s sub : string) (c : ascii) :
  includes s sub = true -> includes (String c s) sub = true.
Proof.
  intros H. cbn [includes]. rewrite H. apply Bool.orb_true_r.
Qed.

Lemma ends_with_includes (s suffix : string) :
  ends_with s suffix = true -> includes s suffix = true.
Proof.
  induction s as [|c s IH]; cbn [ends_with]; intros H.
  - rewrite Bool.orb_false_r in H. apply String.eqb_eq in H. subst suffix.
    reflexivity.
  - apply Bool.orb_true_iff in H as [H | H].
    + apply String.eqb_eq in H. subst suffix.
      unfold includes; fold includes. rewrite prefix_refl. reflexivity.
    + apply includes_tail. apply IH. exact H.
Qed.

Lemma includes_without_first (s sub : string) (c : ascii) :
  includes s (String c sub) = true -> includes s sub = true.
Proof.
  induction s as [|a s IH]; intros H.
  - cbn in H. discriminate.
  - unfold includes in H; fold includes in H.
    apply Bool.orb_true_iff in H as [H | H].
    + cbn [String.prefix] in H.
      destruct (ascii_dec c a) as [_ | _]; [|discriminate].
      apply includes_tail.
      destruct s as [|b s']; destruct sub as [|d sub'];
        unfold includes; fold includes; cbn [String.prefix] in *;
        try reflexivity; try discriminate.
      rewrite H. reflexivity.
    + apply includes_tail. apply IH. exact H.
Qed.

(** Every host in the delivery domain contains [replicate.delivery]. *)
Lemma in_delivery_domain_includes (host : string) :
  in_delivery_domain host = true ->
  includes host "replicate.delivery" = true.
Proof.
  unfold in_delivery_domain. intros H.
  apply Bool.orb_true_iff in H as [H | H].
  - apply String.eqb_eq in H. subst host. reflexivity.
  - apply (includes_without_first _ _ "."). apply ends_with_includes.
    exact H.
Qed.

(** C5, as amended.  [isLikelyTemporaryUrl] answers [true] exactly on a
    non-empty string that parses as a URL whose host name contains
    [replicate.delivery], hence on every URL whose host is in the
    delivery domain; and when the validation effect runs on a URL that
    passes [validateImageUrl], it sets a timer of 20000 ms if
    [isLikelyTemporaryUrl] holds of the normalized URL and of 15000 ms
    otherwise, at mount in particular.  Where the parser reads back the
    serialized URL, the normalized URL is temporary exactly when the
    given one is. *)
Theorem temporary_url_timeout
    (URL_parse : string -> option URL) (url : option string)
    (p : Props) (h : Hooks) (c : Component)
    (Hloading : isLoading p = false)
    (Hblank : trim (imageUrl p) <> "")
    (Hvalid : validateImageUrl URL_parse (Some (imageUrl p)) = true) :
  (isLikelyTemporaryUrl URL_parse url = true
   <-> exists s parsedUrl,
         url = Some s /\ s <> "" /\ URL_parse s = Some parsedUrl
         /\ includes (hostname parsedUrl) "replicate.delivery" = true)
  /\ (forall s parsedUrl,
        s <> "" -> URL_parse s = Some parsedUrl ->
        in_delivery_domain (hostname parsedUrl) = true ->
        isLikelyTemporaryUrl URL_parse (Some s) = true)
  /\ let normalized := normalizeImageUrl URL_parse (Some (imageUrl p)) in
     let ms :=
       if isLikelyTemporaryUrl URL_parse normalized then 20000 else 15000 in
     timeoutRef (validateEffect URL_parse p h c)
     = Some (mkTimer ms (isImageLoaded h) (hasError h) (onError p) true)
     /\ timeoutRef (step URL_parse initial (Render p))
        = Some (mkTimer ms false false (onError p) true)
     /\ (forall parsedUrl,
           URL_parse (imageUrl p) = Some parsedUrl ->
           reads_back URL_parse parsedUrl ->
           isLikelyTemporaryUrl URL_parse normalized
           = isLikelyTemporaryUrl URL_parse (Some (imageUrl p))).
Proof.
  split; [|split; [|cbn zeta; split; [|split]]].
  - unfold isLikelyTemporaryUrl. split.
    + destruct url as [s|]; [|discriminate].
      destruct (s =? "")%string eqn:Es; [discriminate|].
      destruct (URL_parse s) as [x|] eqn:Ex; [|discriminate].
      destruct (includes (hostname x) "replicate.delivery") eqn:Ei;
        [|discriminate].
      intros _. exists s, x. repeat split; auto.
      apply String.eqb_neq. exact Es.
    + intros (s & x & -> & Hs & Hx & Hi).
      apply String.eqb_neq in Hs. rewrite Hs, Hx, Hi. reflexivity.
  - intros s x Hs Hx Hin. unfold isLikelyTemporaryUrl.
    apply String.eqb_neq in Hs. rewrite Hs, Hx.
    rewrite (in_delivery_domain_includes _ Hin). reflexivity.
  - apply validateEffect_timer; assumption.
  - cbn [step]. unfold renderAndCommit. cbn [lastRender initial].
    cbn [andb cleanupDue]. cbv iota beta.
    cbn [lastRender setLastRender timeoutRef].
    rewrite timeoutRef_preloadEffect.
    apply (validateEffect_timer URL_parse p initialHooks); assumption.
  - intros x Hx Hback.
    destruct (validateImageUrl_true _ _ Hvalid) as (Hne & x' & Hx' & Hp).
    rewrite Hx in Hx'. injection Hx' as <-.
    unfold normalizeImageUrl, ensure_https. rewrite Hne, Hx, Hp.
    cbn [negb]. unfold isLikelyTemporaryUrl.
    unfold reads_back in Hback.
    rewrite toString_nonempty, Hback, Hne, Hx. reflexivity.
Qed.

(** C5, witness: the URL of the specification's scenario gets the
    20-second timer at mount. *)
Lemma temporary_url_timeout_witness :
  isLikelyTemporaryUrl RefParser.parseURL (Some Scenario.replicate_url) = true
  /\ timeoutRef (step RefParser.parseURL initial (Render Scenario.props))
     = Some (mkTimer 20000 false false (Some 0%nat) true).
Proof.
  destruct (temporary_url_timeout RefParser.parseURL
              (Some Scenario.replicate_url) Scenario.props initialHooks
              initial)
    as [H1 (_ & _ & H2 & _)].
  - reflexivity.
  - vm_compute. discriminate.
  - reflexivity.
  - split; [reflexivity | exact H2].
Defined.

(** C5, as stated, fails on a host that contains [replicate.delivery]
    without being in that domain: the URL is classified as temporary
    and gets the 20-second timer. *)
Lemma temporary_url_outside_domain :
  let s := "https://replicate.delivery.evil.com/x" in
  option_map hostname (RefParser.parseURL s)
  = Some "replicate.delivery.evil.com"
  /\ in_delivery_domain "replicate.delivery.evil.com" = false
  /\ isLikelyTemporaryUrl RefParser.parseURL (Some s) = true
  /\ timeoutRef (step RefParser.parseURL initial
                   (Render (mkProps s false None)))
     = Some (mkTimer 20000 false false None true).
Proof. cbn zeta. repeat split. Qed.

(** A URL of another host gets the 15-second timer. *)
Example other_host_timer :
  timeoutRef (step RefParser.parseURL initial
                (Render (mkProps "https://images.example.com/a.png" false None)))
  = Some (mkTimer 15000 false false None true).
Proof. reflexivity. Qed.

(** ** Error reporting of the [AvatarImage] component *)

Lemma reportedAtMostOnce_quiet (c c' : Component) :
  errorReportedRef c' = errorReportedRef c ->
  onErrorCalls c' = onErrorCalls c ->
  reportedAtMostOnce c c'.
Proof. intros H1 H2. left. split; assumption. Qed.

Lemma reportedAtMostOnce_trans (a b c : Component) :
  reportedAtMostOnce a b -> reportedAtMostOnce b c -> reportedAtMostOnce a c.
Proof.
  intros [[F1 C1] | (F1 & F1' & call1 & C1)] [[F2 C2] | (F2 & F2' & call2 & C2)].
  - left. split; congruence.
  - right. repeat split; try congruence. exists call2. congruence.
  - right. repeat split; try congruence. exists call1. congruence.
  - congruence.
Qed.

Lemma reportedAtMostOnce_update (f : Hooks -> Hooks) (c : Component) :
  reportedAtMostOnce c (update f c).
Proof. apply reportedAtMostOnce_quiet; reflexivity. Qed.

Lemma reportedAtMostOnce_clearTimeoutRef (c : Component) :
  reportedAtMostOnce c (clearTimeoutRef c).
Proof.
  unfold clearTimeoutRef. destruct (timeoutRef c);
    apply reportedAtMostOnce_quiet; reflexivity.
Qed.

Lemma reportedAtMostOnce_reportError
    (onError : option nat) (type message : string) (c : Component) :
  reportedAtMostOnce c (reportError onError type message c).
Proof.
  unfold reportError. destruct onError as [f|].
  - destruct (errorReportedRef c) eqn:E; cbn [negb].
    + apply reportedAtMostOnce_quiet; reflexivity.
    + right. repeat split; auto. eexists. reflexivity.
  - apply reportedAtMostOnce_quiet; reflexivity.
Qed.

(** Peels the setters, [clearTimeoutRef] and [reportError] off the
    component on the right, down to the one on the left. *)
Ltac report_chain :=
  lazymatch goal with
  | |- reportedAtMostOnce ?c ?c =>
      apply reportedAtMostOnce_quiet; reflexivity
  | |- reportedAtMostOnce ?c (reportError ?o ?t ?m ?x) =>
      apply (reportedAtMostOnce_trans c x);
      [report_chain | apply reportedAtMostOnce_reportError]
  | |- reportedAtMostOnce ?c (clearTimeoutRef ?x) =>
      apply (reportedAtMostOnce_trans c x);
      [report_chain | apply reportedAtMostOnce_clearTimeoutRef]
  | |- reportedAtMostOnce ?c (?setter ?v ?x) =>
      apply (reportedAtMostOnce_trans c x);
      [report_chain | apply reportedAtMostOnce_quiet; reflexivity]
  end.

Section Reporting.

Variable URL_parse : string -> option URL.

Lemma reportedAtMostOnce_validateEffect (p : Props) (h : Hooks)
                                        (c : Component) :
  reportedAtMostOnce c (validateEffect URL_parse p h c).
Proof.
  unfold validateEffect.
  destruct (orb _ (isLoading p)); [report_chain|].
  destruct (negb (validateImageUrl _ _)); [report_chain|].
  cbv zeta.
  destruct (normalizeImageUrl URL_parse (Some (imageUrl p))) as [n|].
  - destruct (option_string_eqb (Some n) (normalizedUrl h));
      destruct (n =? "")%string; cbn [negb]; report_chain.
  - destruct (option_string_eqb None (normalizedUrl h)); cbn [negb];
      report_chain.
Qed.

Lemma reportedAtMostOnce_preloadEffect (h : Hooks) (c : Component) :
  reportedAtMostOnce c (preloadEffect URL_parse h c).
Proof.
  unfold preloadEffect. destruct (normalizedUrl h); [|report_chain].
  destruct (orb _ _); report_chain.
Qed.

Lemma reportedAtMostOnce_handleImageLoad (c : Component) :
  reportedAtMostOnce c (handleImageLoad c).
Proof. unfold handleImageLoad. report_chain. Qed.

Lemma reportedAtMostOnce_handleImageError
    (p : Props) (h : Hooks) (src : string) (c : Component) :
  reportedAtMostOnce c (handleImageError URL_parse p h src c).
Proof.
  unfold handleImageError. cbv zeta.
  destruct (retryCount h <? maxRetries); [|report_chain].
  destruct (retryCount h =? 0); report_chain.
Qed.

Lemma reportedAtMostOnce_timeoutCallback (t : Timer) (c : Component) :
  reportedAtMostOnce c (timeoutCallback t c).
Proof.
  unfold timeoutCallback. destruct (andb _ _); report_chain.
Qed.

(** A render that leaves [imageUrl] as it was does not run the first
    effect, so the guard is not reset. *)
Lemma reportedAtMostOnce_renderAndCommit
    (u : string) (p : Props) (c : Component) :
  renderedUrl c = Some u -> imageUrl p = u ->
  reportedAtMostOnce c (renderAndCommit URL_parse p c).
Proof.
  unfold renderedUrl, renderAndCommit.
  destruct (lastRender c) as [[p0 h0]|]; [|discriminate].
  intros Hu Hp. injection Hu as Hu. subst u.
  rewrite Hp, String.eqb_refl. cbn [negb].
  destruct (hooksDeps2Changed p0 p h0 (hooks c));
    destruct (hooksDeps3Changed h0 (hooks c));
    destruct (cleanupDue c); cbn [andb].
  all: eapply reportedAtMostOnce_trans;
    [|apply reportedAtMostOnce_quiet; reflexivity].
  all: repeat first
         [ apply reportedAtMostOnce_quiet; reflexivity
         | apply reportedAtMostOnce_clearTimeoutRef
         | eapply reportedAtMostOnce_trans;
           [|apply reportedAtMostOnce_preloadEffect]
         | eapply reportedAtMostOnce_trans;
           [|apply reportedAtMostOnce_validateEffect] ].
Qed.

Lemma renderedUrl_clearTimeoutRef (c : Component) :
  renderedUrl (clearTimeoutRef c) = renderedUrl c.
Proof. unfold clearTimeoutRef. destruct (timeoutRef c); reflexivity. Qed.

Lemma renderedUrl_reportError
    (onError : option nat) (type message : string) (c : Component) :
  renderedUrl (reportError onError type message c) = renderedUrl c.
Proof.
  unfold reportError. destruct onError; [|reflexivity].
  destruct (negb _); reflexivity.
Qed.

Lemma renderedUrl_step (u : string) (c : Component) (e : Event) :
  renderedUrl c = Some u -> keepsUrl u e = true ->
  renderedUrl (step URL_parse c e) = Some u.
Proof.
  intros Hu He. destruct e as [p| |src| |i img]; cbn [step].
  - cbn [keepsUrl] in He. apply String.eqb_eq in He.
    unfold renderAndCommit.
    destruct (lastRender c) as [[p0 h0]|]; cbv zeta iota beta;
      unfold renderedUrl; cbn [lastRender setLastRender]; congruence.
  - destruct (lastRender c) as [[p h]|] eqn:E; [|exact Hu].
    destruct (imageShown _); [|exact Hu].
    unfold handleImageLoad. rewrite renderedUrl_clearTimeoutRef. exact Hu.
  - destruct (lastRender c) as [[p h]|] eqn:E; [|exact Hu].
    destruct (imageShown _); [|exact Hu].
    unfold handleImageError. cbv zeta.
    destruct (retryCount h <? maxRetries).
    + destruct (retryCount h =? 0); exact Hu.
    + rewrite renderedUrl_clearTimeoutRef, renderedUrl_reportError. exact Hu.
  - destruct (timeoutRef c) as [t|]; [|exact Hu].
    destruct (live t); [|exact Hu].
    unfold timeoutCallback. destruct (andb _ _); [|exact Hu].
    unfold renderedUrl. cbn [lastRender update].
    fold (renderedUrl
            (reportError (sawOnError t) "timeout"
               "Image is taking too long to load. It might still be processing."
               (update (setLoadingTimeout true)
                  (setTimeoutRef
                     (Some (mkTimer (duration t) (sawLoaded t) (sawError t)
                                    (sawOnError t) false)) c)))).
    rewrite renderedUrl_reportError. exact Hu.
  - destruct (nth_error (preloads c) i); [|exact Hu].
    destruct (outcome _); exact Hu.
Qed.

Lemma reportedAtMostOnce_step (u : string) (c : Component) (e : Event) :
  renderedUrl c = Some u -> keepsUrl u e = true ->
  reportedAtMostOnce c (step URL_parse c e).
Proof.
  intros Hu He. destruct e as [p| |src| |i img]; cbn [step].
  - cbn [keepsUrl] in He. apply String.eqb_eq in He.
    apply (reportedAtMostOnce_renderAndCommit u); assumption.
  - destruct (lastRender c) as [[p h]|]; [|report_chain].
    destruct (imageShown _); [|report_chain].
    apply reportedAtMostOnce_handleImageLoad.
  - destruct (lastRender c) as [[p h]|]; [|report_chain].
    destruct (imageShown _); [|report_chain].
    apply reportedAtMostOnce_handleImageError.
  - destruct (timeoutRef c) as [t|]; [|report_chain].
    destruct (live t); [|report_chain].
    eapply reportedAtMostOnce_trans;
      [|apply reportedAtMostOnce_timeoutCallback].
    report_chain.
  - destruct (nth_error (preloads c) i); [|report_chain].
    destruct (outcome _); unfold preloadFailed; report_chain.
Qed.

Lemma reportedAtMostOnce_run (u : string) (events : list Event)
                             (c : Component) :
  renderedUrl c = Some u -> forallb (keepsUrl u) events = true ->
  reportedAtMostOnce c (run URL_parse c events)
  /\ renderedUrl (run URL_parse c events) = Some u.
Proof.
  revert c. induction events as [|e events IH]; intros c Hu Hev.
  - split; [apply reportedAtMostOnce_quiet; reflexivity | exact Hu].
  - cbn [forallb] in Hev. apply Bool.andb_true_iff in Hev as [He Hev].
    cbn [run fold_left].
    destruct (IH (step URL_parse c e) (renderedUrl_step u c e Hu He) Hev)
      as [IH1 IH2].
    split; [|exact IH2].
    exact (reportedAtMostOnce_trans _ _ _
             (reportedAtMostOnce_step u c e Hu He) IH1).
Qed.

(** A failed load that finds the rendered retry count below the cap
    only counts: it reports nothing and sets no error. *)
Lemma handleImageError_below_cap
    (p : Props) (h : Hooks) (src : string) (c : Component) :
  retryCount h < maxRetries ->
  retryCount (hooks (handleImageError URL_parse p h src c))
  = retryCount (hooks c) + 1
  /\ hasError (hooks (handleImageError URL_parse p h src c))
     = hasError (hooks c)
  /\ errorReportedRef (handleImageError URL_parse p h src c)
     = errorReportedRef c
  /\ onErrorCalls (handleImageError URL_parse p h src c) = onErrorCalls c.
Proof.
  intros Hcap. unfold handleImageError. cbv zeta.
  replace (retryCount h <? maxRetries) with true
    by (symmetry; apply Z.ltb_lt; exact Hcap).
  destruct (retryCount h =? 0); repeat split.
Qed.

(** The errored transition: at the cap, [handleImageError] sets
    [hasError] and goes through [reportError]. *)
Lemma handleImageError_at_cap
    (p : Props) (h : Hooks) (src : string) (c : Component) :
  maxRetries <= retryCount h ->
  hasError (hooks (handleImageError URL_parse p h src c)) = true
  /\ (onError p <> None ->
      errorReportedRef (handleImageError URL_parse p h src c) = true).
Proof.
  intros Hcap. unfold handleImageError. cbv zeta.
  replace (retryCount h <? maxRetries) with false
    by (symmetry; apply Z.ltb_ge; exact Hcap).
  unfold clearTimeoutRef, reportError.
  destruct (onError p) as [f|].
  - destruct (errorReportedRef c) eqn:E; cbn [negb update errorReportedRef].
    all: rewrite ?E; cbn.
    all: destruct (timeoutRef c); cbn; rewrite ?E; split; reflexivity.
  - cbn. destruct (timeoutRef c); cbn; split; congruence.
Qed.

(** A render with another [imageUrl], or the first render, runs the
    first effect: what follows in that commit reports as if the guard
    had been unset. *)
Lemma new_url_resets_guard (p : Props) (c : Component) :
  renderedUrl c <> Some (imageUrl p) ->
  reportedAtMostOnce (setErrorReportedRef false c)
                     (renderAndCommit URL_parse p c).
Proof.
  unfold renderedUrl, renderAndCommit. intros Hu.
  assert (Hdue : match lastRender c with
                 | Some (p0, _) => negb (imageUrl p0 =? imageUrl p)%string
                 | None => true
                 end = true).
  { destruct (lastRender c) as [[p0 h0]|]; [|reflexivity].
    apply Bool.negb_true_iff. apply String.eqb_neq. congruence. }
  destruct (lastRender c) as [[p0 h0]|].
  - rewrite Hdue. unfold resetReportedEffect.
    destruct (hooksDeps2Changed p0 p h0 (hooks c));
      destruct (hooksDeps3Changed h0 (hooks c));
      destruct (cleanupDue c) eqn:Ec; cbn [andb].
    all: eapply reportedAtMostOnce_trans;
      [|apply reportedAtMostOnce_quiet; reflexivity].
    all: repeat first
           [ eapply reportedAtMostOnce_trans;
             [|apply reportedAtMostOnce_preloadEffect]
           | eapply reportedAtMostOnce_trans;
             [|apply reportedAtMostOnce_validateEffect] ].
    all: unfold clearTimeoutRef; destruct (timeoutRef c);
      apply reportedAtMostOnce_quiet; reflexivity.
  - unfold resetReportedEffect. cbv iota beta.
    destruct (cleanupDue c) eqn:Ec; cbn [andb].
    all: eapply reportedAtMostOnce_trans;
      [|apply reportedAtMostOnce_quiet; reflexivity].
    all: repeat first
           [ eapply reportedAtMostOnce_trans;
             [|apply reportedAtMostOnce_preloadEffect]
           | eapply reportedAtMostOnce_trans;
             [|apply reportedAtMostOnce_validateEffect] ].
    all: unfold clearTimeoutRef; destruct (timeoutRef c);
      apply reportedAtMostOnce_quiet; reflexivity.
Qed.

Lemma renderedUrl_renderAndCommit (p : Props) (c : Component) :
  renderedUrl (renderAndCommit URL_parse p c) = Some (imageUrl p).
Proof.
  unfold renderAndCommit.
  destruct (lastRender c) as [[p0 h0]|]; reflexivity.
Qed.

Lemma run_app (c : Component) (l1 l2 : list Event) :
  run URL_parse c (l1 ++ l2) = run URL_parse (run URL_parse c l1) l2.
Proof. apply fold_left_app. Qed.

(** Once the guard is set, events that keep the URL leave it set and
    report nothing more. *)
Lemma reported_stays (u : string) (events : list Event) (c : Component) :
  renderedUrl c = Some u -> forallb (keepsUrl u) events = true ->
  errorReportedRef c = true ->
  errorReportedRef (run URL_parse c events) = true
  /\ onErrorCalls (run URL_parse c events) = onErrorCalls c.
Proof.
  intros Hu Hev Hset.
  destruct (reportedAtMostOnce_run u events c Hu Hev) as [R _].
  destruct R as [[F C] | (F & _)]; [split; congruence | congruence].
Qed.

End Reporting.

(** C2, as amended.  Take any component, a render that brings a new
    [imageUrl] (another one than the last render's, or the first
    render), and then any events that keep that URL: renders, image
    loads and failures, timer firings, preload settlements.  Over this
    run the parent's callback is called at most once, and exactly once
    when the guard ends up set, whether or not a report had been made
    for the URL before: the guard is reset by the change of URL.  Once
    the guard is set, nothing more is reported and it stays set.  A
    failed load that finds the rendered retry count below the cap only
    adds one to the counter; one that finds it at the cap or above makes
    the state errored and, if the parent gave a callback, exactly one
    call is made over the whole run. *)
Theorem error_reported_once_per_url
    (URL_parse : string -> option URL) (c0 : Component) (p : Props)
    (events : list Event)
    (Hnew : renderedUrl c0 <> Some (imageUrl p))
    (Hsame : forallb (keepsUrl (imageUrl p)) events = true) :
  let c := run URL_parse c0 (Render p :: events) in
  ((errorReportedRef c = false /\ onErrorCalls c = onErrorCalls c0)
   \/ (errorReportedRef c = true
       /\ exists call, onErrorCalls c = (onErrorCalls c0 ++ [call])%list))
  /\ (forall pre post,
        events = (pre ++ post)%list ->
        let mid := run URL_parse c0 (Render p :: pre) in
        errorReportedRef mid = true ->
        errorReportedRef c = true /\ onErrorCalls c = onErrorCalls mid)
  /\ (forall pre post src q h,
        events = (pre ++ ImageErrors src :: post)%list ->
        let mid := run URL_parse c0 (Render p :: pre) in
        let failed := step URL_parse mid (ImageErrors src) in
        lastRender mid = Some (q, h) ->
        imageShown (render q h) = true ->
        (retryCount h < maxRetries ->
         retryCount (hooks failed) = retryCount (hooks mid) + 1
         /\ hasError (hooks failed) = hasError (hooks mid)
         /\ onErrorCalls failed = onErrorCalls mid)
        /\ (maxRetries <= retryCount h ->
            hasError (hooks failed) = true
            /\ (onError q <> None ->
                exists call,
                  onErrorCalls c = (onErrorCalls c0 ++ [call])%list))).
Proof.
  cbn zeta.
  set (u := imageUrl p) in *.
  set (c1 := renderAndCommit URL_parse p c0).
  change (run URL_parse c0 (Render p :: events))
    with (run URL_parse c1 events).
  assert (U1 : renderedUrl c1 = Some u)
    by apply renderedUrl_renderAndCommit.
  pose proof (new_url_resets_guard URL_parse p c0 Hnew) as R0.
  fold c1 in R0.
  destruct (reportedAtMostOnce_run URL_parse u events c1 U1 Hsame)
    as [R1 _].
  pose proof (reportedAtMostOnce_trans _ _ _ R0 R1) as R.
  assert (Hepoch :
            (errorReportedRef (run URL_parse c1 events) = false
             /\ onErrorCalls (run URL_parse c1 events) = onErrorCalls c0)
            \/ (errorReportedRef (run URL_parse c1 events) = true
                /\ exists call,
                     onErrorCalls (run URL_parse c1 events)
                     = (onErrorCalls c0 ++ [call])%list)).
  { destruct R as [[F C] | (_ & F & call & C)].
    - left. split; [exact F | exact C].
    - right. split; [exact F | exists call; exact C]. }
  split; [exact Hepoch|]. split.
  - intros pre post -> Hset.
    rewrite forallb_app in Hsame.
    apply Bool.andb_true_iff in Hsame as [Hpre Hpost].
    change (run URL_parse c0 (Render p :: pre))
      with (run URL_parse c1 pre) in Hset.
    change (run URL_parse c0 (Render p :: pre))
      with (run URL_parse c1 pre).
    rewrite run_app.
    destruct (reportedAtMostOnce_run URL_parse u pre c1 U1 Hpre)
      as [_ Umid].
    apply (reported_stays URL_parse u); assumption.
  - intros pre post src q h -> Hrender Hshown.
    change (run URL_parse c0 (Render p :: pre))
      with (run URL_parse c1 pre) in *.
    rewrite forallb_app in Hsame.
    apply Bool.andb_true_iff in Hsame as [Hpre Hpost].
    cbn [forallb] in Hpost. apply Bool.andb_true_iff in Hpost as [_ Hpost].
    destruct (reportedAtMostOnce_run URL_parse u pre c1 U1 Hpre)
      as [_ Umid].
    set (mid := run URL_parse c1 pre) in *.
    assert (E : step URL_parse mid (ImageErrors src)
                = handleImageError URL_parse q h src mid).
    { cbn [step]. rewrite Hrender, Hshown. reflexivity. }
    rewrite E. split.
    + intros Hbelow.
      destruct (handleImageError_below_cap URL_parse q h src mid Hbelow)
        as (H1 & H2 & _ & H4).
      repeat split; assumption.
    + intros Hcap.
      destruct (handleImageError_at_cap URL_parse q h src mid Hcap)
        as [He Hr].
      split; [exact He|]. intros Hcallback. specialize (Hr Hcallback).
      assert (Ufailed : renderedUrl (handleImageError URL_parse q h src mid)
                        = Some u).
      { rewrite <- E.
        apply (renderedUrl_step URL_parse u mid (ImageErrors src) Umid).
        reflexivity. }
      destruct (reported_stays URL_parse u post _ Ufailed Hpost Hr)
        as [Hend _].
      assert (Erun : run URL_parse c1 (pre ++ ImageErrors src :: post)
                     = run URL_parse
                         (handleImageError URL_parse q h src mid) post).
      { rewrite run_app. cbn [run fold_left]. fold mid.
        rewrite E. reflexivity. }
      rewrite Erun in Hepoch.
      destruct Hepoch as [[F _] | [_ Hcall]]; [congruence|].
      rewrite Erun. exact Hcall.
Qed.

(** C2, witness: a first URL fails validation and is reported; the URL
    of the scenario follows, its image fails three times with the timer
    firing in between, and one more call is made. *)
Lemma error_reported_once_per_url_witness :
  let c0 := run RefParser.parseURL initial
              [Render Scenario.insecure_props;
               Render Scenario.insecure_props] in
  let c :=
    run RefParser.parseURL c0
      (Render Scenario.props
         :: [Render Scenario.props;
             ImageErrors Scenario.replicate_url; Render Scenario.props;
             ImageErrors Scenario.replicate_url; Render Scenario.props;
             ImageErrors Scenario.replicate_url;
             Render Scenario.props; TimeoutFires;
             ImageErrors Scenario.replicate_url; TimeoutFires]) in
  errorReportedRef c0 = true
  /\ onErrorCalls c0 = [(0%nat, "invalid_url", "Invalid image URL format")]
  /\ exists call, onErrorCalls c = (onErrorCalls c0 ++ [call])%list.
Proof.
  cbn zeta. split; [reflexivity|]. split; [reflexivity|].
  pose proof (error_reported_once_per_url RefParser.parseURL
                (run RefParser.parseURL initial
                   [Render Scenario.insecure_props;
                    Render Scenario.insecure_props])
                Scenario.props
                [Render Scenario.props;
                 ImageErrors Scenario.replicate_url; Render Scenario.props;
                 ImageErrors Scenario.replicate_url; Render Scenario.props;
                 ImageErrors Scenario.replicate_url;
                 Render Scenario.props; TimeoutFires;
                 ImageErrors Scenario.replicate_url; TimeoutFires]) as H.
  cbn zeta in H. destruct H as (_ & _ & H).
  - vm_compute. discriminate.
  - reflexivity.
  - destruct (H [Render Scenario.props;
                 ImageErrors Scenario.replicate_url; Render Scenario.props;
                 ImageErrors Scenario.replicate_url; Render Scenario.props]
                [Render Scenario.props; TimeoutFires;
                 ImageErrors Scenario.replicate_url; TimeoutFires]
                Scenario.replicate_url Scenario.props
                (mkHooks false false None None 2 false
                   (Some Scenario.replicate_url) true))
      as [_ Hcap].
    + reflexivity.
    + vm_compute. reflexivity.
    + vm_compute. reflexivity.
    + destruct Hcap as [_ Hcall].
      * vm_compute. discriminate.
      * apply Hcall. discriminate.
Defined.

(** C2, as stated, fails where the counter reaches its cap: after two
    failed loads the retry count is 2, the cap, yet the state is not
    errored, the image is still on screen and nothing was reported.  The
    errored state needs one more failure. *)
Lemma two_failures_reach_cap_unreported :
  let c := run RefParser.parseURL initial Scenario.two_failures in
  retryCount (hooks c) = maxRetries
  /\ hasError (hooks c) = false
  /\ render Scenario.props (hooks c)
     = FallbackImg Scenario.replicate_url
  /\ onErrorCalls c = [].
Proof. vm_compute. repeat split. Qed.

(** ** The retry counter *)

(** C3, the code at the failing trace: the preload that was in flight
    when the two render-time failures brought the counter to the cap
    adds one more. *)
Theorem retryCount_exceeds_maxRetries :
  let before := run RefParser.parseURL initial
                  (removelast Scenario.broken_image_trace) in
  let after := run RefParser.parseURL initial Scenario.broken_image_trace in
  retryCount (hooks before) = maxRetries
  /\ retryCount (hooks after) = 3
  /\ maxRetries < retryCount (hooks after).
Proof. vm_compute. repeat split. Qed.

(** ** The remote-call wrappers *)

Lemma image_call_unfold
    (URL_parse : string -> option URL) (token : option string)
    (run : string -> settlement value) (raw : value) (input : image_input) :
  image_schema raw = inr input -> configured token = true ->
  result (generateAvatarImage URL_parse token run raw)
  = match race_with_timer (run (prompt input)) 60000
            "Replicate API call timed out after 60 seconds" with
    | inl t => inl (image_catch t)
    | inr output =>
        match check_output URL_parse output with
        | inl t => inl (image_catch t)
        | inr imageUrl => inr imageUrl
        end
    end.
Proof.
  intros Hraw Htoken. unfold generateAvatarImage, procedure.
  rewrite Hraw. unfold generateAvatarImage_mutation.
  unfold configured in Htoken. rewrite Htoken. reflexivity.
Qed.

Lemma description_call_unfold
    (fetch : string -> settlement Response) (raw : value)
    (input : description_input) :
  description_schema raw = inr input ->
  result (generateAvatarDescription fetch raw)
  = match race_with_timer (fetch (description_prompt input)) 30000
            "Anthropic API call timed out after 30 seconds" with
    | inl t => inl (description_catch t)
    | inr response =>
        match handle_response response with
        | inl t => inl (description_catch t)
        | inr text => inr text
        end
    end.
Proof.
  intros Hraw. unfold generateAvatarDescription, procedure.
  rewrite Hraw. reflexivity.
Qed.

Lemma race_timer_wins {A} (call : settlement A) (ms : Z) (msg : string) :
  settles_before call ms = false ->
  race_with_timer call ms msg = inl (ThrowOther (new_Error msg)).
Proof.
  destruct call as [t v | t e |]; cbn; intros H; rewrite ?H; reflexivity.
Qed.

(** C1.  When [replicate.run] resolves in time with a value that is not
    a non-empty array, the caller receives the typed "no output" error;
    and [check_output] answers with that error exactly on such values,
    so that whatever depends on the first element is reached on
    non-empty arrays only. *)
Theorem empty_output_is_reported
    (URL_parse : string -> option URL) (token : option string)
    (run : string -> settlement value) (raw : value) (input : image_input)
    (t : Z) (output : value)
    (Hinput : image_schema raw = inr input)
    (Htoken : configured token = true)
    (Hrun : run (prompt input) = Fulfills t output)
    (Htime : t < 60000)
    (Hshape : is_nonempty_array output = false) :
  result (generateAvatarImage URL_parse token run raw) = inl image_no_output
  /\ (forall o, is_nonempty_array o = false
                <-> check_output URL_parse o = inl (ThrowTRPC image_no_output)).
Proof.
  assert (Hcheck : forall o, is_nonempty_array o = false
            <-> check_output URL_parse o = inl (ThrowTRPC image_no_output)).
  { intros o. split.
    - destruct o as [| | | | |[|x l]|]; cbn; try reflexivity; discriminate.
    - destruct o as [| | | | |[|x l]|]; cbn; try reflexivity.
      destruct x as [| | | |s| |]; try discriminate.
      destruct (s =? "")%string; [discriminate|].
      destruct (URL_parse s); discriminate. }
  split; [|exact Hcheck].
  rewrite (image_call_unfold URL_parse token run raw input Hinput Htoken).
  rewrite Hrun. cbn [race_with_timer].
  apply Z.ltb_lt in Htime. rewrite Htime.
  apply Hcheck in Hshape. rewrite Hshape. reflexivity.
Qed.

(** C1, witness: the endpoint answers with an empty array. *)
Lemma empty_output_is_reported_witness :
  result (generateAvatarImage RefParser.parseURL Scenario.token
            (Scenario.run_returns (Arr [])) Scenario.knight)
  = inl image_no_output.
Proof.
  apply (empty_output_is_reported RefParser.parseURL Scenario.token
           (Scenario.run_returns (Arr [])) Scenario.knight
           (mkImageInput "a pixel-art knight") 4200 (Arr [])).
  - reflexivity.
  - reflexivity.
  - reflexivity.
  - lia.
  - reflexivity.
Defined.

(** C4, as amended.  In [generateAvatarDescription] a response with
    status 401, 402, 429 or at least 500 whose body has been read yields
    the auth, payment-required, rate-limited or upstream-unavailable
    error, and a request that has not settled within 30000 ms the
    timeout error; when the read of the body of a response that is not
    [ok] rejects, the [catch] clause handles that rejection like any
    other, whatever the status.  In [generateAvatarImage] a call that
    has not settled within 60000 ms yields the timeout error, and a
    rejection carrying such a status yields the same four kinds provided
    its message contains neither [timed out] nor [network] and its code
    is neither [ECONNREFUSED] nor [ENOTFOUND]: the [catch] clause tests
    these first, so that such a rejection is reported as a timeout or as
    a network error whatever its status. *)
Theorem failures_follow_taxonomy
    (URL_parse : string -> option URL) (token : option string)
    (run : string -> settlement value)
    (fetch : string -> settlement Response)
    (rawImage rawDescription : value)
    (image : image_input) (described : description_input)
    (Himage : image_schema rawImage = inr image)
    (Hdescribed : description_schema rawDescription = inr described)
    (Htoken : configured token = true) :
  (forall t response errorText kind,
      fetch (description_prompt described) = Fulfills t response ->
      t < 30000 ->
      text response = inr errorText ->
      by_status description_unauthorized description_payment_required
                description_rate_limited description_unavailable
                (status response) = Some kind ->
      result (generateAvatarDescription fetch rawDescription) = inl kind)
  /\ (forall t response e,
        fetch (description_prompt described) = Fulfills t response ->
        t < 30000 ->
        ok response = false ->
        text response = inl e ->
        result (generateAvatarDescription fetch rawDescription)
        = inl (description_catch (ThrowOther e))
        /\ (says_timed_out (ThrowOther e) = true ->
            result (generateAvatarDescription fetch rawDescription)
            = inl description_timeout)
        /\ (says_timed_out (ThrowOther e) = false ->
            is_network_error (ThrowOther e) = true ->
            result (generateAvatarDescription fetch rawDescription)
            = inl description_network_error))
  /\ (settles_before (fetch (description_prompt described)) 30000 = false ->
      result (generateAvatarDescription fetch rawDescription)
      = inl description_timeout)
  /\ (forall t e status kind,
        run (prompt image) = Rejects t e ->
        t < 60000 ->
        says_timed_out (ThrowOther e) = false ->
        is_network_error (ThrowOther e) = false ->
        responseStatus e = Some status ->
        by_status image_unauthorized image_payment_required
                  image_rate_limited image_unavailable status = Some kind ->
        result (generateAvatarImage URL_parse token run rawImage) = inl kind)
  /\ (forall t e,
        run (prompt image) = Rejects t e ->
        t < 60000 ->
        (says_timed_out (ThrowOther e) = true ->
         result (generateAvatarImage URL_parse token run rawImage)
         = inl image_timeout)
        /\ (says_timed_out (ThrowOther e) = false ->
            is_network_error (ThrowOther e) = true ->
            result (generateAvatarImage URL_parse token run rawImage)
            = inl image_network_error))
  /\ (settles_before (run (prompt image)) 60000 = false ->
      result (generateAvatarImage URL_parse token run rawImage)
      = inl image_timeout).
Proof.
  split; [|split; [|split; [|split; [|split]]]].
  - intros t response errorText kind Hfetch Ht Hbody Hkind.
    rewrite (description_call_unfold fetch rawDescription described Hdescribed).
    rewrite Hfetch. cbn [race_with_timer].
    apply Z.ltb_lt in Ht. rewrite Ht.
    unfold by_status in Hkind. unfold handle_response, ok. rewrite Hbody.
    destruct (status response =? 401) eqn:E1.
    { apply Z.eqb_eq in E1. rewrite E1. injection Hkind as <-. reflexivity. }
    destruct (status response =? 402) eqn:E2.
    { apply Z.eqb_eq in E2. rewrite E2. injection Hkind as <-. reflexivity. }
    destruct (status response =? 429) eqn:E3.
    { apply Z.eqb_eq in E3. rewrite E3. injection Hkind as <-. reflexivity. }
    destruct (500 <=? status response) eqn:E4; [|discriminate].
    injection Hkind as <-.
    replace (status response <=? 299) with false
      by (symmetry; apply Z.leb_gt; apply Z.leb_le in E4; lia).
    rewrite Bool.andb_false_r. reflexivity.
  - intros t response e Hfetch Ht Hok Hbody.
    rewrite (description_call_unfold fetch rawDescription described Hdescribed).
    rewrite Hfetch. cbn [race_with_timer].
    apply Z.ltb_lt in Ht. rewrite Ht.
    unfold handle_response. rewrite Hok, Hbody. cbn [negb].
    split; [reflexivity|]. unfold description_catch. split.
    + intros ->. reflexivity.
    + intros -> ->. reflexivity.
  - intros Hlate.
    rewrite (description_call_unfold fetch rawDescription described Hdescribed).
    rewrite (race_timer_wins _ _ _ Hlate). reflexivity.
  - intros t e status kind Hrun Ht Htimed Hnet Hstatus Hkind.
    rewrite (image_call_unfold URL_parse token run rawImage image Himage Htoken).
    rewrite Hrun. cbn [race_with_timer].
    apply Z.ltb_lt in Ht. rewrite Ht.
    unfold image_catch. rewrite Htimed, Hnet, Hstatus.
    unfold by_status in Hkind.
    destruct (status =? 401) eqn:E1.
    { apply Z.eqb_eq in E1. subst status. injection Hkind as <-. reflexivity. }
    destruct (status =? 402) eqn:E2.
    { apply Z.eqb_eq in E2. subst status. injection Hkind as <-. reflexivity. }
    destruct (status =? 429) eqn:E3.
    { apply Z.eqb_eq in E3. subst status. injection Hkind as <-. reflexivity. }
    destruct (500 <=? status) eqn:E4; [|discriminate].
    injection Hkind as <-.
    replace (status =? 0) with false
      by (symmetry; apply Z.eqb_neq; apply Z.leb_le in E4; lia).
    reflexivity.
  - intros t e Hrun Ht.
    rewrite (image_call_unfold URL_parse token run rawImage image Himage Htoken).
    rewrite Hrun. cbn [race_with_timer].
    apply Z.ltb_lt in Ht. rewrite Ht. unfold image_catch. split.
    + intros ->. reflexivity.
    + intros -> ->. reflexivity.
  - intros Hlate.
    rewrite (image_call_unfold URL_parse token run rawImage image Himage Htoken).
    rewrite (race_timer_wins _ _ _ Hlate). reflexivity.
Qed.

(** C4, witness: HTTP 429 from either endpoint is reported as
    rate-limited, and calls that never settle as timeouts. *)
Lemma failures_follow_taxonomy_witness :
  result (generateAvatarDescription (Scenario.fetch_returns 429)
            Scenario.describe_me)
  = inl description_rate_limited
  /\ result (generateAvatarImage RefParser.parseURL Scenario.token
               (Scenario.run_rejects
                  (Scenario.api_error 429 "Too Many Requests"))
               Scenario.knight)
     = inl image_rate_limited
  /\ result (generateAvatarDescription (fun _ => NeverSettles)
               Scenario.describe_me)
     = inl description_timeout
  /\ result (generateAvatarImage RefParser.parseURL Scenario.token
               (fun _ => NeverSettles) Scenario.knight)
     = inl image_timeout.
Proof.
  pose (described :=
          mkDescriptionInput
            "I am a calm, creative problem solver who loves nature"
            "Pixel Art style from Minecraft").
  pose (image := mkImageInput "a pixel-art knight").
  split; [|split; [|split]].
  - apply (proj1 (failures_follow_taxonomy RefParser.parseURL Scenario.token
                    (fun _ => NeverSettles) (Scenario.fetch_returns 429)
                    Scenario.knight Scenario.describe_me image described
                    eq_refl eq_refl eq_refl)
             650 (mkResponse 429 (inr "{}") (inr (Obj []))) "{}");
      [reflexivity | lia | reflexivity | reflexivity].
  - apply (proj1 (proj2 (proj2 (proj2
             (failures_follow_taxonomy RefParser.parseURL Scenario.token
                (Scenario.run_rejects
                   (Scenario.api_error 429 "Too Many Requests"))
                (fun _ => NeverSettles)
                Scenario.knight Scenario.describe_me image described
                eq_refl eq_refl eq_refl))))
             800 (Scenario.api_error 429 "Too Many Requests") 429);
      [reflexivity | lia | reflexivity | reflexivity | reflexivity
       | reflexivity].
  - apply (proj1 (proj2 (proj2
             (failures_follow_taxonomy RefParser.parseURL Scenario.token
                (fun _ => NeverSettles) (fun _ => NeverSettles)
                Scenario.knight Scenario.describe_me image described
                eq_refl eq_refl eq_refl)))).
    reflexivity.
  - apply (proj2 (proj2 (proj2 (proj2 (proj2
             (failures_follow_taxonomy RefParser.parseURL Scenario.token
                (fun _ => NeverSettles) (fun _ => NeverSettles)
                Scenario.knight Scenario.describe_me image described
                eq_refl eq_refl eq_refl)))))).
    reflexivity.
Defined.

(** C4, as stated, fails in [generateAvatarImage]: a rejection with
    status 522 whose message says that the connection timed out is
    reported as a timeout, not as upstream-unavailable. *)
Lemma status_522_reported_as_timeout :
  let e := Scenario.api_error 522 "Connection timed out" in
  responseStatus e = Some 522
  /\ result (generateAvatarImage RefParser.parseURL Scenario.token
               (Scenario.run_rejects e) Scenario.knight)
     = inl image_timeout
  /\ image_timeout <> image_unavailable.
Proof. cbn zeta. repeat split. discriminate. Qed.

(** In [generateAvatarDescription] the status of a response whose body
    cannot be read is never looked at: a 401 whose stream breaks off is
    reported with the message of the stream's error, not as an
    authentication failure. *)
Example unreadable_body_hides_status :
  result (generateAvatarDescription
            (fun _ => Fulfills 650 (Scenario.unreadable 401 "terminated"))
            Scenario.describe_me)
  = inl (mkTRPCError INTERNAL_SERVER_ERROR "terminated").
Proof. reflexivity. Qed.

(** C10, the code at the failing input: the schema of
    [generateAvatarImage] accepts every string, so an empty prompt is
    passed on to [replicate.run]; the sibling procedure rejects an empty
    description at its input boundary, without any request. *)
Theorem generateAvatarImage_accepts_empty_prompt :
  (forall s, image_schema (Obj [("prompt", Str s)]) = inr (mkImageInput s))
  /\ generateAvatarImage RefParser.parseURL Scenario.token
       (Scenario.run_returns (Arr [Str Scenario.replicate_url]))
       Scenario.empty_prompt
     = mkCall [""] (inr Scenario.replicate_url)
  /\ generateAvatarDescription (Scenario.fetch_returns 200)
       (Obj [("description", Str "");
             ("gameStyle", Str "Pixel Art style from Minecraft")])
     = mkCall [] (inl (mkTRPCError BAD_REQUEST "Description is required")).
Proof. repeat split. Qed.

(* ===================================================================== *)
(** * Further properties *)
(* ===================================================================== *)

(** ** URL helpers taken together *)

(** X1.  For a source that passes [validateImageUrl], the details of a
    load error are those of a Replicate delivery error if
    [isLikelyTemporaryUrl] holds of it and the default ones otherwise;
    and for every source the type is [replicate_delivery_error] exactly
    when [isLikelyTemporaryUrl] holds. *)
Theorem getImageErrorDetails_of_valid_src
    (URL_parse : string -> option URL) (src : string)
    (Hvalid : validateImageUrl URL_parse (Some src) = true) :
  getImageErrorDetails URL_parse src
  = (if isLikelyTemporaryUrl URL_parse (Some src)
     then mkDetails "Failed to load Replicate image. The image might still be processing or is no longer available."
                    "replicate_delivery_error"
     else mkDetails "Failed to load image. Please try again." "unknown_error")
  /\ (forall other,
        type (getImageErrorDetails URL_parse other) = "replicate_delivery_error"
        <-> isLikelyTemporaryUrl URL_parse (Some other) = true).
Proof.
  split.
  - destruct (validateImageUrl_true _ _ Hvalid) as (Hne & x & Hx & Hp).
    unfold getImageErrorDetails, isLikelyTemporaryUrl.
    rewrite Hne, Hx, Hp.
    destruct (includes (hostname x) "replicate.delivery"); reflexivity.
  - intros other. unfold getImageErrorDetails, isLikelyTemporaryUrl.
    destruct (other =? "")%string; [split; discriminate|].
    destruct (URL_parse other) as [x|]; [|split; discriminate].
    destruct (includes (hostname x) "replicate.delivery");
      [split; reflexivity|].
    destruct (andb _ _); split; discriminate.
Qed.

(** X1, witness: the URL of the scenario. *)
Lemma getImageErrorDetails_of_valid_src_witness :
  type (getImageErrorDetails RefParser.parseURL Scenario.replicate_url)
  = "replicate_delivery_error".
Proof.
  rewrite (proj1 (getImageErrorDetails_of_valid_src RefParser.parseURL
                    Scenario.replicate_url eq_refl)).
  reflexivity.
Defined.

(** X2.  [normalizeImageUrl] never returns the empty string, and it
    returns [null] on [null], [undefined] and the empty string only. *)
Theorem normalizeImageUrl_never_empty
    (URL_parse : string -> option URL) (url : option string) :
  normalizeImageUrl URL_parse url <> Some ""
  /\ (normalizeImageUrl URL_parse url = None
      <-> url = None \/ url = Some "").
Proof.
  unfold normalizeImageUrl. destruct url as [s|].
  - destruct (s =? "")%string eqn:Es.
    + apply String.eqb_eq in Es. subst s.
      split; [discriminate|]. split; auto.
    + destruct (URL_parse s) as [x|].
      * split.
        -- intros H. injection H as H.
           pose proof (toString_nonempty (ensure_https x)) as Hn.
           rewrite H in Hn. discriminate.
        -- split; [discriminate|].
           intros [H | H]; [discriminate|].
           injection H as ->. discriminate.
      * split.
        -- intros H. injection H as ->. discriminate.
        -- split; [discriminate|].
           intros [H | H]; [discriminate|].
           injection H as ->. discriminate.
  - split; [discriminate|]. split; auto.
Qed.

(** X3.  Where the parser reads back the normalized URL: the result of
    [normalizeImageUrl] passes [validateImageUrl] when the given URL has
    a special scheme (other than a [file] URL with an empty host), and
    fails it when the scheme is not special. *)
Theorem normalizeImageUrl_then_validate
    (URL_parse : string -> option URL) (s : string) (parsedUrl : URL)
    (Hs : s <> "")
    (Hparse : URL_parse s = Some parsedUrl)
    (Hback : reads_back URL_parse (ensure_https parsedUrl)) :
  (is_special (scheme parsedUrl) = true ->
   ((scheme parsedUrl =? "file")%string
    && match host parsedUrl with
       | Some h => (h =? "")%string
       | None => false
       end)%bool = false ->
   validateImageUrl URL_parse (normalizeImageUrl URL_parse (Some s)) = true)
  /\ (is_special (scheme parsedUrl) = false ->
      validateImageUrl URL_parse (normalizeImageUrl URL_parse (Some s))
      = false).
Proof.
  apply String.eqb_neq in Hs.
  assert (E : validateImageUrl URL_parse (normalizeImageUrl URL_parse (Some s))
              = (protocol (ensure_https parsedUrl) =? "https:")%string).
  { unfold normalizeImageUrl. rewrite Hs, Hparse.
    unfold validateImageUrl. unfold reads_back in Hback.
    rewrite toString_nonempty, Hback.
    destruct (protocol (ensure_https parsedUrl) =? "https:")%string;
      cbn [negb]; [|reflexivity].
    destruct (includes _ _); reflexivity. }
  rewrite E. split.
  - intros Hsp Hfile. apply protocol_https. unfold ensure_https.
    destruct (protocol parsedUrl =? "https:")%string eqn:Ep; cbn [negb].
    + apply protocol_https. exact Ep.
    + apply set_protocol_https_special; assumption.
  - intros Hsp. apply Bool.not_true_is_false. intros Hp.
    apply protocol_https in Hp.
    assert (Hk : ensure_https parsedUrl = parsedUrl).
    { unfold ensure_https.
      destruct (protocol parsedUrl =? "https:")%string; cbn [negb];
        [reflexivity|].
      apply set_protocol_https_non_special. exact Hsp. }
    rewrite Hk in Hp. rewrite Hp in Hsp. discriminate.
Qed.

(** X3, witness: an [http] URL validates once normalized. *)
Lemma normalizeImageUrl_then_validate_witness :
  validateImageUrl RefParser.parseURL (Some Scenario.plain_http_url) = false
  /\ validateImageUrl RefParser.parseURL
       (normalizeImageUrl RefParser.parseURL (Some Scenario.plain_http_url))
     = true.
Proof.
  split; [reflexivity|].
  apply (proj1 (normalizeImageUrl_then_validate RefParser.parseURL
                  Scenario.plain_http_url
                  (mkURL "http" "" "" (Some "example.com") (Some 443)
                         (ListPath ["b.png"]) (Some "size=1%202") None)
                  ltac:(discriminate) eq_refl eq_refl));
    reflexivity.
Defined.

(** ** More on [loadImageWithRetry] *)

Lemma sum_of_doubling (d : Z) (n : nat) :
  fold_right Z.add 0 (map (fun i => d * 2 ^ Z.of_nat i) (seq 0 n))
  = d * (2 ^ Z.of_nat n - 1).
Proof.
  induction n as [|n IH].
  - cbn. lia.
  - rewrite seq_S, map_app, fold_right_app. cbn [map fold_right Nat.add].
    replace (fold_right Z.add (d * 2 ^ Z.of_nat n + 0)
               (map (fun i => d * 2 ^ Z.of_nat i) (seq 0 n)))
      with (d * 2 ^ Z.of_nat n
            + fold_right Z.add 0
                (map (fun i => d * 2 ^ Z.of_nat i) (seq 0 n))).
    + rewrite IH, Nat2Z.inj_succ, Z.pow_succ_r by lia. lia.
    + generalize (map (fun i => d * 2 ^ Z.of_nat i) (seq 0 n)).
      intros l. induction l as [|x l IHl]; cbn; lia.
Qed.

(** X4.  For a retry count and an initial delay that are not negative,
    with [initialDelay * 2 ^ maxRetries] at most [2 ^ 31 - 1]: every
    delay passed to [setTimeout] is an integer between 0 and
    [2 ^ 31 - 1], and after [k] retries the delays passed add up to
    [initialDelay * (2 ^ k - 1)]; that is
    [initialDelay * (2 ^ maxRetries - 1)] when the promise rejects. *)
Theorem loadImageWithRetry_total_delay
    (img : nat -> image_event) (maxRetries initialDelay : Z)
    (Hmax : 0 <= maxRetries)
    (Hdelay : 0 <= initialDelay)
    (Hrange : initialDelay * 2 ^ maxRetries <= 2147483647) :
  let r := loadImageWithRetry img maxRetries initialDelay in
  exists ms,
    delays r = map Finite ms
    /\ length ms = (attempts r - 1)%nat
    /\ Forall (fun d => 0 <= d <= 2147483647) ms
    /\ fold_right Z.add 0 ms
       = initialDelay * (2 ^ Z.of_nat (attempts r - 1) - 1)
    /\ (forall reason, outcome r = Rejected reason ->
          fold_right Z.add 0 ms = initialDelay * (2 ^ maxRetries - 1)).
Proof.
  unfold loadImageWithRetry.
  destruct (attemptLoad_run img maxRetries 0 0 (Finite initialDelay)
              ltac:(lia))
    as (H1 & H2 & _ & H4 & H5).
  set (r := attemptLoad img maxRetries 0 0 (Finite initialDelay)) in *.
  cbn zeta.
  assert (Hbound : forall i, (i < attempts r - 1)%nat ->
                     0 <= initialDelay * 2 ^ Z.of_nat i <= 2147483647).
  { intros i Hi.
    assert (0 < 2 ^ Z.of_nat i) by (apply Z.pow_pos_nonneg; lia).
    assert (2 ^ Z.of_nat i <= 2 ^ maxRetries)
      by (apply Z.pow_le_mono_r; lia).
    split; nia. }
  exists (map (fun i => initialDelay * 2 ^ Z.of_nat i)
              (seq 0 (attempts r - 1))).
  split; [|split; [|split; [|split]]].
  - rewrite H5, map_map. apply map_ext_in. intros i Hi.
    apply in_seq in Hi. rewrite iter_times2.
    destruct i as [|i]; cbn [doubled].
    + rewrite Z.pow_0_r, Z.mul_1_r. reflexivity.
    + replace (Z.abs (initialDelay * 2 ^ Z.of_nat (S i)) <? double_limit)
        with true; [reflexivity|].
      symmetry. apply Z.ltb_lt.
      pose proof (Hbound (S i) ltac:(lia)) as Hb.
      assert (2147483647 < double_limit) by reflexivity.
      lia.
  - rewrite length_map, length_seq. reflexivity.
  - apply Forall_forall. intros d Hd. apply in_map_iff in Hd.
    destruct Hd as (i & <- & Hi). apply in_seq in Hi. apply Hbound. lia.
  - apply sum_of_doubling.
  - intros reason Hr. rewrite Hr in H4. destruct H4 as [_ H4].
    rewrite sum_of_doubling.
    replace (Z.of_nat (attempts r - 1)) with maxRetries by lia.
    reflexivity.
Qed.

(** X4, witness: three retries from one second pass seven seconds in
    all. *)
Lemma loadImageWithRetry_total_delay_witness :
  exists ms,
    delays (loadImageWithRetry Scenario.always_fails 3 1000) = map Finite ms
    /\ fold_right Z.add 0 ms = 7000.
Proof.
  destruct (loadImageWithRetry_total_delay Scenario.always_fails 3 1000
              ltac:(lia) ltac:(lia) ltac:(lia))
    as (ms & H1 & _ & _ & H4 & _).
  exists ms. split; [exact H1|].
  rewrite H4. reflexivity.
Defined.

Lemma attemptLoad_exhausted
    (img : nat -> image_event) (maxRetries : Z) (n : nat)
    (retries : Z) (delay : number) :
  maxRetries <= retries ->
  attempts (attemptLoad img maxRetries n retries delay) = 1%nat
  /\ delays (attemptLoad img maxRetries n retries delay) = []
  /\ match img n with
     | OnLoad => outcome (attemptLoad img maxRetries n retries delay)
                 = Resolved
     | OnError =>
         exists reason,
           outcome (attemptLoad img maxRetries n retries delay)
           = Rejected reason
     | NoEvent => outcome (attemptLoad img maxRetries n retries delay)
                  = Pending
     end.
Proof.
  funelim (attemptLoad img maxRetries n retries delay); intros Hle;
    try lia;
    match goal with H : img _ = _ |- _ => rewrite H end;
    repeat split.
  eexists. reflexivity.
Qed.

(** X5.  With a retry count of zero or less the loader makes a single
    attempt and sets no timer: it resolves, rejects or stays pending as
    that one image loads, fails or does neither. *)
Theorem loadImageWithRetry_no_retries
    (img : nat -> image_event) (maxRetries initialDelay : Z)
    (Hmax : maxRetries <= 0) :
  let r := loadImageWithRetry img maxRetries initialDelay in
  attempts r = 1%nat
  /\ delays r = []
  /\ match img 0%nat with
     | OnLoad => outcome r = Resolved
     | OnError => exists reason, outcome r = Rejected reason
     | NoEvent => outcome r = Pending
     end.
Proof.
  unfold loadImageWithRetry. cbn zeta.
  apply attemptLoad_exhausted. lia.
Qed.

(** X5, witness: a retry count of zero. *)
Lemma loadImageWithRetry_no_retries_witness :
  attempts (loadImageWithRetry Scenario.always_fails 0 1000) = 1%nat
  /\ delays (loadImageWithRetry Scenario.always_fails 0 1000) = [].
Proof.
  destruct (loadImageWithRetry_no_retries Scenario.always_fails 0 1000
              ltac:(lia)) as (H1 & H2 & _).
  split; assumption.
Defined.

(** X6.  For a retry count that is not negative, the promise stays
    pending exactly when, within the first [maxRetries + 1] attempts, an
    image fires neither event after all earlier ones failed: the loader
    has no timeout of its own. *)
Theorem loadImageWithRetry_pending
    (img : nat -> image_event) (maxRetries initialDelay : Z)
    (Hmax : 0 <= maxRetries) :
  outcome (loadImageWithRetry img maxRetries initialDelay) = Pending
  <-> exists k, Z.of_nat k <= maxRetries /\ img k = NoEvent
                /\ forall j, (j < k)%nat -> img j = OnError.
Proof.
  unfold loadImageWithRetry.
  destruct (attemptLoad_run img maxRetries 0 0 (Finite initialDelay) Hmax)
    as (H1 & H2 & H3 & H4 & _).
  set (r := attemptLoad img maxRetries 0 0 (Finite initialDelay)) in *.
  cbn [Nat.add] in H3, H4. split.
  - intros Hp. rewrite Hp in H4.
    exists (attempts r - 1)%nat. repeat split; [lia | exact H4 | exact H3].
  - intros (k & Hk & Hev & Hpre).
    assert (E : (attempts r - 1)%nat = k).
    { destruct (Nat.lt_trichotomy (attempts r - 1) k) as [Hlt | [Heq | Hgt]].
      - specialize (Hpre _ Hlt). destruct (outcome r); try congruence.
        destruct H4 as [_ H4]. lia.
      - exact Heq.
      - specialize (H3 k Hgt). congruence. }
    rewrite E in H4. destruct (outcome r); try congruence.
    destruct H4 as [H4 _]. congruence.
Qed.

(** X6, witness: an image that never answers at the first attempt. *)
Lemma loadImageWithRetry_pending_witness :
  outcome (loadImageWithRetry (fun _ => NoEvent) 3 1000) = Pending.
Proof.
  apply (loadImageWithRetry_pending (fun _ => NoEvent) 3 1000 ltac:(lia)).
  exists 0%nat. repeat split; [lia | intros j Hj; lia].
Defined.

(** ** More on the [AvatarImage] component *)

Import MoreNotions.

Lemma timerSafe_of_view (c c' : Component) :
  timeoutRef c' = timeoutRef c ->
  isImageLoaded (hooks c') = isImageLoaded (hooks c) ->
  hasError (hooks c') = hasError (hooks c) ->
  cleanupDue c' = cleanupDue c ->
  timerSafe c -> timerSafe c'.
Proof.
  unfold timerSafe, timerArmed. intros -> -> -> ->. auto.
Qed.

Lemma timerSafe_disarmed (c : Component) :
  timerArmed c = false -> timerSafe c.
Proof. unfold timerSafe. congruence. Qed.

Lemma timerArmed_clearTimeoutRef (c : Component) :
  timerArmed (clearTimeoutRef c) = false.
Proof.
  unfold timerArmed. rewrite timeoutRef_clearTimeoutRef. reflexivity.
Qed.

Lemma timeoutRef_reportError
    (onError : option nat) (type message : string) (c : Component) :
  timeoutRef (reportError onError type message c) = timeoutRef c.
Proof.
  unfold reportError. destruct onError; [|reflexivity].
  destruct (negb _); reflexivity.
Qed.

Lemma hooks_reportError
    (onError : option nat) (type message : string) (c : Component) :
  hooks (reportError onError type message c) = hooks c.
Proof.
  unfold reportError. destruct onError; [|reflexivity].
  destruct (negb _); reflexivity.
Qed.

Lemma cleanupDue_reportError
    (onError : option nat) (type message : string) (c : Component) :
  cleanupDue (reportError onError type message c) = cleanupDue c.
Proof.
  unfold reportError. destruct onError; [|reflexivity].
  destruct (negb _); reflexivity.
Qed.

Lemma hooks_clearTimeoutRef (c : Component) :
  hooks (clearTimeoutRef c) = hooks c.
Proof. unfold clearTimeoutRef. destruct (timeoutRef c); reflexivity. Qed.

Lemma hooks_preloadEffect
    (URL_parse : string -> option URL) (h : Hooks) (c : Component) :
  hooks (preloadEffect URL_parse h c) = hooks c.
Proof.
  unfold preloadEffect. destruct (normalizedUrl h); [|reflexivity].
  destruct (orb _ _); reflexivity.
Qed.

Lemma cleanupDue_preloadEffect
    (URL_parse : string -> option URL) (h : Hooks) (c : Component) :
  cleanupDue (preloadEffect URL_parse h c) = cleanupDue c.
Proof.
  unfold preloadEffect. destruct (normalizedUrl h); [|reflexivity].
  destruct (orb _ _); reflexivity.
Qed.

Section Timer.

Variable URL_parse : string -> option URL.

(** The validation effect, run on a component without an armed timer
    and with the state of its render, leaves the timer safe. *)
Lemma timerSafe_validateEffect (p : Props) (c : Component) :
  timerArmed c = false ->
  timerSafe (validateEffect URL_parse p (hooks c) c).
Proof.
  intros Hd. unfold validateEffect.
  destruct (orb _ (isLoading p)).
  { apply timerSafe_disarmed. exact Hd. }
  destruct (negb (validateImageUrl _ _)).
  { apply timerSafe_disarmed. unfold timerArmed. cbn [timeoutRef setCleanupDue].
    rewrite timeoutRef_reportError. exact Hd. }
  cbv zeta.
  destruct (normalizeImageUrl URL_parse (Some (imageUrl p))) as [n|].
  - destruct (n =? "")%string.
    + apply timerSafe_disarmed. unfold timerArmed.
      cbn [timeoutRef setCleanupDue].
      rewrite timeoutRef_clearTimeoutRef. reflexivity.
    + unfold timerSafe, timerArmed.
      cbn [timeoutRef setCleanupDue setTimeoutRef live sawLoaded sawError
           cleanupDue hooks andb].
      intros Ha. apply Bool.andb_true_iff in Ha as [Hl He].
      apply Bool.negb_true_iff in Hl, He.
      rewrite hooks_clearTimeoutRef.
      destruct (negb (option_string_eqb (Some n) (normalizedUrl (hooks c))));
        cbn; auto.
  - apply timerSafe_disarmed. unfold timerArmed.
    cbn [timeoutRef setCleanupDue].
    rewrite timeoutRef_clearTimeoutRef. reflexivity.
Qed.

Lemma timerSafe_renderAndCommit (p : Props) (c : Component) :
  timerSafe c -> timerSafe (renderAndCommit URL_parse p c).
Proof.
  intros Hs. unfold renderAndCommit.
  set (dues := match lastRender c with
               | Some (p0, h0) =>
                   (negb (imageUrl p0 =? imageUrl p)%string,
                    hooksDeps2Changed p0 p h0 (hooks c),
                    hooksDeps3Changed h0 (hooks c))
               | None => (true, true, true)
               end).
  destruct dues as [[due1 due2] due3].
  apply (timerSafe_of_view
           (let c1 := if (due2 && cleanupDue c)%bool
                      then clearTimeoutRef c else c in
            let c2 := if due1 then resetReportedEffect c1 else c1 in
            if due2 then validateEffect URL_parse p (hooks c) c2 else c2)).
  - cbn zeta. destruct due3; cbn [setLastRender timeoutRef];
      rewrite ?timeoutRef_preloadEffect; reflexivity.
  - cbn zeta. destruct due3; cbn [setLastRender hooks];
      rewrite ?hooks_preloadEffect; reflexivity.
  - cbn zeta. destruct due3; cbn [setLastRender hooks];
      rewrite ?hooks_preloadEffect; reflexivity.
  - cbn zeta. destruct due3; cbn [setLastRender cleanupDue];
      rewrite ?cleanupDue_preloadEffect; reflexivity.
  - cbn zeta. destruct due2; cbn [andb].
    + assert (Hd : timerArmed
                     (if cleanupDue c then clearTimeoutRef c else c)
                   = false).
      { destruct (cleanupDue c) eqn:Ec;
          [apply timerArmed_clearTimeoutRef|].
        destruct (timerArmed c) eqn:Ea; [|reflexivity].
        destruct (Hs Ea) as (_ & _ & H). congruence. }
      assert (Hh : hooks (if cleanupDue c then clearTimeoutRef c else c)
                   = hooks c).
      { destruct (cleanupDue c); [apply hooks_clearTimeoutRef | reflexivity]. }
      destruct due1.
      * rewrite <- Hh.
        change (hooks (if cleanupDue c then clearTimeoutRef c else c))
          with (hooks (resetReportedEffect
                         (if cleanupDue c then clearTimeoutRef c else c))).
        apply timerSafe_validateEffect. exact Hd.
      * rewrite <- Hh. apply timerSafe_validateEffect. exact Hd.
    + destruct due1; [|exact Hs].
      revert Hs. apply timerSafe_of_view; reflexivity.
Qed.

Lemma timerSafe_step (c : Component) (e : Event) :
  timerSafe c -> timerSafe (step URL_parse c e).
Proof.
  intros Hs. destruct e as [p| |src| |i img]; cbn [step].
  - apply timerSafe_renderAndCommit. exact Hs.
  - destruct (lastRender c) as [[p h]|]; [|exact Hs].
    destruct (imageShown _); [|exact Hs].
    apply timerSafe_disarmed. apply timerArmed_clearTimeoutRef.
  - destruct (lastRender c) as [[p h]|]; [|exact Hs].
    destruct (imageShown _); [|exact Hs].
    unfold handleImageError. cbv zeta.
    destruct (retryCount h <? maxRetries).
    + destruct (retryCount h =? 0); revert Hs;
        apply timerSafe_of_view; reflexivity.
    + apply timerSafe_disarmed. apply timerArmed_clearTimeoutRef.
  - destruct (timeoutRef c) as [t|] eqn:Et; [|exact Hs].
    destruct (live t); [|exact Hs].
    apply timerSafe_disarmed. unfold timerArmed, timeoutCallback.
    destruct (andb _ _); cbn [update timeoutRef setTimeoutRef];
      rewrite ?timeoutRef_reportError; reflexivity.
  - destruct (nth_error (preloads c) i); [|exact Hs].
    destruct (outcome _); try exact Hs; revert Hs;
      apply timerSafe_of_view; reflexivity.
Qed.

Lemma timerSafe_run (events : list Event) (c : Component) :
  timerSafe c -> timerSafe (run URL_parse c events).
Proof.
  revert c. induction events as [|e events IH]; intros c Hs; [exact Hs|].
  cbn [run fold_left]. apply IH. apply timerSafe_step. exact Hs.
Qed.

End Timer.

(** X7.  Whatever happened since the component was created (renders
    with any props, image events, timer firings, preload settlements):
    when the image is loaded or the error state is set, a firing timer
    changes neither the state nor what was reported.  The timeout never
    replaces a loaded image or an error. *)
Theorem timeout_never_overrides
    (URL_parse : string -> option URL) (events : list Event)
    (Hsettled :
       isImageLoaded (hooks (run URL_parse initial events)) = true
       \/ hasError (hooks (run URL_parse initial events)) = true) :
  let c := run URL_parse initial events in
  hooks (step URL_parse c TimeoutFires) = hooks c
  /\ onErrorCalls (step URL_parse c TimeoutFires) = onErrorCalls c.
Proof.
  cbn zeta.
  pose proof (timerSafe_run URL_parse events initial
                (timerSafe_disarmed initial eq_refl)) as Hs.
  set (c := run URL_parse initial events) in *.
  cbn [step]. unfold timerSafe, timerArmed in Hs.
  destruct (timeoutRef c) as [t|]; [|split; reflexivity].
  destruct (live t); [|split; reflexivity].
  unfold timeoutCallback.
  destruct (negb (sawLoaded t) && negb (sawError t))%bool eqn:Ea;
    [|split; reflexivity].
  cbn [andb] in Hs. destruct (Hs Ea) as (Hl & He & _).
  destruct Hsettled; congruence.
Qed.

(** X7, witness: the image loads, the component re-renders, and the
    timer set by that render fires. *)
Lemma timeout_never_overrides_witness :
  let c := run RefParser.parseURL initial
             [Render Scenario.props; Render Scenario.props; ImageLoads;
              Render Scenario.props] in
  live_timer_pending c = true
  /\ hooks (step RefParser.parseURL c TimeoutFires) = hooks c.
Proof.
  cbn zeta. split; [reflexivity|].
  apply (timeout_never_overrides RefParser.parseURL
           [Render Scenario.props; Render Scenario.props; ImageLoads;
            Render Scenario.props]).
  left. reflexivity.
Defined.

Lemma render_TimeoutPanel (p : Props) (h : Hooks) :
  render p h = TimeoutPanel
  <-> isLoading p = false /\ loadingTimeout h = true
      /\ isImageLoaded h = false /\ hasError h = false.
Proof.
  unfold render. split.
  - destruct (isLoading p); [discriminate|].
    destruct (loadingTimeout h), (isImageLoaded h), (hasError h);
      cbn [andb negb]; try discriminate; auto;
      destruct (normalizedUrl h) as [n|]; try discriminate;
      destruct (andb _ _); discriminate.
  - intros (-> & -> & -> & ->). reflexivity.
Qed.

Lemma option_string_eqb_true (a b : option string) :
  option_string_eqb a b = true -> a = b.
Proof.
  destruct a as [x|], b as [y|]; cbn; intros H; try reflexivity;
    try discriminate.
  apply String.eqb_eq in H. congruence.
Qed.

Lemma option_string_eqb_refl (a : option string) :
  option_string_eqb a a = true.
Proof. destruct a as [x|]; cbn; [apply String.eqb_refl | reflexivity]. Qed.

Lemma hooksDeps2_unchanged (p0 p : Props) (h0 h : Hooks) :
  hooksDeps2Changed p0 p h0 h = false ->
  imageUrl p0 = imageUrl p /\ isLoading p0 = isLoading p.
Proof.
  unfold hooksDeps2Changed. intros H. apply Bool.negb_false_iff in H.
  repeat (apply Bool.andb_true_iff in H; destruct H as [H ?]).
  split; [apply String.eqb_eq; assumption | apply Bool.eqb_prop; assumption].
Qed.

Lemma settledFor_of (URL_parse : string -> option URL) (p : Props)
                    (s s' : Hooks) :
  normalizedUrl s' = normalizedUrl s ->
  (hasError s = true \/ isImageLoaded s = true ->
   hasError s' = true \/ isImageLoaded s' = true) ->
  settledFor URL_parse p s -> settledFor URL_parse p s'.
Proof.
  unfold settledFor. intros Hn He.
  destruct (orb _ (isLoading p)); [congruence|].
  destruct (negb _); [exact He | congruence].
Qed.

Lemma settledFor_same_url (URL_parse : string -> option URL)
                          (p0 p : Props) (s : Hooks) :
  imageUrl p0 = imageUrl p -> isLoading p0 = isLoading p ->
  settledFor URL_parse p0 s -> settledFor URL_parse p s.
Proof. unfold settledFor. intros -> ->. auto. Qed.

Section TimedOut.

Variable URL_parse : string -> option URL.

(** A render fixes the state it saw; its commit either runs the
    validation effect on a component with that state, or leaves the
    state as it is because no dependency of that effect changed. *)
Lemma renderAndCommit_cases (p : Props) (c : Component) :
  lastRender (renderAndCommit URL_parse p c) = Some (p, hooks c)
  /\ ((exists c',
         hooks c' = hooks c
         /\ hooks (renderAndCommit URL_parse p c)
            = hooks (validateEffect URL_parse p (hooks c) c'))
      \/ (hooks (renderAndCommit URL_parse p c) = hooks c
          /\ exists p0 h0,
               lastRender c = Some (p0, h0)
               /\ hooksDeps2Changed p0 p h0 (hooks c) = false)).
Proof.
  unfold renderAndCommit.
  destruct (lastRender c) as [[p0 h0]|] eqn:El.
  - destruct (hooksDeps2Changed p0 p h0 (hooks c)) eqn:D2;
      destruct (negb (imageUrl p0 =? imageUrl p)%string);
      destruct (hooksDeps3Changed h0 (hooks c));
      destruct (cleanupDue c); cbn [andb];
      (split; [reflexivity|]).
    all: try (left; eexists; split;
              [|cbn [setLastRender hooks];
                rewrite ?hooks_preloadEffect; reflexivity];
              unfold resetReportedEffect;
              cbn [setErrorReportedRef hooks];
              rewrite ?hooks_clearTimeoutRef; reflexivity).
    all: right; split;
      [cbn [setLastRender hooks]; rewrite ?hooks_preloadEffect;
       unfold resetReportedEffect; cbn [setErrorReportedRef hooks];
       reflexivity
      |exists p0, h0; split; [reflexivity | exact D2]].
  - cbv iota beta. destruct (cleanupDue c); cbn [andb];
      (split; [reflexivity|]).
    all: left; eexists; split;
      [|cbn [setLastRender hooks]; rewrite ?hooks_preloadEffect;
        reflexivity];
      unfold resetReportedEffect; cbn [setErrorReportedRef hooks];
      rewrite ?hooks_clearTimeoutRef; reflexivity.
Qed.

(** The validation effect, run with the state of its render, settles
    the state for the props of that render. *)
Lemma settledFor_validateEffect (p : Props) (c : Component) :
  settledFor URL_parse p
    (hooks (validateEffect URL_parse p (hooks c) c)).
Proof.
  unfold settledFor, validateEffect.
  destruct (orb _ (isLoading p)); [reflexivity|].
  destruct (negb (validateImageUrl _ _)).
  { left. cbn [setCleanupDue hooks]. rewrite hooks_reportError.
    reflexivity. }
  cbv zeta. cbn [negb].
  set (normalized := normalizeImageUrl URL_parse (Some (imageUrl p))).
  assert (E : forall c0 : Component,
            hooks (setCleanupDue true
                     match normalized with
                     | Some n =>
                         if (n =? "")%string then clearTimeoutRef c0
                         else
                           setTimeoutRef
                             (Some (mkTimer
                                      (timeoutDuration URL_parse normalized)
                                      (isImageLoaded (hooks c))
                                      (hasError (hooks c)) (onError p) true))
                             (clearTimeoutRef c0)
                     | None => clearTimeoutRef c0
                     end)
            = hooks c0).
  { intros c0. destruct normalized as [n|];
      [destruct (n =? "")%string|];
      cbn [setCleanupDue setTimeoutRef hooks];
      apply hooks_clearTimeoutRef. }
  rewrite E.
  destruct (option_string_eqb normalized (normalizedUrl (hooks c))) eqn:En;
    cbn [negb].
  - symmetry. apply option_string_eqb_true. exact En.
  - reflexivity.
Qed.

Lemma validated_step (c : Component) (e : Event) :
  validated URL_parse c -> validated URL_parse (step URL_parse c e).
Proof.
  intros Hv. destruct e as [p| |src| |i img]; cbn [step].
  - unfold validated.
    destruct (renderAndCommit_cases p c) as [Hl [(c' & Hc' & Hh) | (Hh & p0 & h0 & Hl0 & D2)]];
      rewrite Hl, Hh.
    + rewrite <- Hc'. apply settledFor_validateEffect.
    + unfold validated in Hv. rewrite Hl0 in Hv.
      destruct (hooksDeps2_unchanged _ _ _ _ D2) as [Hu Hi].
      apply (settledFor_same_url URL_parse p0 p); assumption.
  - unfold validated in *.
    destruct (lastRender c) as [[p h]|] eqn:El; [|rewrite El; exact I].
    destruct (imageShown _); [|rewrite El; exact Hv].
    unfold handleImageLoad.
    assert (Hl : lastRender
                   (clearTimeoutRef
                      (update
                         (fun s =>
                            setLoadingTimeout false
                              (setErrorMessage None
                                 (setErrorType None
                                    (setHasError false
                                       (setIsImageLoaded true s))))) c))
                 = lastRender c).
    { unfold clearTimeoutRef. cbn [update timeoutRef].
      destruct (timeoutRef c); reflexivity. }
    rewrite Hl, El, hooks_clearTimeoutRef. cbn [update hooks].
    revert Hv. apply settledFor_of; [reflexivity|].
    intros _. right. reflexivity.
  - unfold validated in *.
    destruct (lastRender c) as [[p h]|] eqn:El; [|rewrite El; exact I].
    destruct (imageShown _); [|rewrite El; exact Hv].
    unfold handleImageError. cbv zeta.
    destruct (retryCount h <? maxRetries).
    + destruct (retryCount h =? 0); cbn [update lastRender hooks];
        rewrite El; revert Hv; apply settledFor_of;
        try reflexivity; auto.
    + assert (Hl : forall c0 : Component,
                lastRender
                  (clearTimeoutRef
                     (reportError (onError p)
                        (type (getImageErrorDetails URL_parse src))
                        (ImageUtils.message
                           (getImageErrorDetails URL_parse src)) c0))
                = lastRender c0).
      { intros c0. unfold clearTimeoutRef, reportError.
        destruct (onError p); [destruct (negb (errorReportedRef c0))|];
          cbn; match goal with
               | |- context [timeoutRef ?x] => destruct (timeoutRef x)
               end; reflexivity. }
      rewrite Hl. cbn [update lastRender]. rewrite El.
      rewrite hooks_clearTimeoutRef, hooks_reportError. cbn [update hooks].
      revert Hv. apply settledFor_of; [reflexivity|].
      intros _. left. reflexivity.
  - unfold validated in *.
    destruct (timeoutRef c) as [t|]; [|exact Hv].
    destruct (live t); [|exact Hv].
    unfold timeoutCallback.
    destruct (andb _ _); [|exact Hv].
    cbn [update lastRender hooks].
    assert (Hl : forall c0 : Component,
              lastRender
                (reportError (sawOnError t) "timeout"
                   "Image is taking too long to load. It might still be processing."
                   c0) = lastRender c0).
    { intros c0. unfold reportError. destruct (sawOnError t);
        [|reflexivity]. destruct (negb _); reflexivity. }
    rewrite Hl, hooks_reportError. cbn [update setTimeoutRef lastRender hooks].
    destruct (lastRender c) as [[p h]|]; [|exact I].
    revert Hv. apply settledFor_of; [reflexivity | auto].
  - unfold validated in *.
    destruct (nth_error (preloads c) i); [|exact Hv].
    destruct (outcome _); try exact Hv;
      cbn [preloadFailed update setPreloads lastRender hooks];
      destruct (lastRender c) as [[p h]|]; try exact I;
      revert Hv; apply settledFor_of; try reflexivity; auto.
Qed.

Lemma validated_run (events : list Event) (c : Component) :
  validated URL_parse c -> validated URL_parse (run URL_parse c events).
Proof.
  revert c. induction events as [|e events IH]; intros c Hv; [exact Hv|].
  cbn [run fold_left]. apply IH. apply validated_step. exact Hv.
Qed.

(** On a settled state that calls for the panel, the validation effect
    changes nothing that the panel depends on. *)
Lemma panel_validateEffect (p : Props) (c : Component) :
  settledFor URL_parse p (hooks c) ->
  render p (hooks c) = TimeoutPanel ->
  render p (hooks (validateEffect URL_parse p (hooks c) c)) = TimeoutPanel.
Proof.
  intros Hs Hv.
  pose proof (proj1 (render_TimeoutPanel p (hooks c)) Hv)
    as (Hp & Ht & Hi & Hh).
  unfold settledFor in Hs. unfold validateEffect.
  destruct (orb _ (isLoading p)).
  { apply render_TimeoutPanel. cbn. auto. }
  destruct (negb (validateImageUrl _ _)).
  { destruct Hs; congruence. }
  cbv zeta. rewrite <- Hs, option_string_eqb_refl. cbn [negb].
  replace (hooks _) with (hooks c); [exact Hv|].
  destruct (normalizedUrl (hooks c)) as [n|];
    [destruct (n =? "")%string|];
    cbn [setCleanupDue setTimeoutRef hooks];
    rewrite hooks_clearTimeoutRef; reflexivity.
Qed.

Lemma panelShown_step (p : Props) (c : Component) (e : Event) :
  validated URL_parse c -> panelShown p c -> keepsProps p e ->
  panelShown p (step URL_parse c e).
Proof.
  intros Hval (h & Hl & Hv & Hc) He.
  pose proof (proj1 (render_TimeoutPanel p (hooks c)) Hc)
    as (Hp & Ht' & Hi' & Hh').
  destruct e as [q| |src| |i img]; cbn [step].
  - cbn [keepsProps] in He. subst q.
    destruct (renderAndCommit_cases p c)
      as [Hl' [(c' & Hc' & Hh) | (Hh & _)]];
      exists (hooks c); rewrite Hl', Hh;
      (split; [reflexivity|]); (split; [exact Hc|]); [|exact Hc].
    unfold validated in Hval. rewrite Hl in Hval.
    rewrite <- Hc'. rewrite <- Hc' in Hval, Hc.
    apply panel_validateEffect; assumption.
  - rewrite Hl, Hv. cbn [imageShown]. exists h. repeat split; assumption.
  - rewrite Hl, Hv. cbn [imageShown]. exists h. repeat split; assumption.
  - destruct (timeoutRef c) as [t|];
      [|exists h; repeat split; assumption].
    destruct (live t); [|exists h; repeat split; assumption].
    exists h. unfold timeoutCallback.
    destruct (andb _ _).
    + cbn [update lastRender hooks].
      assert (E : forall c0 : Component,
                 lastRender
                   (reportError (sawOnError t) "timeout"
                      "Image is taking too long to load. It might still be processing."
                      c0) = lastRender c0).
      { intros c0. unfold reportError. destruct (sawOnError t);
          [|reflexivity]. destruct (negb _); reflexivity. }
      rewrite E, hooks_reportError. cbn [update setTimeoutRef lastRender hooks].
      repeat split; try assumption.
      apply render_TimeoutPanel. cbn. auto.
    + cbn [setTimeoutRef lastRender hooks]. repeat split; assumption.
  - destruct (nth_error (preloads c) i);
      [|exists h; repeat split; assumption].
    destruct (outcome _); exists h;
      cbn [preloadFailed update setPreloads lastRender hooks];
      repeat split; assumption.
Qed.

Lemma panelShown_run (p : Props) (events : list Event) (c : Component) :
  validated URL_parse c -> panelShown p c ->
  Forall (keepsProps p) events ->
  panelShown p (run URL_parse c events).
Proof.
  revert c. induction events as [|e events IH]; intros c Hv Hc He;
    [exact Hc|].
  inversion He as [|? ? He1 He2]; subst.
  cbn [run fold_left]. apply IH; [| |exact He2].
  - apply validated_step. exact Hv.
  - apply panelShown_step; assumption.
Qed.

End TimedOut.

(** X8.  Take the component after any events since it was created, with
    the timeout panel on screen and called for by the state: the last
    render returned the panel and a render with the same props would
    return it again.  From there the component shows the panel for as
    long as its props stay the same: the panel replaces the image
    element, so no load or error event reaches the handlers, and neither
    timer firings nor preload settlements nor further renders change the
    view.  In particular the image is never marked loaded. *)
Theorem timeout_panel_stays
    (URL_parse : string -> option URL) (p : Props)
    (history events : list Event)
    (Hpanel : panelShown p (run URL_parse initial history))
    (Hprops : Forall (keepsProps p) events) :
  let c := run URL_parse (run URL_parse initial history) events in
  panelShown p c
  /\ render p (hooks c) = TimeoutPanel
  /\ isImageLoaded (hooks c) = false.
Proof.
  cbn zeta.
  assert (Hval : validated URL_parse (run URL_parse initial history))
    by (apply validated_run; exact I).
  pose proof (panelShown_run URL_parse p events _ Hval Hpanel Hprops) as H.
  split; [exact H|].
  destruct H as (h & _ & _ & Hc).
  split; [exact Hc|].
  apply (render_TimeoutPanel p). exact Hc.
Qed.

(** X8, witness: after the timer fired and the panel was rendered, a
    load event and a successful preload change nothing. *)
Lemma timeout_panel_stays_witness :
  let c := run RefParser.parseURL initial
             [Render Scenario.props; Render Scenario.props; TimeoutFires;
              Render Scenario.props] in
  render Scenario.props
    (hooks (run RefParser.parseURL c
              [ImageLoads; PreloadSettles 0 (fun _ => OnLoad);
               Render Scenario.props; ImageLoads]))
  = TimeoutPanel.
Proof.
  cbn zeta.
  apply (timeout_panel_stays RefParser.parseURL Scenario.props
           [Render Scenario.props; Render Scenario.props; TimeoutFires;
            Render Scenario.props]
           [ImageLoads; PreloadSettles 0 (fun _ => OnLoad);
            Render Scenario.props; ImageLoads]).
  - exists (mkHooks false false None None 0 true
                    (Some Scenario.replicate_url) true).
    split; [vm_compute; reflexivity|].
    split; vm_compute; reflexivity.
  - repeat constructor.
Defined.

(** The state must call for the panel: a render that returns it while
    its own commit revalidates the URL, here after [isLoading] went back
    to [false], is followed by a render that shows the image again. *)
Example panel_lost_after_loading :
  let c := run RefParser.parseURL initial
             [Render Scenario.props; Render Scenario.props; TimeoutFires;
              Render Scenario.props;
              Render MoreScenario.loading_props;
              Render MoreScenario.loading_props] in
  render Scenario.props (hooks c) = TimeoutPanel
  /\ render Scenario.props
       (hooks (step RefParser.parseURL c (Render Scenario.props)))
     = NextImage (Some Scenario.replicate_url).
Proof. vm_compute. split; reflexivity. Qed.

Lemma errorReportedRef_preloadEffect
    (URL_parse : string -> option URL) (h : Hooks) (c : Component) :
  errorReportedRef (preloadEffect URL_parse h c) = errorReportedRef c.
Proof.
  unfold preloadEffect. destruct (normalizedUrl h); [|reflexivity].
  destruct (orb _ _); reflexivity.
Qed.

Lemma onErrorCalls_preloadEffect
    (URL_parse : string -> option URL) (h : Hooks) (c : Component) :
  onErrorCalls (preloadEffect URL_parse h c) = onErrorCalls c.
Proof.
  unfold preloadEffect. destruct (normalizedUrl h); [|reflexivity].
  destruct (orb _ _); reflexivity.
Qed.

Lemma option_string_eqb_neq (a b : option string) :
  a <> b -> option_string_eqb a b = false.
Proof.
  destruct a as [x|], b as [y|]; cbn; intros H; try reflexivity;
    try congruence.
  apply String.eqb_neq. congruence.
Qed.

(** X9.  A render with another [imageUrl] (or the first render), for a
    URL that passes validation and whose normalized form differs from
    the one in the state, resets every state cell (loaded flag, error,
    retry count, timeout flag, fallback flag) to its initial value, with
    the new normalized URL, and leaves the guard of [reportError]
    unset, without reporting anything. *)
Theorem new_url_resets_state
    (URL_parse : string -> option URL) (c : Component) (p : Props)
    (Hchange : renderedUrl c <> Some (imageUrl p))
    (Hloading : isLoading p = false)
    (Hblank : trim (imageUrl p) <> "")
    (Hvalid : validateImageUrl URL_parse (Some (imageUrl p)) = true)
    (Hnew : normalizeImageUrl URL_parse (Some (imageUrl p))
            <> normalizedUrl (hooks c)) :
  let c' := step URL_parse c (Render p) in
  hooks c'
  = mkHooks false false None None 0 false
            (normalizeImageUrl URL_parse (Some (imageUrl p))) false
  /\ errorReportedRef c' = false
  /\ onErrorCalls c' = onErrorCalls c.
Proof.
  cbn zeta. cbn [step]. unfold renderAndCommit.
  assert (Hdue : match lastRender c with
                 | Some (p0, h0) =>
                     (negb (imageUrl p0 =? imageUrl p)%string,
                      hooksDeps2Changed p0 p h0 (hooks c),
                      hooksDeps3Changed h0 (hooks c))
                 | None => (true, true, true)
                 end
                 = (true, true,
                    match lastRender c with
                    | Some (p0, h0) => hooksDeps3Changed h0 (hooks c)
                    | None => true
                    end)).
  { unfold renderedUrl in Hchange.
    destruct (lastRender c) as [[p0 h0]|]; [|reflexivity].
    assert (E : (imageUrl p0 =? imageUrl p)%string = false)
      by (apply String.eqb_neq; congruence).
    unfold hooksDeps2Changed. rewrite E. reflexivity. }
  rewrite Hdue. clear Hdue. cbv iota beta.
  set (due3 := match lastRender c with
               | Some (p0, h0) => hooksDeps3Changed h0 (hooks c)
               | None => true
               end).
  set (c1 := resetReportedEffect
               (if (true && cleanupDue c)%bool then clearTimeoutRef c else c)).
  assert (H1 : hooks c1 = hooks c /\ errorReportedRef c1 = false
               /\ onErrorCalls c1 = onErrorCalls c).
  { unfold c1, resetReportedEffect, clearTimeoutRef. cbn [andb].
    destruct (cleanupDue c), (timeoutRef c); repeat split; reflexivity. }
  destruct H1 as (Hh & Hr & Ho). clearbody c1.
  assert (Hv : hooks (validateEffect URL_parse p (hooks c) c1)
               = mkHooks false false None None 0 false
                   (normalizeImageUrl URL_parse (Some (imageUrl p))) false
               /\ errorReportedRef (validateEffect URL_parse p (hooks c) c1)
                  = false
               /\ onErrorCalls (validateEffect URL_parse p (hooks c) c1)
                  = onErrorCalls c).
  { destruct (validateImageUrl_true _ _ Hvalid) as (Hne & x & Hx & Hp).
    unfold validateEffect.
    apply String.eqb_neq in Hblank. rewrite Hne, Hblank, Hloading, Hvalid.
    cbn [orb negb]. cbv zeta.
    rewrite (option_string_eqb_neq _ _ Hnew). cbn [negb].
    unfold clearTimeoutRef.
    destruct (normalizeImageUrl URL_parse (Some (imageUrl p))) as [n|];
      [destruct (n =? "")%string|];
      cbn [update timeoutRef]; destruct (timeoutRef c1);
      cbn; rewrite ?Hr, ?Ho; repeat split; reflexivity. }
  destruct Hv as (Hv1 & Hv2 & Hv3).
  destruct due3; cbn [setLastRender hooks errorReportedRef onErrorCalls];
    rewrite ?hooks_preloadEffect, ?errorReportedRef_preloadEffect,
      ?onErrorCalls_preloadEffect;
    repeat split; assumption.
Qed.

(** X9, witness: after the image of the scenario has failed for good,
    another URL starts from a clean state. *)
Lemma new_url_resets_state_witness :
  let c := run RefParser.parseURL initial
             (Scenario.broken_image_trace
              ++ [Render Scenario.props;
                  ImageErrors Scenario.replicate_url]) in
  let p := mkProps "https://fake.replicate.delivery/second.png" false
                   (Some 0%nat) in
  hasError (hooks c) = true
  /\ retryCount (hooks c) = 3
  /\ hooks (step RefParser.parseURL c (Render p))
     = mkHooks false false None None 0 false
               (Some "https://fake.replicate.delivery/second.png") false.
Proof.
  cbn zeta. split; [reflexivity|]. split; [reflexivity|].
  refine (proj1 (new_url_resets_state RefParser.parseURL _ _ _ _ _ _ _)).
  - vm_compute. discriminate.
  - reflexivity.
  - vm_compute. discriminate.
  - reflexivity.
  - vm_compute. discriminate.
Defined.

(** X10.  The settlement of a preload touches nothing but the retry
    counter and the list of preloads in flight; it adds one to the
    counter exactly when the preload exists and both its attempts (the
    first and its single retry) fail, and it never sets the error state
    nor reports to the parent. *)
Theorem preload_only_counts
    (URL_parse : string -> option URL) (c : Component) (i : nat)
    (img : nat -> image_event) :
  let c' := step URL_parse c (PreloadSettles i img) in
  hooks c'
  = setRetryCount
      (fun prev =>
         if (Nat.ltb i (length (preloads c))
             && match img 0%nat, img 1%nat with
                | OnError, OnError => true
                | _, _ => false
                end)%bool
         then prev + 1 else prev)
      (hooks c)
  /\ onErrorCalls c' = onErrorCalls c
  /\ errorReportedRef c' = errorReportedRef c
  /\ timeoutRef c' = timeoutRef c.
Proof.
  cbn zeta. cbn [step].
  assert (Hid : hooks c = setRetryCount (fun prev => prev) (hooks c))
    by (destruct (hooks c); reflexivity).
  destruct (nth_error (preloads c) i) eqn:En.
  - assert (Hi : Nat.ltb i (length (preloads c)) = true).
    { apply Nat.ltb_lt. apply nth_error_Some. congruence. }
    rewrite Hi. cbn [andb].
    unfold loadImageWithRetry.
    destruct (attemptLoad_run img 1 0 0 (Finite 2000) ltac:(lia))
      as (H1 & H2 & H3 & H4 & _).
    cbn [Nat.add] in H3, H4.
    set (r := attemptLoad img 1 0 0 (Finite 2000)) in *.
    destruct (outcome r) eqn:Eo.
    + cbn [setPreloads hooks onErrorCalls errorReportedRef timeoutRef].
      repeat split.
      destruct (img 0%nat) eqn:E0; try exact Hid.
      destruct (img 1%nat) eqn:E1; try exact Hid.
      exfalso.
      assert (attempts r = 1 \/ attempts r = 2)%nat as [Ha | Ha] by lia;
        rewrite Ha in H4; cbn in H4; congruence.
    + destruct H4 as [H4 H4'].
      assert (Ha : attempts r = 2%nat) by lia.
      rewrite Ha in H4, H3. cbn in H4.
      rewrite (H3 0%nat ltac:(lia)), H4.
      cbn [preloadFailed update setPreloads hooks onErrorCalls
           errorReportedRef timeoutRef].
      repeat split.
    + repeat split.
      destruct (img 0%nat) eqn:E0; try exact Hid.
      destruct (img 1%nat) eqn:E1; try exact Hid.
      exfalso.
      assert (attempts r = 1 \/ attempts r = 2)%nat as [Ha | Ha] by lia;
        rewrite Ha in H4; cbn in H4; congruence.
  - assert (Hi : Nat.ltb i (length (preloads c)) = false).
    { apply Nat.ltb_ge. apply nth_error_None. exact En. }
    rewrite Hi. cbn [andb]. repeat split. exact Hid.
Qed.

(** X11.  When the component mounts with a URL that is neither blank nor
    loading and fails [validateImageUrl], it enters the error state with
    type [invalid_url], shows the error panel, sets no timer, starts no
    preload, and reports [invalid_url] to the parent once if a callback
    was given. *)
Theorem invalid_url_at_mount
    (URL_parse : string -> option URL) (p : Props)
    (Hloading : isLoading p = false)
    (Hblank : trim (imageUrl p) <> "")
    (Hinvalid : validateImageUrl URL_parse (Some (imageUrl p)) = false) :
  let c := step URL_parse initial (Render p) in
  hooks c
  = mkHooks false true (Some "invalid_url") (Some "Invalid image URL format")
            0 false None false
  /\ render p (hooks c) = ErrorPanel
  /\ timeoutRef c = None
  /\ preloads c = []
  /\ onErrorCalls c
     = match onError p with
       | Some f => [(f, "invalid_url", "Invalid image URL format")]
       | None => []
       end.
Proof.
  cbn zeta. cbn [step]. unfold renderAndCommit.
  cbn [lastRender initial hooks cleanupDue andb]. cbv iota beta.
  unfold validateEffect.
  assert (Hne : (imageUrl p =? "")%string = false).
  { apply String.eqb_neq. intros E. rewrite E in Hblank.
    apply Hblank. reflexivity. }
  apply String.eqb_neq in Hblank.
  rewrite Hne, Hblank, Hloading, Hinvalid. cbn [orb negb].
  unfold render. rewrite Hloading.
  unfold reportError. destruct (onError p); cbn; repeat split.
Qed.

(** X11, witness: an [http] URL is rejected at mount. *)
Lemma invalid_url_at_mount_witness :
  let p := mkProps Scenario.plain_http_url false (Some 0%nat) in
  render p (hooks (step RefParser.parseURL initial (Render p))) = ErrorPanel
  /\ onErrorCalls (step RefParser.parseURL initial (Render p))
     = [(0%nat, "invalid_url", "Invalid image URL format")].
Proof.
  cbn zeta.
  destruct (invalid_url_at_mount RefParser.parseURL
              (mkProps Scenario.plain_http_url false (Some 0%nat)))
    as (_ & H2 & _ & _ & H5).
  - reflexivity.
  - vm_compute. discriminate.
  - reflexivity.
  - split; [exact H2 | exact H5].
Defined.

(** ** More on the remote-call wrappers *)

(** X12.  [generateAvatarImage] succeeds exactly when its input has a
    string [prompt], the token is configured, and [replicate.run]
    resolves in time with an array whose first element is a non-empty
    string that parses as a URL; the result is that element, whatever
    its host. *)
Theorem generateAvatarImage_succeeds_iff
    (URL_parse : string -> option URL) (token : option string)
    (run : string -> settlement value) (raw : value) (url : string) :
  result (generateAvatarImage URL_parse token run raw) = inr url
  <-> exists input t rest,
        image_schema raw = inr input
        /\ configured token = true
        /\ run (prompt input) = Fulfills t (Arr (Str url :: rest))
        /\ t < 60000
        /\ url <> ""
        /\ URL_parse url <> None.
Proof.
  split.
  - unfold generateAvatarImage, procedure.
    destruct (image_schema raw) as [issue | input] eqn:Eraw;
      [discriminate|].
    unfold generateAvatarImage_mutation. fold (configured token).
    destruct (configured token) eqn:Etoken; cbn [negb result];
      [|discriminate].
    destruct (run (prompt input)) as [t output | t e |] eqn:Erun;
      cbn [race_with_timer]; try discriminate.
    2: { destruct (t <? 60000); discriminate. }
    destruct (t <? 60000) eqn:Et; [|discriminate].
    destruct output as [| | | | | [|x rest] |]; cbn [check_output];
      try discriminate.
    destruct x as [| | | | s | |]; try discriminate.
    destruct (s =? "")%string eqn:Es; [discriminate|].
    destruct (URL_parse s) as [u|] eqn:Eu; [|discriminate].
    intros H. injection H as <-.
    exists input, t, rest. repeat split; auto.
    + apply Z.ltb_lt. exact Et.
    + apply String.eqb_neq. exact Es.
    + congruence.
  - intros (input & t & rest & Hraw & Htoken & Hrun & Ht & Hne & Hparse).
    rewrite (image_call_unfold URL_parse token run raw input Hraw Htoken).
    rewrite Hrun. cbn [race_with_timer].
    apply Z.ltb_lt in Ht. rewrite Ht. cbn [check_output].
    apply String.eqb_neq in Hne. rewrite Hne.
    destruct (URL_parse url); [reflexivity | congruence].
Qed.

(** X13.  Without [REPLICATE_API_TOKEN] (unset or empty)
    [generateAvatarImage] calls nothing and fails with the "not properly
    configured" error, whatever the prompt. *)
Theorem generateAvatarImage_without_token
    (URL_parse : string -> option URL) (token : option string)
    (run : string -> settlement value) (raw : value) (input : image_input)
    (Hinput : image_schema raw = inr input)
    (Htoken : configured token = false) :
  generateAvatarImage URL_parse token run raw
  = mkCall []
      (inl (mkTRPCError INTERNAL_SERVER_ERROR
              "Image generation service is not properly configured")).
Proof.
  unfold generateAvatarImage, procedure. rewrite Hinput.
  unfold generateAvatarImage_mutation. fold (configured token).
  rewrite Htoken. reflexivity.
Qed.

(** X13, witness: an empty token. *)
Lemma generateAvatarImage_without_token_witness :
  requests (generateAvatarImage RefParser.parseURL (Some "")
              (Scenario.run_returns (Arr [Str Scenario.replicate_url]))
              Scenario.knight)
  = [].
Proof.
  rewrite (generateAvatarImage_without_token RefParser.parseURL (Some "")
             (Scenario.run_returns (Arr [Str Scenario.replicate_url]))
             Scenario.knight (mkImageInput "a pixel-art knight")
             eq_refl eq_refl).
  reflexivity.
Defined.

(** X14.  The input boundary of [generateAvatarDescription] lets through
    exactly the objects whose [description] and [gameStyle] are
    non-empty strings; on anything else the procedure makes no request
    and fails with a validation error. *)
Theorem generateAvatarDescription_input_boundary
    (fetch : string -> settlement Response) (raw : value) :
  (forall input,
      description_schema raw = inr input
      <-> exists fields,
            raw = Obj fields
            /\ field "description" fields = Str (description input)
            /\ description input <> ""
            /\ field "gameStyle" fields = Str (gameStyle input)
            /\ gameStyle input <> "")
  /\ ((forall input, description_schema raw <> inr input) ->
      requests (generateAvatarDescription fetch raw) = []
      /\ exists issue,
           result (generateAvatarDescription fetch raw)
           = inl (mkTRPCError BAD_REQUEST issue)).
Proof.
  split.
  - intros [d g]. cbn [description gameStyle]. split.
    + unfold description_schema.
      destruct raw as [| | | | | |fields]; try discriminate.
      destruct (field "description" fields) as [| | | |d'| |] eqn:Ed;
        cbn [z_string z_min]; try discriminate.
      destruct (Nat.leb 1 (String.length d')) eqn:Ld; [|discriminate].
      destruct (field "gameStyle" fields) as [| | | |g'| |] eqn:Eg;
        cbn [z_string z_min]; try discriminate.
      destruct (Nat.leb 1 (String.length g')) eqn:Lg; [|discriminate].
      intros H. injection H as <- <-.
      exists fields. repeat split; auto.
      * intros ->. discriminate.
      * intros ->. discriminate.
    + intros (fields & -> & Hd & Hnd & Hg & Hng).
      unfold description_schema. rewrite Hd, Hg. cbn [z_string z_min].
      destruct d; [congruence|]. destruct g; [congruence|]. reflexivity.
  - intros Hno. unfold generateAvatarDescription, procedure.
    destruct (description_schema raw) as [issue | input] eqn:E.
    + split; [reflexivity|]. exists issue. reflexivity.
    + exfalso. apply (Hno input). reflexivity.
Qed.

(** X14, witness: a missing [gameStyle]. *)
Lemma generateAvatarDescription_input_boundary_witness :
  requests (generateAvatarDescription (Scenario.fetch_returns 200)
              (Obj [("description", Str "I love hiking")]))
  = [].
Proof.
  apply (proj2 (generateAvatarDescription_input_boundary
                  (Scenario.fetch_returns 200)
                  (Obj [("description", Str "I love hiking")]))).
  intros input. discriminate.
Defined.

(** X15.  [generateAvatarDescription] succeeds exactly when its input
    passes the boundary, the request resolves in time with a 2xx
    status, the body parses, and the [text] of the first element of its
    [content] is truthy; the result is that [text], which is therefore
    never the empty string. *)
Theorem generateAvatarDescription_succeeds_iff
    (fetch : string -> settlement Response) (raw : value) (text : value) :
  (result (generateAvatarDescription fetch raw) = inr text
   <-> exists input t response body content,
         description_schema raw = inr input
         /\ fetch (description_prompt input) = Fulfills t response
         /\ t < 30000
         /\ ok response = true
         /\ json response = inr body
         /\ get_prop body "content" = Some content
         /\ get_prop_opt (get_index0_opt content) "text" = text
         /\ truthy text = true).
Proof.
  split.
  {
    unfold generateAvatarDescription, procedure.
      destruct (description_schema raw) as [issue | input] eqn:Eraw;
        [discriminate|].
      unfold generateAvatarDescription_mutation. cbn [result].
      destruct (fetch (description_prompt input)) as [t response | t e |]
        eqn:Ef; cbn [race_with_timer]; try discriminate.
      2: { destruct (t <? 30000); discriminate. }
      destruct (t <? 30000) eqn:Et; [|discriminate].
      unfold handle_response.
      destruct (ok response) eqn:Eok; cbn [negb].
      + destruct (json response) as [e | body] eqn:Ej; [discriminate|].
        destruct (get_prop body "content") as [content|] eqn:Ec;
          [|discriminate].
        destruct (truthy (get_prop_opt (get_index0_opt content) "text"))
          eqn:Etr; cbn [negb]; [|discriminate].
        intros H. injection H as <-.
        exists input, t, response, body, content.
        repeat split; auto. apply Z.ltb_lt. exact Et.
      + destruct (Server.text response); [discriminate|].
        destruct (status response =? 401); [discriminate|].
        destruct (status response =? 402); [discriminate|].
        destruct (status response =? 429); [discriminate|].
        destruct (500 <=? status response); discriminate. }
  { intros (input & t & response & body & content
              & Hraw & Hf & Ht & Hok & Hj & Hc & Htext & Htr).
      rewrite (description_call_unfold fetch raw input Hraw).
      rewrite Hf. cbn [race_with_timer].
      apply Z.ltb_lt in Ht. rewrite Ht.
      unfold handle_response. rewrite Hok, Hj, Hc, Htext, Htr. reflexivity. }
Qed.

(** X16.  A rejection that carries the code [ECONNREFUSED] or
    [ENOTFOUND], or whose message contains [network], and whose message
    does not contain [timed out], is reported by both wrappers as their
    "could not connect" error. *)
Theorem connection_failure_reported
    (URL_parse : string -> option URL) (token : option string)
    (run : string -> settlement value)
    (fetch : string -> settlement Response)
    (rawImage rawDescription : value)
    (image : image_input) (described : description_input)
    (t : Z) (e : js_error)
    (Himage : image_schema rawImage = inr image)
    (Hdescribed : description_schema rawDescription = inr described)
    (Htoken : configured token = true)
    (Hnetwork : is_network_error (ThrowOther e) = true)
    (Htimed : says_timed_out (ThrowOther e) = false) :
  (run (prompt image) = Rejects t e -> t < 60000 ->
   result (generateAvatarImage URL_parse token run rawImage)
   = inl (mkTRPCError INTERNAL_SERVER_ERROR
            "Could not connect to image generation service. Please check your internet connection and try again."))
  /\ (fetch (description_prompt described) = Rejects t e -> t < 30000 ->
      result (generateAvatarDescription fetch rawDescription)
      = inl (mkTRPCError INTERNAL_SERVER_ERROR
               "Could not connect to AI service. Please check your internet connection and try again.")).
Proof.
  split.
  - intros Hrun Ht.
    rewrite (image_call_unfold URL_parse token run rawImage image Himage Htoken).
    rewrite Hrun. cbn [race_with_timer].
    apply Z.ltb_lt in Ht. rewrite Ht.
    unfold image_catch. rewrite Htimed, Hnetwork. reflexivity.
  - intros Hf Ht.
    rewrite (description_call_unfold fetch rawDescription described Hdescribed).
    rewrite Hf. cbn [race_with_timer].
    apply Z.ltb_lt in Ht. rewrite Ht.
    unfold description_catch. rewrite Htimed, Hnetwork. reflexivity.
Qed.

(** X16, witness: the connection is refused. *)
Lemma connection_failure_reported_witness :
  result (generateAvatarDescription
            (fun _ => Rejects 30 MoreScenario.refused) Scenario.describe_me)
  = inl (mkTRPCError INTERNAL_SERVER_ERROR
           "Could not connect to AI service. Please check your internet connection and try again.").
Proof.
  apply (proj2 (connection_failure_reported RefParser.parseURL Scenario.token
                  (fun _ => NeverSettles)
                  (fun _ => Rejects 30 MoreScenario.refused)
                  Scenario.knight Scenario.describe_me
                  (mkImageInput "a pixel-art knight")
                  (mkDescriptionInput
                     "I am a calm, creative problem solver who loves nature"
                     "Pixel Art style from Minecraft")
                  30 MoreScenario.refused
                  eq_refl eq_refl eq_refl eq_refl eq_refl));
    [reflexivity | lia].
Defined.

Lemma includes_needs_first_char (c : ascii) (rest s : string) :
  RefParser.string_forallb (fun x => negb (Ascii.eqb c x)) s = true ->
  includes s (String c rest) = false.
Proof.
  induction s as [|a s IH]; cbn [RefParser.string_forallb includes];
    intros H.
  - reflexivity.
  - apply Bool.andb_true_iff in H as [Ha Hs].
    apply Bool.negb_true_iff in Ha. apply Ascii.eqb_neq in Ha.
    cbn [String.prefix].
    destruct (ascii_dec c a) as [E | _]; [congruence|].
    cbn [orb]. apply IH. exact Hs.
Qed.

Lemma string_forallb_append (p : ascii -> bool) (a b : string) :
  RefParser.string_forallb p (a ++ b)
  = (RefParser.string_forallb p a && RefParser.string_forallb p b)%bool.
Proof.
  induction a as [|x a IH]; cbn; [reflexivity|].
  rewrite IH. apply Bool.andb_assoc.
Qed.

Lemma decimal_chars (p : ascii -> bool) (n : Z) :
  RefParser.string_forallb p "-0123456789" = true ->
  RefParser.string_forallb p (decimal n) = true.
Proof.
  intros Hp. cbn in Hp.
  repeat match type of Hp with
         | (_ && _)%bool = true =>
             let H := fresh "Hd" in
             apply Bool.andb_true_iff in Hp as [H Hp]
         end.
  assert (Hu : forall d,
             RefParser.string_forallb p (NilEmpty.string_of_uint d) = true).
  { induction d; cbn; rewrite ?IHd; rewrite ?Bool.andb_true_r; auto. }
  assert (Hz : forall d,
             RefParser.string_forallb p (NilZero.string_of_uint d) = true).
  { intros d. destruct d; try apply Hu. cbn.
    rewrite Bool.andb_true_r. assumption. }
  unfold decimal. destruct (Z.to_int n) as [d | d]; cbn.
  - apply Hz.
  - rewrite Hz, Bool.andb_true_r. assumption.
Qed.

(** X17.  A response of [generateAvatarDescription] that arrives in
    time with a status outside 200..299 and outside the four statuses
    with a kind of their own (401, 402, 429, 500 and above), and whose
    body has been read, yields an internal error whose message gives the
    status. *)
Theorem generateAvatarDescription_other_status
    (fetch : string -> settlement Response) (raw : value)
    (input : description_input) (t : Z) (response : Response)
    (errorText : string)
    (Hinput : description_schema raw = inr input)
    (Hfetch : fetch (description_prompt input) = Fulfills t response)
    (Htime : t < 30000)
    (Hok : ok response = false)
    (Hbody : text response = inr errorText)
    (Hother : by_status description_unauthorized
                description_payment_required description_rate_limited
                description_unavailable (status response) = None) :
  result (generateAvatarDescription fetch raw)
  = inl (mkTRPCError INTERNAL_SERVER_ERROR
           ("AI service error: " ++ decimal (status response))).
Proof.
  rewrite (description_call_unfold fetch raw input Hinput).
  rewrite Hfetch. cbn [race_with_timer].
  apply Z.ltb_lt in Htime. rewrite Htime.
  unfold handle_response. rewrite Hok, Hbody. cbn [negb].
  unfold by_status in Hother.
  destruct (status response =? 401); [discriminate|].
  destruct (status response =? 402); [discriminate|].
  destruct (status response =? 429); [discriminate|].
  destruct (500 <=? status response); [discriminate|].
  unfold description_catch, says_timed_out, is_network_error.
  cbn [thrown_message thrown_code message code code_name].
  assert (Ht : includes ("AI service error: " ++ decimal (status response))
                 "timed out" = false).
  { apply includes_needs_first_char.
    rewrite string_forallb_append, decimal_chars; reflexivity. }
  assert (Hn : includes ("AI service error: " ++ decimal (status response))
                 "network" = false).
  { apply includes_needs_first_char.
    rewrite string_forallb_append, decimal_chars; reflexivity. }
  rewrite Ht, Hn. rewrite Bool.andb_false_r. reflexivity.
Qed.

(** X17, witness: HTTP 404. *)
Lemma generateAvatarDescription_other_status_witness :
  result (generateAvatarDescription (Scenario.fetch_returns 404)
            Scenario.describe_me)
  = inl (mkTRPCError INTERNAL_SERVER_ERROR "AI service error: 404").
Proof.
  apply (generateAvatarDescription_other_status
           (Scenario.fetch_returns 404) Scenario.describe_me
           (mkDescriptionInput
              "I am a calm, creative problem solver who loves nature"
              "Pixel Art style from Minecraft")
           650 (mkResponse 404 (inr "{}") (inr (Obj []))) "{}");
    [reflexivity | reflexivity | lia | reflexivity | reflexivity
     | reflexivity].
Defined.

(** ** [isImageAccessible] *)

(** X18.  [isImageAccessible] answers [true] exactly when the URL is not
    empty, the [HEAD] request resolves with a status in 200..299, and
    the response has no content type, an empty one, or one that starts
    with [image/]; for [null], [undefined] and the empty string it makes
    no request at all. *)
Theorem isImageAccessible_spec
    (fetch : string -> option ImageAccess.HeadResponse)
    (url : option string) :
  (ImageAccess.accessible (ImageAccess.isImageAccessible fetch url) = true
   <-> exists s response,
         url = Some s /\ s <> "" /\ fetch s = Some response
         /\ 200 <= ImageAccess.headStatus response <= 299
         /\ (ImageAccess.contentType response = None
             \/ ImageAccess.contentType response = Some ""
             \/ exists ct, ImageAccess.contentType response = Some ct
                           /\ String.prefix "image/" ct = true))
  /\ ImageAccess.requested (ImageAccess.isImageAccessible fetch None) = []
  /\ ImageAccess.requested (ImageAccess.isImageAccessible fetch (Some "")) = [].
Proof.
  split; [|split; reflexivity].
  unfold ImageAccess.isImageAccessible. split.
  - destruct url as [s|]; [|discriminate].
    destruct (s =? "")%string eqn:Es; [discriminate|].
    cbn [ImageAccess.accessible].
    destruct (fetch s) as [response|] eqn:Ef; [|discriminate].
    destruct (200 <=? ImageAccess.headStatus response) eqn:E1;
      cbn [andb negb]; [|discriminate].
    destruct (ImageAccess.headStatus response <=? 299) eqn:E2;
      cbn [negb]; [|discriminate].
    intros H. exists s, response. repeat split; auto.
    + apply String.eqb_neq. exact Es.
    + apply Z.leb_le. exact E1.
    + apply Z.leb_le. exact E2.
    + destruct (ImageAccess.contentType response) as [ct|]; [|now left].
      right. destruct (ct =? "")%string eqn:Ec.
      * left. apply String.eqb_eq in Ec. congruence.
      * right. exists ct. split; [reflexivity|].
        cbn [negb andb] in H.
        destruct (String.prefix "image/" ct); [reflexivity | discriminate].
  - intros (s & response & -> & Hs & Hf & [H1 H2] & Hct).
    apply String.eqb_neq in Hs. rewrite Hs. cbn [ImageAccess.accessible].
    rewrite Hf.
    apply Z.leb_le in H1, H2. rewrite H1, H2. cbn [andb negb].
    destruct Hct as [-> | [-> | (ct & -> & Hp)]]; try reflexivity.
    rewrite Hp. rewrite Bool.andb_false_r. reflexivity.
Qed.

(** ** [useAvatarDescription] *)

(** X19.  [generateDescription] never returns a falsy description: it
    returns the [description] of what the mutation resolved with when
    that is truthy, and in every other case (the mutation rejects, its
    result has no usable [description]) it throws an [Error] whose
    message starts with "Failed to generate avatar description: ". *)
Theorem generateDescription_outcomes
    (mutateAsync : string -> string -> js_error + value)
    (userDescription gameStyle : string) :
  match Client.generateDescription mutateAsync userDescription gameStyle with
  | inr description =>
      truthy description = true
      /\ exists response,
           mutateAsync userDescription gameStyle = inr response
           /\ get_prop response "description" = Some description
  | inl e =>
      instanceofError e = true
      /\ exists m,
           errMessage e
           = Some ("Failed to generate avatar description: " ++ m)
  end.
Proof.
  unfold Client.generateDescription.
  destruct (mutateAsync userDescription gameStyle) as [e | response].
  - split; [reflexivity|]. eexists. reflexivity.
  - destruct (get_prop response "description") as [d|] eqn:Ed.
    + destruct (truthy d) eqn:Et; cbn [negb].
      * split; [exact Et|]. exists response. split; [reflexivity | exact Ed].
      * split; [reflexivity|]. eexists. reflexivity.
    + split; [reflexivity|]. eexists. reflexivity.
Qed.

(** ** The form *)

Lemma prefix_append (a b : string) : String.prefix a (a ++ b) = true.
Proof.
  induction a as [|x a IH]; cbn; [destruct b; reflexivity|].
  destruct (ascii_dec x x); [exact IH | congruence].
Qed.

(** X20.  Whenever the form submits, the description has between 20 and
    500 characters and a style and a game are given; and the input that
    the client then sends to [generateAvatarDescription] (the
    description and the style context) passes that procedure's input
    boundary. *)
Theorem form_submission_passes_server_boundary
    (generateDescription : string -> string -> js_error + string)
    (data : Form.FormValues) (sub : Form.submission)
    (Hsubmit : Form.handleSubmit generateDescription data = Some sub) :
  (20 <= String.length (Form.description data) <= 500)%nat
  /\ Form.artStyle data <> ""
  /\ Form.gameName data <> ""
  /\ Form.described sub
     = [(Form.description data, Form.styleContext data)]
  /\ description_schema
       (Obj [("description", Str (Form.description data));
             ("gameStyle", Str (Form.styleContext data))])
     = inr (mkDescriptionInput (Form.description data)
                               (Form.styleContext data)).
Proof.
  unfold Form.handleSubmit in Hsubmit.
  destruct (Form.formSchema data) eqn:Es; [|discriminate].
  injection Hsubmit as <-.
  unfold Form.formSchema in Es.
  destruct (Nat.ltb (String.length (Form.description data)) 20) eqn:E1;
    [discriminate|].
  destruct (Nat.ltb 500 (String.length (Form.description data))) eqn:E2;
    [discriminate|].
  destruct (Nat.ltb (String.length (Form.artStyle data)) 1) eqn:E3;
    [discriminate|].
  destruct (Nat.ltb (String.length (Form.gameName data)) 1) eqn:E4;
    [discriminate|].
  apply Nat.ltb_ge in E1, E2, E3, E4.
  split; [lia|]. split.
  { intros H. rewrite H in E3. cbn in E3. lia. }
  split.
  { intros H. rewrite H in E4. cbn in E4. lia. }
  split.
  { unfold Form.onSubmit.
    destruct (generateDescription _ _); reflexivity. }
  unfold description_schema. cbn [field String.eqb Ascii.eqb Bool.eqb].
  cbn [z_string z_min].
  assert (L1 : Nat.leb 1 (String.length (Form.description data)) = true)
    by (apply Nat.leb_le; lia).
  rewrite L1.
  assert (L2 : Nat.leb 1 (String.length (Form.styleContext data)) = true).
  { unfold Form.styleContext.
    destruct (Form.finalArtStyle data); reflexivity. }
  rewrite L2. reflexivity.
Qed.

(** X20, witness: the submission of the specification's scenario sends
    the style context "Pixel Art style from Minecraft". *)
Lemma form_submission_passes_server_boundary_witness :
  description_schema
    (Obj [("description", Str (Form.description MoreScenario.form_data));
          ("gameStyle", Str "Pixel Art style from Minecraft")])
  = inr (mkDescriptionInput (Form.description MoreScenario.form_data)
                            "Pixel Art style from Minecraft").
Proof.
  exact (proj2 (proj2 (proj2 (proj2
           (form_submission_passes_server_boundary
              MoreScenario.describes MoreScenario.form_data
              (Form.onSubmit MoreScenario.describes MoreScenario.form_data)
              eq_refl))))).
Defined.

(** X21.  The colour class of the character count is orange from 400
    characters on and grey below; the class for 450 and more is never
    reached. *)
Theorem getCharCountColorClass_never_red (characterCount : nat) :
  Form.getCharCountColorClass characterCount <> "text-red-500"
  /\ (Form.getCharCountColorClass characterCount = "text-orange-500"
      <-> (400 <= characterCount)%nat)
  /\ (Form.getCharCountColorClass characterCount = "text-gray-500"
      <-> (characterCount < 400)%nat).
Proof.
  unfold Form.getCharCountColorClass.
  destruct (Nat.leb 400 characterCount) eqn:E.
  - apply Nat.leb_le in E. repeat split; try discriminate; try lia; auto.
  - apply Nat.leb_gt in E.
    assert (E' : Nat.leb 450 characterCount = false)
      by (apply Nat.leb_gt; lia).
    rewrite E'. repeat split; try discriminate; try lia; auto.
Qed.

(** X22.  A submission is all or nothing.  It asks for one description;
    if that fails, image generation is not started and the error shown
    starts with "Claude API error: "; if it succeeds, image generation
    is started exactly once, with a prompt that begins with the
    description received, and no error is shown.  Either way the form
    is no longer generating at the end. *)
Theorem onSubmit_all_or_nothing
    (generateDescription : string -> string -> js_error + string)
    (data : Form.FormValues) :
  let sub := Form.onSubmit generateDescription data in
  Form.isGenerating sub = false
  /\ Form.described sub = [(Form.description data, Form.styleContext data)]
  /\ match generateDescription (Form.description data)
             (Form.styleContext data) with
     | inr avatarDescription =>
         Form.errorMessage sub = None
         /\ exists prompt,
              Form.started sub = [(prompt, Form.displayStyle data)]
              /\ String.prefix avatarDescription prompt = true
              /\ prompt <> ""
     | inl _ =>
         Form.started sub = []
         /\ exists m,
              Form.errorMessage sub = Some ("Claude API error: " ++ m)
              /\ Form.toasts sub
                 = [(false, "Failed to generate avatar: Claude API error: "
                            ++ m)]
     end.
Proof.
  cbn zeta. unfold Form.onSubmit.
  destruct (generateDescription (Form.description data)
              (Form.styleContext data)) as [e | text].
  - repeat split. eexists. split; reflexivity.
  - repeat split. eexists. split; [reflexivity|]. split.
    + unfold Form.imagePrompt. apply prefix_append.
    + unfold Form.imagePrompt. destruct text; discriminate.
Qed.

(** ** The page *)

Lemma page_invariant (events : list Home.PageEvent) (h : Home.Page)
                     (known : list string) :
  Forall (fun q => In q known) (Home.mutations h) ->
  (forall q, Home.internalPrompt h = Some q -> In q known) ->
  Forall (fun q => In q (known ++ Home.startedPrompts events)%list)
         (Home.mutations (Home.pageRun h events))
  /\ (forall q, Home.internalPrompt (Home.pageRun h events) = Some q ->
                In q (known ++ Home.startedPrompts events)%list).
Proof.
  revert h known. induction events as [|e events IH]; intros h known Hm Hi.
  - cbn. rewrite app_nil_r. split; assumption.
  - cbn [Home.pageRun fold_left].
    change (fold_left Home.pageStep events (Home.pageStep h e))
      with (Home.pageRun (Home.pageStep h e) events).
    destruct e as [prompt style | | | url | message]; cbn [Home.startedPrompts].
    + replace (known ++ prompt :: Home.startedPrompts events)%list
        with ((known ++ [prompt]) ++ Home.startedPrompts events)%list
        by (rewrite <- app_assoc; reflexivity).
      apply IH.
      * cbn. apply Forall_app. split.
        -- eapply Forall_impl; [|exact Hm]. intros q Hq.
           apply in_or_app. now left.
        -- constructor; [|constructor]. apply in_or_app. right. now left.
      * cbn. intros q H. injection H as <-.
        apply in_or_app. right. now left.
    + apply IH; [|].
      * cbn. unfold Home.handleRegenerateImage.
        destruct (Home.internalPrompt h) as [q|] eqn:Eq; [|exact Hm].
        destruct (q =? "")%string; [exact Hm|].
        cbn. apply Forall_app. split; [exact Hm|].
        constructor; [|constructor]. apply Hi. reflexivity.
      * cbn. unfold Home.handleRegenerateImage.
        destruct (Home.internalPrompt h) as [q|] eqn:Eq; [|].
        -- destruct (q =? "")%string; cbn; rewrite ?Eq; intros q' H;
             apply Hi; congruence.
        -- rewrite Eq. discriminate.
    + apply IH; [exact Hm|]. cbn. discriminate.
    + apply IH; [exact Hm | exact Hi].
    + apply IH; [exact Hm | exact Hi].
Qed.

(** X23.  Whatever the user does and whatever the mutation answers, the
    page passes to [generateAvatarImage] only prompts that the form
    handed over: regenerating replays the stored prompt, and sends
    nothing when none is stored (after a reset) or when it is empty.  If
    the form never hands over an empty prompt, the page never sends
    one. *)
Theorem page_sends_only_started_prompts (events : list Home.PageEvent) :
  Forall (fun q => In q (Home.startedPrompts events))
         (Home.mutations (Home.pageRun Home.initialPage events))
  /\ (Forall (fun q => q <> "") (Home.startedPrompts events) ->
      Forall (fun q => q <> "")
             (Home.mutations (Home.pageRun Home.initialPage events)))
  /\ Home.mutations
       (Home.pageRun Home.initialPage (events ++ [Home.Reset; Home.Regenerate])%list)
     = Home.mutations (Home.pageRun Home.initialPage events).
Proof.
  destruct (page_invariant events Home.initialPage [])
    as [Hm _]; [constructor | discriminate |].
  cbn [app] in Hm. split; [exact Hm|]. split.
  - intros Hne. rewrite Forall_forall in *. intros q Hq.
    apply Hne. apply Hm. exact Hq.
  - unfold Home.pageRun. rewrite fold_left_app. reflexivity.
Qed.

(** X23, witness: start, regenerate twice, reset, regenerate. *)
Lemma page_sends_only_started_prompts_witness :
  Home.mutations
    (Home.pageRun Home.initialPage
       [Home.Start "a knight" "Pixel Art (Minecraft)"; Home.Regenerate;
        Home.Fails "timeout"; Home.Regenerate; Home.Reset; Home.Regenerate])
  = ["a knight"; "a knight"; "a knight"]
  /\ Forall (fun q => q <> "")
       (Home.mutations
          (Home.pageRun Home.initialPage
             [Home.Start "a knight" "Pixel Art (Minecraft)"; Home.Regenerate;
              Home.Fails "timeout"; Home.Regenerate; Home.Reset;
              Home.Regenerate])).
Proof.
  split; [reflexivity|].
  apply (proj1 (proj2 (page_sends_only_started_prompts
           [Home.Start "a knight" "Pixel Art (Minecraft)"; Home.Regenerate;
            Home.Fails "timeout"; Home.Regenerate; Home.Reset;
            Home.Regenerate]))).
  repeat constructor. discriminate.
Defined.

(** ** The result display and the image component together *)

Lemma trim_start_keeps (s : string) :
  RefParser.string_forallb is_white_space s = false ->
  RefParser.string_forallb is_white_space (trim_start s) = false.
Proof.
  induction s as [|c s IH]; cbn [trim_start RefParser.string_forallb].
  - discriminate.
  - destruct (is_white_space c) eqn:E; cbn [andb].
    + exact IH.
    + intros _. cbn [RefParser.string_forallb]. rewrite E. reflexivity.
Qed.

Lemma rev_string_keeps (s acc : string) :
  RefParser.string_forallb is_white_space (rev_string s acc)
  = (RefParser.string_forallb is_white_space s
     && RefParser.string_forallb is_white_space acc)%bool.
Proof.
  revert acc. induction s as [|c s IH]; intros acc;
    cbn [rev_string RefParser.string_forallb]; [reflexivity|].
  rewrite IH. cbn [RefParser.string_forallb].
  destruct (is_white_space c), (RefParser.string_forallb is_white_space s);
    reflexivity.
Qed.

(** A string with a character that is not white space does not trim to
    the empty string. *)
Lemma trim_nonempty (s : string) :
  RefParser.string_forallb is_white_space s = false -> trim s <> "".
Proof.
  intros H. unfold trim, trim_end.
  apply trim_start_keeps in H.
  assert (H1 : RefParser.string_forallb is_white_space
                 (rev_string (trim_start s) "") = false).
  { rewrite rev_string_keeps, H. reflexivity. }
  apply trim_start_keeps in H1.
  assert (H2 : RefParser.string_forallb is_white_space
                 (rev_string (trim_start (rev_string (trim_start s) "")) "")
               = false).
  { rewrite rev_string_keeps, H1. reflexivity. }
  intros E. rewrite E in H2. discriminate.
Qed.

Lemma toString_not_blank (u : URL) : trim (toString u) <> "".
Proof.
  apply trim_nonempty. unfold toString.
  rewrite string_forallb_append.
  change (":" ++ _)%string with (String ":" (match host u with
     | Some h => serialize_authority u h
     | None =>
         match path u with
         | ListPath ((EmptyString :: _ :: _)) => "/."
         | _ => ""
         end
     end
  ++ serialize_path (path u)
  ++ match query u with Some q => "?" ++ q | None => "" end
  ++ match fragment u with Some f => "#" ++ f | None => "" end)).
  cbn [RefParser.string_forallb].
  change (is_white_space ":") with false.
  cbn [andb]. apply Bool.andb_false_r.
Qed.

(** X24.  After its validation effect, [AvatarResultDisplay] hands a URL
    to [AvatarImage] only if the given URL is not empty, the page is not
    loading and the URL passed [validateImageUrl]; the URL handed over
    is then its normalization.  In every other case the image component
    receives the empty string, and a validation error is shown exactly
    when a non-empty URL failed validation while not loading. *)
Theorem display_hands_over_validated_urls
    (URL_parse : string -> option URL)
    (p : ResultDisplay.DisplayProps) (d : ResultDisplay.Display) :
  let d' := ResultDisplay.validationEffect URL_parse p d in
  let ready :=
    (ResultDisplay.truthy_string (ResultDisplay.imageUrl p)
     && negb (ResultDisplay.isLoading p))%bool in
  ResultDisplay.validatedImageUrl d'
  = (if (ready && validateImageUrl URL_parse (ResultDisplay.imageUrl p))%bool
     then normalizeImageUrl URL_parse (ResultDisplay.imageUrl p) else None)
  /\ (AvatarImage.imageUrl (ResultDisplay.childProps p d') <> ""
      -> ready = true
         /\ validateImageUrl URL_parse (ResultDisplay.imageUrl p) = true)
  /\ (ResultDisplay.imageValidationError d' <> None
      <-> ready = true
          /\ validateImageUrl URL_parse (ResultDisplay.imageUrl p) = false)
  /\ ResultDisplay.imageLoadError d' = None.
Proof.
  cbn zeta. unfold ResultDisplay.validationEffect, ResultDisplay.childProps.
  destruct (ResultDisplay.truthy_string (ResultDisplay.imageUrl p));
    destruct (ResultDisplay.isLoading p); cbn [negb orb andb];
    try destruct (validateImageUrl URL_parse (ResultDisplay.imageUrl p));
    cbn [negb ResultDisplay.validatedImageUrl
         ResultDisplay.imageValidationError ResultDisplay.imageLoadError
         AvatarImage.imageUrl].
  all: split; [reflexivity|]; split; [|split; [split|reflexivity]].
  all: try (intros Hc; exfalso; apply Hc; reflexivity).
  all: try (intros [H1 H2]; discriminate).
  all: try (intros _; split; reflexivity).
  all: try (intros _; discriminate).
Qed.

(** X24, witness: the URL of the scenario is handed over. *)
Lemma display_hands_over_validated_urls_witness :
  AvatarImage.imageUrl
    (ResultDisplay.childProps MoreScenario.display_props
       (ResultDisplay.validationEffect RefParser.parseURL
          MoreScenario.display_props ResultDisplay.initialDisplay))
  = Scenario.replicate_url
  /\ validateImageUrl RefParser.parseURL (Some Scenario.replicate_url) = true.
Proof.
  split; [reflexivity|].
  apply (proj1 (proj2 (display_hands_over_validated_urls RefParser.parseURL
                         MoreScenario.display_props
                         ResultDisplay.initialDisplay))).
  vm_compute. discriminate.
Defined.

(** X25.  The two components agree on a validated URL, where the parser
    reads back its serialization.  The image component, mounted with the
    props that the display hands over, validates the URL again
    successfully, enters no error state and reports nothing; it sets the
    20-second timer exactly when the display shows its note on
    temporary images (no load error pending), and the 15-second timer
    otherwise. *)
Theorem display_and_image_agree
    (URL_parse : string -> option URL)
    (p : ResultDisplay.DisplayProps) (d : ResultDisplay.Display)
    (s : string) (parsedUrl : URL)
    (Hurl : ResultDisplay.imageUrl p = Some s)
    (Hloading : ResultDisplay.isLoading p = false)
    (Hvalid : validateImageUrl URL_parse (Some s) = true)
    (Hparse : URL_parse s = Some parsedUrl)
    (Hback : reads_back URL_parse parsedUrl) :
  let d' := ResultDisplay.validationEffect URL_parse p d in
  let child := step URL_parse initial
                 (Render (ResultDisplay.childProps p d')) in
  AvatarImage.imageUrl (ResultDisplay.childProps p d') = toString parsedUrl
  /\ hasError (hooks child) = false
  /\ onErrorCalls child = []
  /\ ResultDisplay.temporaryNoteShown p d'
     = isLikelyTemporaryUrl URL_parse (Some s)
  /\ timeoutRef child
     = Some (mkTimer
               (if ResultDisplay.temporaryNoteShown p d'
                then 20000 else 15000)
               false false (Some 0%nat) true).
Proof.
  cbn zeta.
  destruct (validateImageUrl_true _ _ Hvalid) as (Hne & x & Hx & Hp).
  rewrite Hparse in Hx. injection Hx as <-.
  unfold reads_back in Hback.
  assert (Hn : normalizeImageUrl URL_parse (Some s)
               = Some (toString parsedUrl)).
  { unfold normalizeImageUrl, ensure_https. rewrite Hne, Hparse, Hp.
    reflexivity. }
  assert (Hd : ResultDisplay.validationEffect URL_parse p d
               = ResultDisplay.mkDisplay (Some (toString parsedUrl)) None
                   (isLikelyTemporaryUrl URL_parse (Some s)) None
                   (ResultDisplay.retryCounter d)
                   (ResultDisplay.retryTimers d) (ResultDisplay.toasts d)).
  { unfold ResultDisplay.validationEffect.
    rewrite Hurl, Hloading. cbn [ResultDisplay.truthy_string].
    rewrite Hne, Hvalid, Hn. cbn [negb orb ResultDisplay.truthy_string].
    rewrite toString_nonempty. cbn [negb andb].
    f_equal. unfold isLikelyTemporaryUrl.
    rewrite toString_nonempty, Hback, Hne, Hparse. reflexivity. }
  rewrite Hd. unfold ResultDisplay.childProps, ResultDisplay.temporaryNoteShown.
  cbn [ResultDisplay.validatedImageUrl ResultDisplay.isTemporaryUrl
       ResultDisplay.imageLoadError ResultDisplay.truthy_string].
  rewrite Hloading, toString_nonempty. cbn [negb andb].
  rewrite !Bool.andb_true_r.
  set (q := mkProps (toString parsedUrl) false (Some 0%nat)).
  assert (Hv' : validateImageUrl URL_parse (Some (AvatarImage.imageUrl q))
                = true).
  { unfold q. cbn [AvatarImage.imageUrl]. unfold validateImageUrl.
    rewrite toString_nonempty, Hback, Hp.
    destruct (includes _ _); reflexivity. }
  assert (Hb : trim (AvatarImage.imageUrl q) <> "")
    by apply toString_not_blank.
  assert (Hn' : normalizeImageUrl URL_parse (Some (AvatarImage.imageUrl q))
                = Some (toString parsedUrl)).
  { unfold q. cbn [AvatarImage.imageUrl].
    unfold normalizeImageUrl, ensure_https.
    rewrite toString_nonempty, Hback, Hp. reflexivity. }
  assert (Ht : timeoutDuration URL_parse (Some (toString parsedUrl))
               = if isLikelyTemporaryUrl URL_parse (Some s)
                 then 20000 else 15000).
  { unfold timeoutDuration, isLikelyTemporaryUrl.
    rewrite toString_nonempty, Hback, Hne, Hparse. reflexivity. }
  split; [reflexivity|].
  assert (Hstep : step URL_parse initial (Render q)
                  = setLastRender (Some (q, initialHooks))
                      (preloadEffect URL_parse initialHooks
                         (validateEffect URL_parse q initialHooks
                            (resetReportedEffect initial)))).
  { reflexivity. }
  rewrite Hstep.
  cbn [setLastRender hooks onErrorCalls timeoutRef].
  rewrite hooks_preloadEffect, onErrorCalls_preloadEffect,
    timeoutRef_preloadEffect.
  rewrite (validateEffect_timer URL_parse q initialHooks
             (resetReportedEffect initial) eq_refl Hb Hv').
  rewrite Hn', Ht.
  assert (Hve : hooks (validateEffect URL_parse q initialHooks
                         (resetReportedEffect initial))
                = mkHooks false false None None 0 false
                          (Some (toString parsedUrl)) false
                /\ onErrorCalls (validateEffect URL_parse q initialHooks
                                   (resetReportedEffect initial)) = []).
  { unfold validateEffect.
    replace (AvatarImage.imageUrl q =? "")%string with false
      by (symmetry; apply toString_nonempty).
    apply String.eqb_neq in Hb. rewrite Hb, Hv', Hn'.
    cbn [AvatarImage.isLoading q orb negb]. cbv zeta.
    cbn [option_string_eqb normalizedUrl initialHooks negb].
    rewrite toString_nonempty. split; reflexivity. }
  destruct Hve as [Hh Ho]. rewrite Hh, Ho.
  repeat split.
Qed.

(** X25, witness: the URL of the scenario: note shown, 20 seconds. *)
Lemma display_and_image_agree_witness :
  let d' := ResultDisplay.validationEffect RefParser.parseURL
              MoreScenario.display_props ResultDisplay.initialDisplay in
  ResultDisplay.temporaryNoteShown MoreScenario.display_props d' = true
  /\ timeoutRef (step RefParser.parseURL initial
                   (Render (ResultDisplay.childProps
                              MoreScenario.display_props d')))
     = Some (mkTimer 20000 false false (Some 0%nat) true).
Proof.
  cbn zeta.
  destruct (display_and_image_agree RefParser.parseURL
              MoreScenario.display_props ResultDisplay.initialDisplay
              Scenario.replicate_url
              (mkURL "https" "" "" (Some "fake.replicate.delivery") None
                     (ListPath ["abc.png"]) None None)
              eq_refl eq_refl eq_refl eq_refl eq_refl)
    as (_ & _ & _ & H4 & H5).
  split.
  - rewrite H4. reflexivity.
  - rewrite H5, H4. reflexivity.
Defined.

(** X26.  Retrying the load of a validated URL: [handleRetryImageLoad]
    clears the load error, takes the URL away from the image component
    and raises its key by one, so that the component is created anew;
    when its timer fires, the URL handed over is the one the validation
    effect had set. *)
Theorem retry_restores_validated_url
    (URL_parse : string -> option URL)
    (p : ResultDisplay.DisplayProps) (d : ResultDisplay.Display)
    (errorType errorMessage : string)
    (Hloading : ResultDisplay.isLoading p = false)
    (Hvalid : validateImageUrl URL_parse (ResultDisplay.imageUrl p) = true)
    (Hidle : ResultDisplay.retryTimers d = []) :
  let shown := ResultDisplay.validationEffect URL_parse p d in
  let failed :=
    ResultDisplay.handleImageLoadError errorType errorMessage shown in
  let retrying := ResultDisplay.handleRetryImageLoad p failed in
  let retried := ResultDisplay.retryTimerFires URL_parse retrying in
  ResultDisplay.imageLoadError failed = Some (errorType, errorMessage)
  /\ AvatarImage.imageUrl (ResultDisplay.childProps p retrying) = ""
  /\ ResultDisplay.imageLoadError retrying = None
  /\ ResultDisplay.retryCounter retried = ResultDisplay.retryCounter d + 1
  /\ ResultDisplay.childProps p retried = ResultDisplay.childProps p shown
  /\ ResultDisplay.retryTimers retried = [].
Proof.
  cbn zeta.
  assert (Ht : ResultDisplay.truthy_string (ResultDisplay.imageUrl p) = true).
  { unfold validateImageUrl in Hvalid. unfold ResultDisplay.truthy_string.
    destruct (ResultDisplay.imageUrl p) as [s|]; [|discriminate].
    destruct (s =? "")%string; [discriminate | reflexivity]. }
  unfold ResultDisplay.validationEffect.
  rewrite Ht, Hloading, Hvalid. cbn [negb orb].
  unfold ResultDisplay.retryTimerFires, ResultDisplay.handleRetryImageLoad,
    ResultDisplay.handleImageLoadError, ResultDisplay.childProps.
  cbn [ResultDisplay.validatedImageUrl ResultDisplay.imageLoadError
       ResultDisplay.retryCounter ResultDisplay.retryTimers
       ResultDisplay.imageValidationError ResultDisplay.isTemporaryUrl
       ResultDisplay.toasts].
  rewrite Hidle. cbn [app]. rewrite Ht.
  repeat split.
Qed.

(** X26, witness: the image of the scenario is retried. *)
Lemma retry_restores_validated_url_witness :
  let shown := ResultDisplay.validationEffect RefParser.parseURL
                 MoreScenario.display_props ResultDisplay.initialDisplay in
  ResultDisplay.childProps MoreScenario.display_props
    (ResultDisplay.retryTimerFires RefParser.parseURL
       (ResultDisplay.handleRetryImageLoad MoreScenario.display_props
          (ResultDisplay.handleImageLoadError "timeout" "too slow" shown)))
  = ResultDisplay.childProps MoreScenario.display_props shown.
Proof.
  cbn zeta.
  destruct (retry_restores_validated_url RefParser.parseURL
              MoreScenario.display_props ResultDisplay.initialDisplay
              "timeout" "too slow" eq_refl eq_refl eq_refl)
    as (_ & _ & _ & _ & H & _).
  exact H.
Defined.
